(** * Autonomous ROI calculator: the calculation engine and the equipment
    recommender, embedded in Rocq.

  Sources: [public/js/calculator.js] (module [Calculator]: [resolveInputs],
  [calculateROI] with its [withInvestment] method, [calculateProjection])
  and the equipment recommendation script (module [Equipment]:
  [FALLBACK_DATA], [getModelByShortName], [recommendEquipment]).

  JavaScript numbers are IEEE 754 binary64 values and are modelled by Rocq's
  primitive [float], so every arithmetic step below rounds exactly as the
  script does; [NaN], the two infinities and the two zeros are all there.
  The properties are proved from the specification of the primitive
  operations ([FloatAxioms]) over [SpecFloat].  [Math.pow] is the one
  operation whose last bit the language leaves to the engine: the
  projection, which compounds with it, is embedded a second time with
  [Math.pow] left open ([AnyEngine]).

  Further covered: the public API of the recommender, the wizard of
  [public/js/app.js] ([gatherInputs], [validateStep], [goToStep],
  [runCalculation]), the lead form ([validate], [submit]), the lead
  function ([onRequestPost], [escapeHtml]) and the amounts written with
  cents ([formatCurrency], [fmtCents]).  What these do to the page is not
  modelled, only the values they compute.

  Layout: the run-time, the two scripts, what the specification documents,
  the inputs the properties are tried on, the further scripts; then the
  facts about binary64 arithmetic and about each script; then the
  properties themselves. *)

From Stdlib Require Import ZArith Floats String Ascii List Bool Lia.
From stdpp Require Import gmap strings.

Set Warnings "-inexact-float".
Local Open Scope float_scope.

(* ===================================================================== *)
(** * The JavaScript run-time the scripts rely on *)
(* ===================================================================== *)

Module JS.

(** Primitive values.  The engine is fed from form fields and from numeric
    results, so objects, symbols and bigints are left out. *)
Inductive value :=
| Undefined
| Null
| Bool (b : bool)
| Num (x : float)
| Str (s : string).

(** Outcome of a call that may throw. *)
Inductive completion (A : Type) :=
| Normal (a : A)
| Throw_TypeError.
Arguments Normal {A} a.
Arguments Throw_TypeError {A}.

(** ** Strings as sequences of code units (U+0000 to U+00FF) *)

Definition code (c : ascii) : N := N_of_ascii c.

(** White space and line terminators of [StrWhiteSpaceChar] in that range:
    TAB, LF, VT, FF, CR, SP and NBSP. *)
Definition is_space (c : ascii) : bool :=
  let n := code c in
  ((9 <=? n) && (n <=? 13) || (n =? 32) || (n =? 160))%N.

Fixpoint drop_space (s : list ascii) : list ascii :=
  match s with
  | c :: t => if is_space c then drop_space t else s
  | [] => []
  end.

Definition trim (s : list ascii) : list ascii :=
  rev (drop_space (rev (drop_space s))).

(** Value of a digit in the given radix. *)
Definition digit (radix : Z) (c : ascii) : option Z :=
  let n := Z.of_N (code c) in
  let d := (if (48 <=? n) && (n <=? 57) then n - 48
            else if (97 <=? n) && (n <=? 122) then n - 87
            else if (65 <=? n) && (n <=? 90) then n - 55
            else radix)%Z in
  if (d <? radix)%Z then Some d else None.

(** Longest prefix of digits, accumulated on the left, and what follows. *)
Fixpoint digits (radix : Z) (acc : Z) (count : nat) (s : list ascii)
  : Z * nat * list ascii :=
  match s with
  | c :: t =>
      match digit radix c with
      | Some d => digits radix (acc * radix + d)%Z (S count) t
      | None => (acc, count, s)
      end
  | [] => (acc, count, [])
  end.

(** The binary64 value nearest to [m * 10^e] for [m > 0] (ties to even). *)
Definition decimal_to_SF (neg : bool) (m : Z) (e : Z) : spec_float :=
  if (0 <=? e)%Z then
    if (310 <? e)%Z then S754_infinity neg
    else binary_normalize prec emax (cond_Zopp neg (m * 10 ^ e)%Z) 0 neg
  else
    let k := (- e)%Z in
    if (Z.log2 m + 1 - 3 * k <? -1075)%Z then S754_zero neg
    else
      let '(q, eq, l) := SFdiv_core_binary prec emax m 0 (10 ^ k)%Z 0 in
      binary_round_aux prec emax neg q eq l.

(** [StrUnsignedDecimalLiteral] other than [Infinity]:
    digits, optional fraction, optional exponent, nothing after. *)
Definition unsigned_decimal (neg : bool) (s : list ascii) : spec_float :=
  let '(m1, n1, r1) := digits 10 0%Z 0%nat s in
  let '(m2, n2, r2) :=
    match r1 with
    | "."%char :: r => digits 10 m1 0%nat r
    | _ => (m1, 0%nat, r1)
    end in
  if (n1 + n2 =? 0)%nat then S754_nan
  else
    let exponent :=
      match r2 with
      | [] => Some 0%Z
      | c :: r =>
          if (code c =? 101)%N || (code c =? 69)%N then
            let '(sg, r') :=
              match r with
              | "-"%char :: r' => (true, r')
              | "+"%char :: r' => (false, r')
              | _ => (false, r)
              end in
            match digits 10 0%Z 0%nat r' with
            | (x, S _, []) => Some (cond_Zopp sg x)
            | _ => None
            end
          else None
      end in
    match exponent with
    | None => S754_nan
    | Some x =>
        if (m2 =? 0)%Z then S754_zero neg
        else decimal_to_SF neg m2 (x - Z.of_nat n2)%Z
    end.

(** [NonDecimalIntegerLiteral]: the digits after [0x], [0o] or [0b]. *)
Definition radix_literal (radix : Z) (s : list ascii) : spec_float :=
  match digits radix 0%Z 0%nat s with
  | (m, S _, []) => binary_normalize prec emax m 0 false
  | _ => S754_nan
  end.

(** [StringToNumber]: the empty or blank string is [+0], a string that is
    no [StringNumericLiteral] is [NaN]. *)
Definition StringToNumber (s : string) : float :=
  let body := trim (list_ascii_of_string s) in
  SF2Prim
    match body with
    | [] => S754_zero false
    | "0"%char :: c :: r =>
        let n := code c in
        if (n =? 120)%N || (n =? 88)%N then radix_literal 16 r
        else if (n =? 111)%N || (n =? 79)%N then radix_literal 8 r
        else if (n =? 98)%N || (n =? 66)%N then radix_literal 2 r
        else unsigned_decimal false body
    | c :: r =>
        let '(neg, u) :=
          match c with
          | "-"%char => (true, r)
          | "+"%char => (false, r)
          | _ => (false, body)
          end in
        if String.eqb (string_of_list_ascii u) "Infinity"
        then S754_infinity neg
        else unsigned_decimal neg u
    end.

(** [Number(v)], that is [ToNumber]. *)
Definition ToNumber (v : value) : float :=
  match v with
  | Undefined => nan
  | Null => 0
  | Bool b => if b then 1 else 0
  | Num x => x
  | Str s => StringToNumber s
  end.

(** A number is falsy when it is [+0], [-0] or [NaN]. *)
Definition falsy_number (x : float) : bool := is_zero x || is_nan x.

(** [Boolean(v)], that is [ToBoolean]. *)
Definition ToBoolean (v : value) : bool :=
  match v with
  | Undefined | Null => false
  | Bool b => b
  | Num x => negb (falsy_number x)
  | Str s => negb (String.eqb s "")
  end.

(** [a || b] on values and on numbers. *)
Definition or_else (a b : value) : value := if ToBoolean a then a else b.
Definition number_or (x d : float) : float := if falsy_number x then d else x.

(** [v !== undefined ? v : d]. *)
Definition defined_or (v d : value) : value :=
  match v with
  | Undefined => d
  | _ => v
  end.

(** [String.prototype.toLowerCase] on the code units above. *)
Definition lower (c : ascii) : ascii :=
  let n := code c in
  if ((65 <=? n) && (n <=? 90) || (192 <=? n) && (n <=? 222) && negb (n =? 215))%N
  then ascii_of_N (n + 32) else c.

Definition toLowerCase (s : string) : string :=
  string_of_list_ascii (map lower (list_ascii_of_string s)).

(** ** [Math] *)

(** [Math.max] and [Math.min] of two numbers: [NaN] if either is [NaN],
    and [+0] counts as larger than [-0]. *)
Definition Math_max (a b : float) : float :=
  if is_nan a || is_nan b then nan
  else if a <? b then b
  else if b <? a then a
  else if PrimFloat.Leibniz.eqb a (-0) then b else a.

Definition Math_min (a b : float) : float :=
  if is_nan a || is_nan b then nan
  else if a <? b then a
  else if b <? a then b
  else if PrimFloat.Leibniz.eqb a 0 then b else a.

(** The integer [n] as a number, for [|n| < 2^63] (exact below [2^53]). *)
Definition of_integer (s : bool) (n : Z) : float :=
  match n with
  | Z0 => if s then -0 else 0
  | Zpos _ => of_uint63 (Uint63.of_Z n)
  | Zneg p => - of_uint63 (Uint63.of_Z (Zpos p))
  end.

(** [Math.round]: the nearest integer, ties towards [+Infinity]; a result
    of zero keeps the sign of the argument. *)
Definition Math_round (x : float) : float :=
  match Prim2SF x with
  | S754_finite s m e =>
      if (0 <=? e)%Z then x
      else of_integer s ((cond_Zopp s (Zpos m) + 2 ^ (- e - 1)) / 2 ^ (- e))%Z
  | _ => x
  end.

(** [Math.ceil]. *)
Definition Math_ceil (x : float) : float :=
  match Prim2SF x with
  | S754_finite s m e =>
      if (0 <=? e)%Z then x
      else of_integer s (- ((- cond_Zopp s (Zpos m)) / 2 ^ (- e)))%Z
  | _ => x
  end.

(** [Math.pow] at a natural exponent.  ECMAScript leaves the precision of
    [Math.pow] to the implementation; the model takes the correctly rounded
    power.  Where the power is a binary64 value (the powers of ten used by
    [round], the powers of 1) the engines give that value too; elsewhere an
    engine may differ from it in the last place, as V8 does for
    [Math.pow(1.0619, 4)], whose correctly rounded value is
    1.2715530478711925.  What is proved of the projection's compounding
    multipliers is therefore stated over [AnyEngine], further down, where
    [Math.pow] is left open. *)
Definition Math_pow (b : float) (n : nat) : float :=
  match n with
  | O => 1
  | S _ =>
      match Prim2SF b with
      | S754_nan => nan
      | S754_infinity s => if s && Nat.odd n then neg_infinity else infinity
      | S754_zero s => if s && Nat.odd n then -0 else 0
      | S754_finite s m e =>
          SF2Prim (binary_normalize prec emax
                     (cond_Zopp s (Zpos m) ^ Z.of_nat n)%Z (e * Z.of_nat n)%Z false)
      end
  end.

End JS.
Import JS.


(* ===================================================================== *)
(** * [Calculator]: the ROI engine of [public/js/calculator.js] *)
(* ===================================================================== *)

Module Calculator.

(** ** Property-type defaults *)

Record PropertyDefaults := {
  pd_mowingTimePerAcre : float;
  pd_mowsPerWeek       : float;
  pd_fuelPerAcre       : float
}.

Definition commercial : PropertyDefaults :=
  {| pd_mowingTimePerAcre := 45; pd_mowsPerWeek := 1; pd_fuelPerAcre := 0.75 |}.
Definition golf : PropertyDefaults :=
  {| pd_mowingTimePerAcre := 60; pd_mowsPerWeek := 3; pd_fuelPerAcre := 1.0 |}.
Definition athletic : PropertyDefaults :=
  {| pd_mowingTimePerAcre := 50; pd_mowsPerWeek := 2; pd_fuelPerAcre := 0.85 |}.

(** [PROPERTY_DEFAULTS] is an object literal, so a lookup by name also finds
    what it inherits from [Object.prototype]: functions (and, for
    [__proto__], the prototype itself), all truthy and none with a
    [mowsPerWeek], [fuelPerAcre] or [mowingTimePerAcre] of its own. *)
Definition inherited_keys : list string :=
  ["constructor"; "hasOwnProperty"; "isPrototypeOf"; "propertyIsEnumerable";
   "toLocaleString"; "toString"; "valueOf"; "__proto__";
   "__defineGetter__"; "__defineSetter__"; "__lookupGetter__";
   "__lookupSetter__"]%string.

Inductive lookup_result :=
| Row (d : PropertyDefaults)
| Inherited
| Missing.

(** [PROPERTY_DEFAULTS[pt]].  A key that is not a string is first turned
    into one; the text of a number or of a boolean is neither a property
    type nor an inherited name, so only strings can hit. *)
Definition PROPERTY_DEFAULTS (pt : value) : lookup_result :=
  match pt with
  | Str s =>
      if String.eqb s "commercial" then Row commercial
      else if String.eqb s "golf" then Row golf
      else if String.eqb s "athletic" then Row athletic
      else if existsb (String.eqb s) inherited_keys then Inherited
      else Missing
  | _ => Missing
  end.

(** [PROPERTY_DEFAULTS[pt] || PROPERTY_DEFAULTS.commercial], with [None]
    for an inherited object, on which every field reads [undefined]. *)
Definition propDefaults_of (pt : value) : option PropertyDefaults :=
  match PROPERTY_DEFAULTS pt with
  | Row d => Some d
  | Inherited => None
  | Missing => Some commercial
  end.

Definition field (f : PropertyDefaults -> float) (d : option PropertyDefaults) : value :=
  match d with
  | Some r => Num (f r)
  | None => Undefined
  end.

(** ** Internal helpers *)

(** Round a number to the given decimal places (the script's default of 2
    is written out at each call). *)
Definition round (v : float) (decimals : nat) : float :=
  let factor := Math_pow 10 decimals in
  Math_round (v * factor) / factor.

(** Clamp a number between min and max (inclusive). *)
Definition clamp (v lo hi : float) : float :=
  Math_max lo (Math_min hi v).

Record ResolvedInputs := {
  propertyType        : value;
  acreage             : float;
  seasonWeeks         : float;
  mowsPerWeek         : value;
  maintenanceType     : string;
  employees           : float;
  hourlyRate          : float;
  mowingTimePercent   : float;
  isLeased            : bool;
  monthlyContract     : float;
  benefitsRate        : float;
  fuelCostPerGallon   : float;
  laborReduction      : float;
  bufferTime          : float;
  annualLaborIncrease : float;
  fuelPerAcre         : float;
  annualFuelIncrease  : float;
  baseEquipmentCost   : float;
  equipmentCostPerAcre: float;
  maintenanceRate     : float;
  insuranceRate       : float;
  leasingPremium      : float;
  roboticMaintenance  : float;
  electricityPerAcre  : float;
  co2PerGallon        : float;
  mowingTimePerAcre   : float;
  automationLevel     : float;
  desiredMowingTime   : float
}.

(** The raw input object: own properties by name; a name that is not there
    reads [undefined]. *)
Definition get (raw : gmap string value) (k : string) : value :=
  default Undefined (raw !! k).

(** Resolve all inputs, applying defaults where values are missing. *)
Definition resolveInputs (raw : gmap string value) : ResolvedInputs :=
  let pt := or_else (get raw "propertyType") (Str "commercial") in
  let propDefaults := propDefaults_of pt in
  {| propertyType        := pt;
     acreage             := Math_max (number_or (ToNumber (get raw "acreage")) 0) 0;
     seasonWeeks         := Math_max (number_or (ToNumber (get raw "seasonWeeks")) 30) 1;
     mowsPerWeek         := field pd_mowsPerWeek propDefaults;
     maintenanceType     :=
       match get raw "maintenanceType" with
       | Str s => if String.eqb s "outsourced" then "outsourced" else "inhouse"
       | _ => "inhouse"
       end;
     employees           := Math_max (number_or (ToNumber (get raw "employees")) 0) 0;
     hourlyRate          := Math_max (number_or (ToNumber (get raw "hourlyRate")) 0) 0;
     mowingTimePercent   := clamp (number_or (ToNumber (get raw "mowingTimePercent")) 0) 0 100;
     isLeased            := ToBoolean (get raw "isLeased");
     monthlyContract     := Math_max (number_or (ToNumber (get raw "monthlyContract")) 0) 0;
     benefitsRate        := clamp (ToNumber (defined_or (get raw "benefitsRate") (Num 12))) 0 100;
     fuelCostPerGallon   := Math_max (ToNumber (defined_or (get raw "fuelCostPerGallon") (Num 3.50))) 0;
     laborReduction      := clamp (ToNumber (defined_or (get raw "laborReduction") (Num 85))) 50 95;
     bufferTime          := clamp (ToNumber (defined_or (get raw "bufferTime") (Num 15))) 5 40;
     annualLaborIncrease := clamp (ToNumber (defined_or (get raw "annualLaborIncrease") (Num 2.5))) 0 10;
     fuelPerAcre         := Math_max (ToNumber (defined_or (get raw "fuelPerAcre") (field pd_fuelPerAcre propDefaults))) 0;
     annualFuelIncrease  := clamp (ToNumber (defined_or (get raw "annualFuelIncrease") (Num 3.5))) 0 15;
     baseEquipmentCost   := Math_max (ToNumber (defined_or (get raw "baseEquipmentCost") (Num 15000))) 0;
     equipmentCostPerAcre:= Math_max (ToNumber (defined_or (get raw "equipmentCostPerAcre") (Num 2000))) 0;
     maintenanceRate     := clamp (ToNumber (defined_or (get raw "maintenanceRate") (Num 10))) 5 25;
     insuranceRate       := clamp (ToNumber (defined_or (get raw "insuranceRate") (Num 5))) 1 15;
     leasingPremium      := clamp (ToNumber (defined_or (get raw "leasingPremium") (Num 7))) 0 20;
     roboticMaintenance  := Math_max (ToNumber (defined_or (get raw "roboticMaintenance") (Num 3))) 0;
     electricityPerAcre  := Math_max (ToNumber (defined_or (get raw "electricityPerAcre") (Num 1.5))) 0;
     co2PerGallon        := Math_max (ToNumber (defined_or (get raw "co2PerGallon") (Num 19.59))) 0;
     mowingTimePerAcre   := Math_max (ToNumber (defined_or (get raw "mowingTimePerAcre") (field pd_mowingTimePerAcre propDefaults))) 0;
     automationLevel     := clamp (ToNumber (defined_or (get raw "automationLevel") (Num 50))) 25 100;
     desiredMowingTime   := clamp (ToNumber (defined_or (get raw "desiredMowingTime") (Num 20))) 5 60
  |}.

(** ** Main calculation *)

Record CurrentCosts := { cc_labor : float; cc_fuel : float; cc_equipment : float; cc_total : float }.
Record Savings := { sv_labor : float; sv_fuel : float; sv_equipment : float; sv_gross : float }.
Record NewCosts := { nc_maintenance : float; nc_electricity : float; nc_total : float }.
Record LaborAnalysis := { currentHours : float; hoursSaved : float; currentFTE : float; reducedFTE : float }.
Record Environmental := { co2Reduced : float; fuelGallonsSaved : float; treeEquivalents : float; noiseReduction : float }.
Record Internal := {
  laborCost              : float;
  fuelCost               : float;
  equipmentAnnualCost    : float;
  roboticMaintenanceCost : float;
  electricityCost        : float;
  totalNewCosts          : float
}.

(** The result object; its [withInvestment] method closes over
    [netAnnualSavings] and is the function [withInvestment] below. *)
Record ROIResult := {
  currentCosts     : CurrentCosts;
  savings          : Savings;
  newCosts         : NewCosts;
  netAnnualSavings : float;
  labor            : LaborAnalysis;
  environmental    : Environmental;
  inputs           : ResolvedInputs;
  _internal        : Internal
}.

Definition outsourced (i : ResolvedInputs) : bool :=
  String.eqb (maintenanceType i) "outsourced".

(** Calculate the full ROI analysis; [None] stands for a missing argument
    ([rawInputs || {}]). *)
Definition calculateROI (rawInputs : option (gmap string value)) : ROIResult :=
  let i := resolveInputs (default ∅ rawInputs) in
  let mows := ToNumber (mowsPerWeek i) in
  (* Current annual costs: labor, fuel, equipment *)
  let current :=
    if outsourced i then
      (monthlyContract i * 12, 0, 0)
    else
      let laborCost :=
        employees i * hourlyRate i * (1 + benefitsRate i / 100) * 40
        * seasonWeeks i * (mowingTimePercent i / 100) * (1 + bufferTime i / 100) in
      let fuelCost :=
        acreage i * fuelPerAcre i * mows * seasonWeeks i * fuelCostPerGallon i in
      let equipmentBaseCost := baseEquipmentCost i + (equipmentCostPerAcre i * acreage i) in
      let equipmentAnnualCost :=
        equipmentBaseCost * (maintenanceRate i / 100 + insuranceRate i / 100) in
      (laborCost, fuelCost,
       if isLeased i then equipmentAnnualCost * (1 + leasingPremium i / 100)
       else equipmentAnnualCost) in
  let laborCost := round current.1.1 2 in
  let fuelCost := round current.1.2 2 in
  let equipmentAnnualCost := round current.2 2 in
  let totalCurrentCost := round (laborCost + fuelCost + equipmentAnnualCost) 2 in
  (* Savings from automation: labor, fuel, equipment *)
  let saved :=
    if outsourced i then
      (round (laborCost * (automationLevel i / 100) * 0.85) 2, 0, 0)
    else
      (round (laborCost * (automationLevel i / 100) * (laborReduction i / 100)) 2,
       round (fuelCost * (automationLevel i / 100)) 2,
       round (equipmentAnnualCost * (automationLevel i / 100) * 0.5) 2) in
  let laborSavings := saved.1.1 in
  let fuelSavings := saved.1.2 in
  let equipmentSavings := saved.2 in
  let grossSavings := round (laborSavings + fuelSavings + equipmentSavings) 2 in
  (* New robotic costs *)
  let roboticMaintenanceCost :=
    round (acreage i * (automationLevel i / 100) * roboticMaintenance i * 12) 2 in
  let electricityCost :=
    round (acreage i * (automationLevel i / 100) * electricityPerAcre i * 0.12
           * mows * seasonWeeks i) 2 in
  let totalNewCosts := round (roboticMaintenanceCost + electricityCost) 2 in
  (* Key results *)
  let netAnnualSavings := round (grossSavings - totalNewCosts) 2 in
  (* Labor analysis *)
  let currentMowingHours :=
    Math_round (acreage i * (mowingTimePerAcre i / 60) * mows * seasonWeeks i) in
  let laborHoursSaved :=
    Math_round (currentMowingHours * (automationLevel i / 100) * (laborReduction i / 100)) in
  let currentFTE := if outsourced i then 0 else employees i in
  let reducedFTE :=
    if outsourced i then 0
    else Math_max 0 (round (currentFTE * (1 - (automationLevel i / 100) * (laborReduction i / 100))) 1) in
  (* Environmental impact *)
  let co2Reduced :=
    round (acreage i * (automationLevel i / 100) * fuelPerAcre i * co2PerGallon i
           * mows * seasonWeeks i) 2 in
  let fuelGallonsSaved :=
    round (acreage i * (automationLevel i / 100) * fuelPerAcre i * mows * seasonWeeks i) 2 in
  let treeEquivalents := round (co2Reduced / 48) 2 in
  {| currentCosts :=
       {| cc_labor := laborCost; cc_fuel := fuelCost;
          cc_equipment := equipmentAnnualCost; cc_total := totalCurrentCost |};
     savings :=
       {| sv_labor := laborSavings; sv_fuel := fuelSavings;
          sv_equipment := equipmentSavings; sv_gross := grossSavings |};
     newCosts :=
       {| nc_maintenance := roboticMaintenanceCost; nc_electricity := electricityCost;
          nc_total := totalNewCosts |};
     netAnnualSavings := netAnnualSavings;
     labor :=
       {| currentHours := currentMowingHours; hoursSaved := laborHoursSaved;
          currentFTE := currentFTE; reducedFTE := reducedFTE |};
     environmental :=
       {| co2Reduced := co2Reduced; fuelGallonsSaved := fuelGallonsSaved;
          treeEquivalents := treeEquivalents; noiseReduction := 30 |};
     inputs := i;
     _internal :=
       {| laborCost := laborCost; fuelCost := fuelCost;
          equipmentAnnualCost := equipmentAnnualCost;
          roboticMaintenanceCost := roboticMaintenanceCost;
          electricityCost := electricityCost;
          totalNewCosts := totalNewCosts |}
  |}.

(** ** Completing the metrics once the investment is known *)

Record InvestmentMetrics := {
  roi               : float;
  paybackYears      : float;
  paybackMonths     : float;
  totalInvestment   : float;
  annualServiceCost : float
}.

(** [result.withInvestment(totalInvestment, annualServiceCost)], with the
    [netAnnualSavings] the closure captured made an argument. *)
Definition withInvestment (netAnnualSavings : float)
    (totalInvestment annualServiceCost : value) : InvestmentMetrics :=
  let totalInvestment := Math_max (number_or (ToNumber totalInvestment) 0) 0 in
  let annualServiceCost := Math_max (number_or (ToNumber annualServiceCost) 0) 0 in
  let effectiveSavings := netAnnualSavings - annualServiceCost in
  let metrics :=
    if totalInvestment =? 0 then
      (if 0 <? effectiveSavings then infinity else 0, 0, 0)
    else if effectiveSavings <=? 0 then
      (round ((effectiveSavings / totalInvestment) * 100) 2, infinity, infinity)
    else
      let paybackYears := round (totalInvestment / effectiveSavings) 2 in
      (round ((effectiveSavings / totalInvestment) * 100) 2,
       paybackYears,
       round (paybackYears * 12) 1) in
  {| roi := metrics.1.1; paybackYears := metrics.1.2; paybackMonths := metrics.2;
     totalInvestment := totalInvestment; annualServiceCost := annualServiceCost |}.

(** ** 5-year projection *)

Record ProjectionYear := {
  year                  : nat;
  laborMultiplier       : float;
  fuelMultiplier        : float;
  traditionalCost       : float;
  automatedCost         : float;
  annualSavings         : float;
  cumulativeTraditional : float;
  cumulativeAutomated   : float;
  cumulativeSavings     : float
}.

(** What the loop carries from one year to the next. *)
Record LoopState := {
  projection     : list ProjectionYear;
  cumTraditional : float;
  cumAutomated   : float
}.

(** The unrounded multipliers and the two yearly costs of [year]. *)
Definition laborMultiplier_of (i : ResolvedInputs) (year : nat) : float :=
  Math_pow (1 + annualLaborIncrease i / 100) year.
Definition fuelMultiplier_of (i : ResolvedInputs) (year : nat) : float :=
  Math_pow (1 + annualFuelIncrease i / 100) year.

Definition traditionalCost_of (baseResults : ROIResult) (year : nat) : float :=
  let i := inputs baseResults in
  let raw := _internal baseResults in
  round ((laborCost raw * laborMultiplier_of i year)
         + (fuelCost raw * fuelMultiplier_of i year)
         + equipmentAnnualCost raw) 2.

Definition automatedCost_of (baseResults : ROIResult) (annualServiceCost : float)
    (year : nat) : float :=
  let i := inputs baseResults in
  let raw := _internal baseResults in
  round ((laborCost raw * (1 - (automationLevel i / 100) * (laborReduction i / 100))
            * laborMultiplier_of i year)
         + (fuelCost raw * (1 - automationLevel i / 100) * fuelMultiplier_of i year)
         + (equipmentAnnualCost raw * (1 - (automationLevel i / 100) * 0.5))
         + totalNewCosts raw
         + annualServiceCost) 2.

(** One turn of the loop body.  (The script also computes a local
    [cumAutomatedWithInvestment] here that it never reads.) *)
Definition projection_step (baseResults : ROIResult)
    (totalInvestment annualServiceCost : float)
    (st : LoopState) (year : nat) : LoopState :=
  let i := inputs baseResults in
  let traditionalCost := traditionalCost_of baseResults year in
  let automatedCost := automatedCost_of baseResults annualServiceCost year in
  let annualSavings := round (traditionalCost - automatedCost) 2 in
  let cumTraditional := cumTraditional st + traditionalCost in
  let cumAutomated := cumAutomated st + automatedCost in
  {| projection :=
       projection st ++
       [ {| year := year;
            laborMultiplier := round (laborMultiplier_of i year) 4;
            fuelMultiplier := round (fuelMultiplier_of i year) 4;
            traditionalCost := traditionalCost;
            automatedCost := automatedCost;
            annualSavings := annualSavings;
            cumulativeTraditional := round cumTraditional 2;
            cumulativeAutomated := round (cumAutomated + totalInvestment) 2;
            cumulativeSavings := round (cumTraditional - (cumAutomated + totalInvestment)) 2 |} ];
     cumTraditional := cumTraditional;
     cumAutomated := cumAutomated |}.

(** [for (var year = 1; year <= 5; year++)]. *)
Definition years : list nat := seq 1 5.

Definition projection_loop (baseResults : ROIResult)
    (totalInvestment annualServiceCost : float) (ys : list nat) : LoopState :=
  fold_left (projection_step baseResults totalInvestment annualServiceCost) ys
    {| projection := []; cumTraditional := 0; cumAutomated := 0 |}.

(** Build a 5-year cost and savings projection. *)
Definition calculateProjection (baseResults : ROIResult)
    (totalInvestment annualServiceCost : value) : list ProjectionYear :=
  let totalInvestment := Math_max (number_or (ToNumber totalInvestment) 0) 0 in
  let annualServiceCost := Math_max (number_or (ToNumber annualServiceCost) 0) 0 in
  projection (projection_loop baseResults totalInvestment annualServiceCost years).

End Calculator.

(* ===================================================================== *)
(** * [Equipment]: the equipment recommendation engine *)
(* ===================================================================== *)

Module Equipment.

Record Model := {
  id          : string;
  name        : string;
  shortName   : string;
  price       : float;
  coverage    : float;
  description : string;
  terrain     : string;
  categories  : list string
}.

Record Item := { item_name : string; item_price : float }.

(** The product data: [models], [accessories], [services], [installation]. *)
Record Catalog := {
  models            : list Model;
  referenceStation  : Item;
  housing           : Item;
  annualMaintenance : Item;
  remoteSupport     : Item;
  winterStorage     : Item;
  perUnit           : Item;
  flat              : Item
}.

(** Fallback data, used when [equipment.json] cannot be fetched. *)
Definition FALLBACK_DATA : Catalog := {|
  models := [
    {| id := "520-epos"; name := "Husqvarna Automower 520 EPOS";
       shortName := "520 EPOS"; price := 3299.99; coverage := 1.25;
       description := "Best for small commercial properties";
       terrain := "flat"; categories := ["commercial"] |};
    {| id := "520h-epos"; name := "Husqvarna Automower 520H EPOS";
       shortName := "520H EPOS"; price := 3299.99; coverage := 1.25;
       description := "Best for hilly commercial properties and golf courses";
       terrain := "hilly"; categories := ["commercial"; "golf"] |};
    {| id := "535-awd-epos"; name := "Husqvarna Automower 535 AWD EPOS";
       shortName := "535 AWD EPOS"; price := 4999.99; coverage := 1.25;
       description := "Best for rough terrain and challenging landscapes";
       terrain := "rough"; categories := ["commercial"] |};
    {| id := "550-epos"; name := "Husqvarna Automower 550 EPOS";
       shortName := "550 EPOS"; price := 5829.99; coverage := 2.5;
       description := "Best for large commercial properties and athletic fields";
       terrain := "flat"; categories := ["commercial"; "athletic"] |};
    {| id := "550h-epos"; name := "Husqvarna Automower 550H EPOS";
       shortName := "550H EPOS"; price := 5299.99; coverage := 2.5;
       description := "Best for large hilly properties and golf courses";
       terrain := "hilly"; categories := ["commercial"; "golf"] |} ];
  referenceStation  := {| item_name := "EPOS RS5 Reference Station"; item_price := 899.99 |};
  housing           := {| item_name := "Automower House (400/500 series)"; item_price := 171.99 |};
  annualMaintenance := {| item_name := "Annual Onsite Maintenance"; item_price := 249.00 |};
  remoteSupport     := {| item_name := "Remote Support"; item_price := 94.99 |};
  winterStorage     := {| item_name := "Winter Storage & Service"; item_price := 149.99 |};
  perUnit           := {| item_name := "Site Installation & Mapping"; item_price := 1500 |};
  flat              := {| item_name := "Training & App Configuration"; item_price := 500 |}
|}.

(** Look up a model object by its shortName: the first that matches. *)
Definition getModelByShortName (_data : Catalog) (short : string) : option Model :=
  find (fun m => String.eqb (shortName m) short) (models _data).

Record ModelInfo := {
  mi_name        : string;
  mi_shortName   : string;
  mi_price       : float;
  mi_coverage    : float;
  mi_description : string
}.

Record Costs := {
  mowers              : float;
  c_referenceStation  : float;
  c_housing           : float;
  installation        : float;
  setup               : float;
  totalEquipment      : float;
  totalInvestment     : float;
  annualService       : float
}.

(** A line of a breakdown.  Its label is a name followed, when more than
    one unit is needed, by the multiplication sign and the unit count; the
    count is kept as a number here. *)
Record Line := {
  label_name  : string;
  label_times : option float;
  amount      : float
}.

Record Recommendation := {
  model           : ModelInfo;
  unitsNeeded     : float;
  targetAcreage   : float;
  costs           : Costs;
  breakdown       : list Line;
  annualBreakdown : list Line
}.

(** [(propertyType || 'commercial').toLowerCase()]: a truthy value that is
    not a string has no [toLowerCase] method. *)
Definition lowered_type (propertyType : value) : completion string :=
  match or_else propertyType (Str "commercial") with
  | Str s => Normal (toLowerCase s)
  | _ => Throw_TypeError
  end.

(** Recommend equipment based on property parameters.  The module variable
    [_data] ([None] while nothing is loaded) comes in as the first argument
    and goes out as the first component. *)
Definition recommendEquipment (_data : option Catalog)
    (propertyType acreage automationLevel isHilly : value)
  : option Catalog * completion Recommendation :=
  let data := default FALLBACK_DATA _data in
  (Some data,
   (* Sanitize inputs *)
   let acreage := Math_max 0 (number_or (ToNumber acreage) 0) in
   let automationLevel := Math_min 100 (Math_max 0 (number_or (ToNumber automationLevel) 0)) in
   let isHilly := ToBoolean isHilly in
   match lowered_type propertyType with
   | Throw_TypeError => Throw_TypeError
   | Normal propertyType =>
       (* Target acreage to be mowed autonomously *)
       let targetAcreage := acreage * (automationLevel / 100) in
       (* Model selection *)
       let modelShortName :=
         if String.eqb propertyType "golf" || isHilly then
           if targetAcreage <=? 2 then "520H EPOS" else "550H EPOS"
         else
           if targetAcreage <=? 2 then "520 EPOS" else "550 EPOS" in
       (* Safety: fall back to first model if lookup somehow fails *)
       let found :=
         match getModelByShortName data modelShortName with
         | Some m => Some m
         | None => head (models data)
         end in
       match found with
       | None => Throw_TypeError
       | Some model =>
           (* Units needed *)
           let unitsNeeded := Math_ceil (targetAcreage / coverage model) in
           let unitsNeeded := Math_max 1 unitsNeeded in
           (* Cost calculations *)
           let equipmentCost := unitsNeeded * price model in
           let referenceStationCost := item_price (referenceStation data) in
           let housingCost := unitsNeeded * item_price (housing data) in
           let totalEquipmentCost := equipmentCost + referenceStationCost + housingCost in
           let installationCost := unitsNeeded * item_price (perUnit data) in
           let setupCost := item_price (flat data) in
           let annualMaintenanceCost := unitsNeeded * item_price (annualMaintenance data) in
           let remoteSupportCost := item_price (remoteSupport data) in
           let winterStorageCost := unitsNeeded * item_price (winterStorage data) in
           let annualServiceCost := annualMaintenanceCost + remoteSupportCost + winterStorageCost in
           let totalInvestment := totalEquipmentCost + installationCost + setupCost in
           (* Label suffix for quantities > 1 *)
           let unitSuffix := if 1 <? unitsNeeded then Some unitsNeeded else None in
           Normal
             {| model :=
                  {| mi_name := name model; mi_shortName := shortName model;
                     mi_price := price model; mi_coverage := coverage model;
                     mi_description := description model |};
                unitsNeeded := unitsNeeded;
                targetAcreage := targetAcreage;
                costs :=
                  {| mowers := equipmentCost;
                     c_referenceStation := referenceStationCost;
                     c_housing := housingCost;
                     installation := installationCost;
                     setup := setupCost;
                     totalEquipment := totalEquipmentCost;
                     totalInvestment := totalInvestment;
                     annualService := annualServiceCost |};
                breakdown :=
                  [ {| label_name := name model; label_times := unitSuffix;
                       amount := equipmentCost |};
                    {| label_name := item_name (referenceStation data); label_times := None;
                       amount := referenceStationCost |};
                    {| label_name := item_name (housing data); label_times := unitSuffix;
                       amount := housingCost |};
                    {| label_name := item_name (perUnit data); label_times := unitSuffix;
                       amount := installationCost |};
                    {| label_name := item_name (flat data); label_times := None;
                       amount := setupCost |} ];
                annualBreakdown :=
                  [ {| label_name := item_name (annualMaintenance data); label_times := unitSuffix;
                       amount := annualMaintenanceCost |};
                    {| label_name := item_name (remoteSupport data); label_times := None;
                       amount := remoteSupportCost |};
                    {| label_name := item_name (winterStorage data); label_times := unitSuffix;
                       amount := winterStorageCost |} ]
             |}
       end
   end).

End Equipment.
(* ===================================================================== *)
(** * What the specification documents about resolved inputs *)
(* ===================================================================== *)

Module Documented.
Import Calculator.

(** The numeric fields of a resolved-input record. *)
Inductive numeric_field :=
| f_acreage | f_seasonWeeks | f_employees | f_hourlyRate
| f_mowingTimePercent | f_monthlyContract
| f_benefitsRate | f_fuelCostPerGallon | f_laborReduction | f_bufferTime
| f_annualLaborIncrease | f_fuelPerAcre | f_annualFuelIncrease
| f_baseEquipmentCost | f_equipmentCostPerAcre | f_maintenanceRate
| f_insuranceRate | f_leasingPremium | f_roboticMaintenance
| f_electricityPerAcre | f_co2PerGallon | f_mowingTimePerAcre
| f_automationLevel | f_desiredMowingTime.

Definition all_fields : list numeric_field :=
  [f_acreage; f_seasonWeeks; f_employees; f_hourlyRate;
   f_mowingTimePercent; f_monthlyContract;
   f_benefitsRate; f_fuelCostPerGallon; f_laborReduction; f_bufferTime;
   f_annualLaborIncrease; f_fuelPerAcre; f_annualFuelIncrease;
   f_baseEquipmentCost; f_equipmentCostPerAcre; f_maintenanceRate;
   f_insuranceRate; f_leasingPremium; f_roboticMaintenance;
   f_electricityPerAcre; f_co2PerGallon; f_mowingTimePerAcre;
   f_automationLevel; f_desiredMowingTime].

(** The name under which the raw input carries the field. *)
Definition key (f : numeric_field) : string :=
  match f with
  | f_acreage => "acreage" | f_seasonWeeks => "seasonWeeks"
  | f_employees => "employees" | f_hourlyRate => "hourlyRate"
  | f_mowingTimePercent => "mowingTimePercent"
  | f_monthlyContract => "monthlyContract"
  | f_benefitsRate => "benefitsRate"
  | f_fuelCostPerGallon => "fuelCostPerGallon"
  | f_laborReduction => "laborReduction" | f_bufferTime => "bufferTime"
  | f_annualLaborIncrease => "annualLaborIncrease"
  | f_fuelPerAcre => "fuelPerAcre"
  | f_annualFuelIncrease => "annualFuelIncrease"
  | f_baseEquipmentCost => "baseEquipmentCost"
  | f_equipmentCostPerAcre => "equipmentCostPerAcre"
  | f_maintenanceRate => "maintenanceRate"
  | f_insuranceRate => "insuranceRate"
  | f_leasingPremium => "leasingPremium"
  | f_roboticMaintenance => "roboticMaintenance"
  | f_electricityPerAcre => "electricityPerAcre"
  | f_co2PerGallon => "co2PerGallon"
  | f_mowingTimePerAcre => "mowingTimePerAcre"
  | f_automationLevel => "automationLevel"
  | f_desiredMowingTime => "desiredMowingTime"
  end.

(** The field of a resolved record. *)
Definition value_of (i : ResolvedInputs) (f : numeric_field) : float :=
  match f with
  | f_acreage => acreage i | f_seasonWeeks => seasonWeeks i
  | f_employees => employees i | f_hourlyRate => hourlyRate i
  | f_mowingTimePercent => mowingTimePercent i
  | f_monthlyContract => monthlyContract i
  | f_benefitsRate => benefitsRate i
  | f_fuelCostPerGallon => fuelCostPerGallon i
  | f_laborReduction => laborReduction i | f_bufferTime => bufferTime i
  | f_annualLaborIncrease => annualLaborIncrease i
  | f_fuelPerAcre => fuelPerAcre i
  | f_annualFuelIncrease => annualFuelIncrease i
  | f_baseEquipmentCost => baseEquipmentCost i
  | f_equipmentCostPerAcre => equipmentCostPerAcre i
  | f_maintenanceRate => maintenanceRate i
  | f_insuranceRate => insuranceRate i
  | f_leasingPremium => leasingPremium i
  | f_roboticMaintenance => roboticMaintenance i
  | f_electricityPerAcre => electricityPerAcre i
  | f_co2PerGallon => co2PerGallon i
  | f_mowingTimePerAcre => mowingTimePerAcre i
  | f_automationLevel => automationLevel i
  | f_desiredMowingTime => desiredMowingTime i
  end.

(** The clamp ranges of the data model: a minimum, and a maximum where the
    range has one. *)
Definition range_min (f : numeric_field) : float :=
  match f with
  | f_seasonWeeks => 1
  | f_laborReduction => 50
  | f_bufferTime | f_maintenanceRate | f_desiredMowingTime => 5
  | f_insuranceRate => 1
  | f_automationLevel => 25
  | _ => 0
  end.

Definition range_max (f : numeric_field) : option float :=
  match f with
  | f_mowingTimePercent | f_benefitsRate | f_automationLevel => Some 100
  | f_laborReduction => Some 95
  | f_bufferTime => Some 40
  | f_annualLaborIncrease => Some 10
  | f_annualFuelIncrease | f_insuranceRate => Some 15
  | f_maintenanceRate => Some 25
  | f_leasingPremium => Some 20
  | f_desiredMowingTime => Some 60
  | _ => None
  end.

(** The default of each field; two of them come from the row of the
    property type, and are missing when that row is an inherited object. *)
Definition default_of (row : option PropertyDefaults) (f : numeric_field)
  : option float :=
  match f with
  | f_acreage | f_employees | f_hourlyRate | f_mowingTimePercent
  | f_monthlyContract => Some 0
  | f_seasonWeeks => Some 30
  | f_benefitsRate => Some 12
  | f_fuelCostPerGallon => Some 3.50
  | f_laborReduction => Some 85
  | f_bufferTime => Some 15
  | f_annualLaborIncrease => Some 2.5
  | f_fuelPerAcre => option_map pd_fuelPerAcre row
  | f_annualFuelIncrease => Some 3.5
  | f_baseEquipmentCost => Some 15000
  | f_equipmentCostPerAcre => Some 2000
  | f_maintenanceRate => Some 10
  | f_insuranceRate => Some 5
  | f_leasingPremium => Some 7
  | f_roboticMaintenance => Some 3
  | f_electricityPerAcre => Some 1.5
  | f_co2PerGallon => Some 19.59
  | f_mowingTimePerAcre => option_map pd_mowingTimePerAcre row
  | f_automationLevel => Some 50
  | f_desiredMowingTime => Some 20
  end.

(** The fields whose default replaces every falsy number ([x || d]); the
    others take their default only when the raw value is [undefined]. *)
Definition falls_back_on_falsy (f : numeric_field) : bool :=
  match f with
  | f_acreage | f_seasonWeeks | f_employees | f_hourlyRate
  | f_mowingTimePercent | f_monthlyContract => true
  | _ => false
  end.




End Documented.

(* ===================================================================== *)
(** * What the specification asks of a recommendation *)
(* ===================================================================== *)

Module Sizing.
Import Equipment.

(** A catalog the recommender can size from: it lists a model, and every
    model covers a positive, finite acreage. *)
Definition catalog_ok (c : Catalog) : Prop :=
  models c <> [] /\
  Forall (fun m => (0 <? coverage m) = true /\ is_finite (coverage m) = true)
         (models c).

(** A property type of the documented kind: a string, or nothing. *)
Definition type_ok (pt : value) : Prop :=
  ToBoolean pt = false \/ exists s, pt = Str s.

(** The sum of the amounts of a breakdown, in the order of its lines. *)
Definition sum_amounts (l : list Line) : float :=
  match l with
  | [] => 0
  | x :: t => fold_left (fun acc y => acc + amount y) t (amount x)
  end.

(** The totals of a recommendation agree with its two breakdowns. *)
Definition consistent (r : Recommendation) : Prop :=
  let c := costs r in
  map amount (breakdown r) =
    [mowers c; c_referenceStation c; c_housing c; installation c; setup c] /\
  totalInvestment c = sum_amounts (breakdown r) /\
  length (annualBreakdown r) = 3%nat /\
  annualService c = sum_amounts (annualBreakdown r) /\
  totalEquipment c = mowers c + c_referenceStation c + c_housing c.

End Sizing.

(* ===================================================================== *)
(** * Inputs the properties are tried on *)
(* ===================================================================== *)

Module Scenarios.
Import Calculator Equipment.

(** The worked example of the specification. *)
Definition example_inputs : gmap string value :=
  list_to_map
    [("propertyType", Str "commercial"); ("acreage", Num 10);
     ("seasonWeeks", Num 30); ("maintenanceType", Str "inhouse");
     ("employees", Num 2); ("hourlyRate", Num 20);
     ("mowingTimePercent", Num 60); ("benefitsRate", Num 12);
     ("fuelCostPerGallon", Num 3.5); ("laborReduction", Num 85);
     ("bufferTime", Num 15); ("automationLevel", Num 50)]%string.

(** A form whose benefits field was left blank: the page reads it with
    [parseInt], which yields [NaN]. *)
Definition blank_benefits : gmap string value := {[ "benefitsRate"%string := Num nan ]}.




Definition residential : gmap string value := {[ "propertyType"%string := Str "residential" ]}.

Definition negative_season : gmap string value := {[ "seasonWeeks"%string := Num (-5) ]}.

Definition unnamed_season : gmap string value := {[ "seasonWeeks"%string := Str "abc" ]}.

(** An outsourced property with the given monthly contract. *)
Definition contract (monthly : float) : gmap string value :=
  list_to_map
    [("maintenanceType", Str "outsourced"); ("monthlyContract", Num monthly)]%string.

(** A loaded catalog whose only model covers no acreage. *)
Definition uncovered_catalog : Catalog := {|
  models := [
    {| id := "520-epos"; name := "Husqvarna Automower 520 EPOS";
       shortName := "520 EPOS"; price := 3299.99; coverage := 0;
       description := ""; terrain := "flat"; categories := ["commercial"] |} ];
  referenceStation  := referenceStation FALLBACK_DATA;
  housing           := housing FALLBACK_DATA;
  annualMaintenance := annualMaintenance FALLBACK_DATA;
  remoteSupport     := remoteSupport FALLBACK_DATA;
  winterStorage     := winterStorage FALLBACK_DATA;
  perUnit           := perUnit FALLBACK_DATA;
  flat              := flat FALLBACK_DATA
|}.

(** The two investment figures of a recommendation, as the page passes them
    on to the engine. *)
Definition investment_of (c : completion Recommendation) : value * value :=
  match c with
  | Normal r => (Num (totalInvestment (costs r)), Num (annualService (costs r)))
  | Throw_TypeError => (Undefined, Undefined)
  end.

(** The projection of the worked example with the equipment recommended
    for it. *)
Definition example_projection : list ProjectionYear :=
  let figures :=
    investment_of
      (snd (recommendEquipment None (Str "commercial") (Num 10) (Num 50) (Bool false))) in
  calculateProjection (calculateROI (Some example_inputs)) figures.1 figures.2.

(** Projections of a property that costs nothing to run, for a given
    investment. *)
Definition idle_projection (investment : float) : list ProjectionYear :=
  calculateProjection (calculateROI (Some (contract 0))) (Num investment) (Num 0).

(** The projection of the worked example for an investment of 16403.95 and
    a yearly service cost of 892.97. *)
Definition equipped_projection : list ProjectionYear :=
  calculateProjection (calculateROI (Some example_inputs)) (Num 16403.95) (Num 892.97).

(** The projection of the defaults alone. *)
Definition default_projection : list ProjectionYear :=
  calculateProjection (calculateROI None) (Num 0) (Num 0).

(** The projection of the blank form above, for the equipment of the
    worked example. *)
Definition blank_projection : list ProjectionYear :=
  calculateProjection (calculateROI (Some blank_benefits)) (Num 16403.95) (Num 892.97).

(** The metrics of the blank form above, for the equipment of the worked
    example. *)
Definition blank_metrics : InvestmentMetrics :=
  withInvestment (netAnnualSavings (calculateROI (Some blank_benefits)))
    (Num 16403.95) (Num 892.97).

End Scenarios.

(* ===================================================================== *)
(** * Views of a binary64 value *)
(* ===================================================================== *)

Module View.

(** What a number is, read off its sign, mantissa and exponent. *)
Definition sf_nan (x : spec_float) : bool :=
  match x with S754_nan => true | _ => false end.

Definition sf_finite (x : spec_float) : bool :=
  match x with S754_zero _ | S754_finite _ _ _ => true | _ => false end.

Definition sf_nonneg (x : spec_float) : bool :=
  match x with
  | S754_zero _ | S754_infinity false | S754_finite false _ _ => true
  | _ => false
  end.

Definition sf_nonpos (x : spec_float) : bool :=
  match x with
  | S754_zero _ | S754_infinity true | S754_finite true _ _ => true
  | _ => false
  end.

Definition sf_pos (x : spec_float) : bool :=
  match x with
  | S754_infinity false | S754_finite false _ _ => true
  | _ => false
  end.

Definition sf_zero (x : spec_float) : bool :=
  match x with S754_zero _ => true | _ => false end.

Definition sf_sign (x : spec_float) : option bool :=
  match x with
  | S754_zero s | S754_infinity s | S754_finite s _ _ => Some s
  | S754_nan => None
  end.

Definition sf_inf (x : spec_float) : bool :=
  match x with S754_infinity _ => true | _ => false end.

(** The value of a mantissa at an exponent, scaled by [2^1074] so that it is
    an integer for every exponent a binary64 number can have. *)
Definition scaled (m e : Z) : Z := (m * 2 ^ (e + 1074))%Z.

End View.

(* ===================================================================== *)
(** * Numbers by sign and by order *)
(* ===================================================================== *)

Module Order.

(** Not below zero: [NaN], a zero of either sign, or a number with a clear
    sign bit. *)
Definition sf_not_negative (x : spec_float) : bool :=
  match x with
  | S754_infinity true | S754_finite true _ _ => false
  | _ => true
  end.

(** A rank that orders the numbers as the comparisons do: zero for both
    zeros, exponent then mantissa for the finite ones, beyond all of them for
    the infinities. *)
Definition rank_SF (x : spec_float) : Z :=
  match x with
  | S754_zero _ | S754_nan => 0
  | S754_infinity s => cond_Zopp s (2 ^ 65)
  | S754_finite s m e => cond_Zopp s (Zpos m + (e + 1075) * 2 ^ 53)
  end%Z.

Definition rank (x : float) : Z := rank_SF (Prim2SF x).

End Order.

(* ===================================================================== *)
(** * Results and raw inputs side by side *)
(* ===================================================================== *)

Module Figures.
Import Calculator.

(** The amounts of a result that stand for costs, savings, hours, staff and
    emissions (all but the net annual savings). *)
Definition amounts (r : ROIResult) : list float :=
  [ cc_labor (currentCosts r); cc_fuel (currentCosts r);
    cc_equipment (currentCosts r); cc_total (currentCosts r);
    sv_labor (savings r); sv_fuel (savings r);
    sv_equipment (savings r); sv_gross (savings r);
    nc_maintenance (newCosts r); nc_electricity (newCosts r); nc_total (newCosts r);
    currentHours (labor r); hoursSaved (labor r);
    currentFTE (labor r); reducedFTE (labor r);
    co2Reduced (environmental r); fuelGallonsSaved (environmental r);
    treeEquivalents (environmental r); noiseReduction (environmental r) ].

(** The raw entries that describe an in-house crew and its equipment. *)
Definition inhouse_keys : list string :=
  ["employees"; "hourlyRate"; "mowingTimePercent"; "isLeased"; "benefitsRate";
   "bufferTime"; "fuelCostPerGallon"; "baseEquipmentCost"; "equipmentCostPerAcre";
   "maintenanceRate"; "insuranceRate"; "leasingPremium"]%string.

(** The raw entries that belong to the other maintenance mode. *)
Definition other_mode_keys (i : ResolvedInputs) : list string :=
  if outsourced i then inhouse_keys else ["monthlyContract"]%string.

(** Two raw inputs with the same entries, but for the given names. *)
Definition agree_outside (keys : list string) (raw raw' : gmap string value) : Prop :=
  forall k, existsb (String.eqb k) keys = false -> raw !! k = raw' !! k.

(** Two results that differ at most in the record of resolved inputs. *)
Definition same_figures (r r' : ROIResult) : Prop :=
  currentCosts r = currentCosts r' /\ savings r = savings r' /\
  newCosts r = newCosts r' /\ netAnnualSavings r = netAnnualSavings r' /\
  labor r = labor r' /\ environmental r = environmental r' /\
  _internal r = _internal r'.

(** The resolved-input object read as a raw input: its own properties by
    name. *)
Definition as_raw (i : ResolvedInputs) : gmap string value :=
  list_to_map
    [ ("propertyType", propertyType i);
      ("acreage", Num (acreage i));
      ("seasonWeeks", Num (seasonWeeks i));
      ("mowsPerWeek", mowsPerWeek i);
      ("maintenanceType", Str (maintenanceType i));
      ("employees", Num (employees i));
      ("hourlyRate", Num (hourlyRate i));
      ("mowingTimePercent", Num (mowingTimePercent i));
      ("isLeased", Bool (isLeased i));
      ("monthlyContract", Num (monthlyContract i));
      ("benefitsRate", Num (benefitsRate i));
      ("fuelCostPerGallon", Num (fuelCostPerGallon i));
      ("laborReduction", Num (laborReduction i));
      ("bufferTime", Num (bufferTime i));
      ("annualLaborIncrease", Num (annualLaborIncrease i));
      ("fuelPerAcre", Num (fuelPerAcre i));
      ("annualFuelIncrease", Num (annualFuelIncrease i));
      ("baseEquipmentCost", Num (baseEquipmentCost i));
      ("equipmentCostPerAcre", Num (equipmentCostPerAcre i));
      ("maintenanceRate", Num (maintenanceRate i));
      ("insuranceRate", Num (insuranceRate i));
      ("leasingPremium", Num (leasingPremium i));
      ("roboticMaintenance", Num (roboticMaintenance i));
      ("electricityPerAcre", Num (electricityPerAcre i));
      ("co2PerGallon", Num (co2PerGallon i));
      ("mowingTimePerAcre", Num (mowingTimePerAcre i));
      ("automationLevel", Num (automationLevel i));
      ("desiredMowingTime", Num (desiredMowingTime i)) ]%string.

End Figures.

(* ===================================================================== *)
(** * Further inputs the properties are tried on *)
(* ===================================================================== *)

Module Cases.
Import Calculator.

(** Prices of labor and fuel that do not rise. *)
Definition flat_prices : gmap string value :=
  list_to_map [("annualLaborIncrease", Num 0); ("annualFuelIncrease", Num 0)]%string.

End Cases.

(* ===================================================================== *)
(** * The public interface of [Equipment] *)
(* ===================================================================== *)

Module Api.
Import Equipment.

(** The public interface of the module, with the module variable [_data]
    made an argument ([None] while nothing is loaded). *)
Definition getData (_data : option Catalog) : option Catalog := _data.

Definition getModels (_data : option Catalog) : list Model :=
  match _data with
  | Some d => models d
  | None => models FALLBACK_DATA
  end.

(** [getModelByShortName] with its guard: nothing is found while no data is
    loaded. *)
Definition getModel (_data : option Catalog) (short : string) : option Model :=
  match _data with
  | Some d => getModelByShortName d short
  | None => None
  end.

Definition recommend := recommendEquipment.

End Api.

(* ===================================================================== *)
(** * The page controller of [public/js/app.js] *)
(* ===================================================================== *)

Module Parse.

(** Whether a string begins with another. *)
Fixpoint starts_with (p s : list ascii) : bool :=
  match p, s with
  | [], _ => true
  | c :: p', d :: s' => Ascii.eqb c d && starts_with p' s'
  | _ :: _, [] => false
  end.

(** The longest prefix that is a [StrUnsignedDecimalLiteral], as a number:
    [Infinity], or digits with an optional fraction and an optional
    exponent; an exponent without digits is not part of the prefix. *)
Definition decimal_prefix (neg : bool) (s : list ascii) : spec_float :=
  if starts_with (list_ascii_of_string "Infinity") s then S754_infinity neg
  else
    let '(m1, n1, r1) := digits 10 0%Z 0%nat s in
    let '(m2, n2, r2) :=
      match r1 with
      | "."%char :: r => digits 10 m1 0%nat r
      | _ => (m1, 0%nat, r1)
      end in
    if (n1 + n2 =? 0)%nat then S754_nan
    else
      let exponent :=
        match r2 with
        | c :: r =>
            if (code c =? 101)%N || (code c =? 69)%N then
              let '(sg, r') :=
                match r with
                | "-"%char :: r' => (true, r')
                | "+"%char :: r' => (false, r')
                | _ => (false, r)
                end in
              match digits 10 0%Z 0%nat r' with
              | (x, S _, _) => cond_Zopp sg x
              | _ => 0%Z
              end
            else 0%Z
        | [] => 0%Z
        end in
      if (m2 =? 0)%Z then S754_zero neg
      else decimal_to_SF neg m2 (exponent - Z.of_nat n2)%Z.

(** [parseFloat(s)]: leading white space is skipped, what follows the
    longest decimal literal is ignored, and without one the result is
    [NaN]. *)
Definition parseFloat (s : string) : float :=
  SF2Prim
    match drop_space (list_ascii_of_string s) with
    | "-"%char :: u => decimal_prefix true u
    | "+"%char :: u => decimal_prefix false u
    | t => decimal_prefix false t
    end.

(** [parseInt(s, 10)]: leading white space is skipped, then an optional
    sign and the longest run of decimal digits; without a digit the result
    is [NaN]. *)
Definition parseInt (s : string) : float :=
  let t := drop_space (list_ascii_of_string s) in
  let '(neg, u) :=
    match t with
    | "-"%char :: u => (true, u)
    | "+"%char :: u => (false, u)
    | _ => (false, t)
    end in
  SF2Prim
    match digits 10 0%Z 0%nat u with
    | (m, S _, _) =>
        if (m =? 0)%Z then S754_zero neg
        else binary_normalize prec emax (cond_Zopp neg m) 0 neg
    | _ => S754_nan
    end.

End Parse.

Module App.
Import Parse Calculator Equipment Api.

(** What the page holds when the script reads it: the text of each input
    and select and the state of the one checkbox. *)
Record Form := {
  property_type           : string;
  total_acreage           : string;
  season_length           : string;
  maintenance_type        : string;
  employee_count          : string;
  hourly_rate             : string;
  mowing_time_pct         : string;
  equipment_leased        : bool;
  contract_cost           : string;
  benefits_pct            : string;
  fuel_cost               : string;
  labor_reduction         : string;
  buffer_time             : string;
  labor_cost_increase     : string;
  fuel_consumption        : string;
  fuel_cost_increase      : string;
  base_equipment_cost     : string;
  equipment_cost_per_acre : string;
  annual_maintenance_pct  : string;
  equipment_insurance_pct : string;
  leasing_premium_pct     : string;
  robotic_maintenance     : string;
  electricity_per_acre    : string;
  co2_per_gallon          : string;
  mowing_time_per_acre    : string;
  automation_level        : string;
  desired_mowing_time     : string
}.

(** Gather inputs from the form. *)
Definition gatherInputs (form : Form) : gmap string value :=
  list_to_map
    [ ("propertyType", Str (property_type form));
      ("acreage", Num (number_or (parseFloat (total_acreage form)) 0));
      ("seasonWeeks", Num (number_or (parseInt (season_length form)) 30));
      ("maintenanceType",
       Str (if String.eqb (maintenance_type form) "outsourced"
            then "outsourced" else "inhouse"));
      ("employees", Num (number_or (parseInt (employee_count form)) 0));
      ("hourlyRate", Num (number_or (parseFloat (hourly_rate form)) 0));
      ("mowingTimePercent", Num (number_or (parseInt (mowing_time_pct form)) 60));
      ("isLeased", Bool (equipment_leased form));
      ("monthlyContract", Num (number_or (parseFloat (contract_cost form)) 0));
      ("benefitsRate", Num (parseInt (benefits_pct form)));
      ("fuelCostPerGallon", Num (parseFloat (fuel_cost form)));
      ("laborReduction", Num (parseInt (labor_reduction form)));
      ("bufferTime", Num (parseInt (buffer_time form)));
      ("annualLaborIncrease", Num (parseFloat (labor_cost_increase form)));
      ("fuelPerAcre", Num (parseFloat (fuel_consumption form)));
      ("annualFuelIncrease", Num (parseFloat (fuel_cost_increase form)));
      ("baseEquipmentCost", Num (parseFloat (base_equipment_cost form)));
      ("equipmentCostPerAcre", Num (parseFloat (equipment_cost_per_acre form)));
      ("maintenanceRate", Num (parseInt (annual_maintenance_pct form)));
      ("insuranceRate", Num (parseInt (equipment_insurance_pct form)));
      ("leasingPremium", Num (parseInt (leasing_premium_pct form)));
      ("roboticMaintenance", Num (parseFloat (robotic_maintenance form)));
      ("electricityPerAcre", Num (parseFloat (electricity_per_acre form)));
      ("co2PerGallon", Num (parseFloat (co2_per_gallon form)));
      ("mowingTimePerAcre", Num (parseInt (mowing_time_per_acre form)));
      ("automationLevel", Num (parseInt (automation_level form)));
      ("desiredMowingTime", Num (parseInt (desired_mowing_time form))) ]%string.

(** [!text || Number(text) <= bound], and the same with [<]. *)
Definition missing_or_at_most (text : string) (bound : float) : bool :=
  String.eqb text "" || (StringToNumber text <=? bound).
Definition missing_or_below (text : string) (bound : float) : bool :=
  String.eqb text "" || (StringToNumber text <? bound).

(** The errors [validateStep] shows, in order: the input and the message. *)
Definition step_errors (form : Form) (step : float) : list (string * string) :=
  (if step =? 1 then
     (if String.eqb (property_type form) ""
      then [("#property-type", "Please select a property type")%string] else [])
     ++ (if missing_or_at_most (total_acreage form) 0
         then [("#total-acreage", "Please enter your mowable acreage")%string] else [])
   else [])
  ++
  (if step =? 2 then
     if String.eqb (maintenance_type form) "in-house" then
       (if missing_or_below (employee_count form) 1
        then [("#employee-count", "Please enter number of employees")%string] else [])
       ++ (if missing_or_below (hourly_rate form) 10
           then [("#hourly-rate", "Please enter an hourly rate ($10+)")%string] else [])
     else
       (if missing_or_at_most (contract_cost form) 0
        then [("#contract-cost", "Please enter monthly contract cost")%string] else [])
   else []).

(** A step is valid when it shows no error. *)
Definition validateStep (form : Form) (step : float) : bool :=
  match step_errors form step with
  | [] => true
  | _ => false
  end.

(** The state of the wizard. *)
Record Wizard := {
  currentStep      : float;
  maxCompletedStep : float
}.

(** Wizard navigation: the step the wizard is on after [goToStep(step)].
    (What the page shows follows [currentStep] and is not part of the
    model.) *)
Definition goToStep (form : Form) (w : Wizard) (step : float) : Wizard :=
  if (step <? 1) || (4 <? step) then w
  else if (maxCompletedStep w + 1 <? step) && (currentStep w + 1 <? step) then w
  else if (currentStep w <? step) && negb (validateStep form (currentStep w)) then w
  else
    {| currentStep := step;
       maxCompletedStep :=
         if currentStep w <? step
         then Math_max (maxCompletedStep w) (currentStep w)
         else maxCompletedStep w |}.

(** What a calculation leaves in the module variables. *)
Record Calculation := {
  calculationResults      : ROIResult;
  equipmentRecommendation : Recommendation;
  investmentMetrics       : InvestmentMetrics;
  projectionData          : list ProjectionYear
}.

(** Calculate: the engine, the recommender, the metrics and the projection
    in turn, then on to step 4.  The equipment data [_data] comes in and
    goes out as in [recommendEquipment]; the rendering of the results is not
    part of the model. *)
Definition runCalculation (form : Form) (_data : option Catalog) (w : Wizard)
  : option Catalog * completion (Calculation * Wizard) :=
  let inputs := gatherInputs form in
  let calculationResults := calculateROI (Some inputs) in
  let isHilly :=
    match get inputs "propertyType" with
    | Str s => String.eqb s "golf"
    | _ => false
    end in
  let recommended :=
    recommend _data (get inputs "propertyType") (get inputs "acreage")
      (get inputs "automationLevel") (Bool isHilly) in
  (fst recommended,
   match snd recommended with
   | Throw_TypeError => Throw_TypeError
   | Normal equipmentRecommendation =>
       let investmentMetrics :=
         withInvestment (netAnnualSavings calculationResults)
           (Num (Equipment.totalInvestment (costs equipmentRecommendation)))
           (Num (annualService (costs equipmentRecommendation))) in
       let projectionData :=
         calculateProjection calculationResults
           (Num (Equipment.totalInvestment (costs equipmentRecommendation)))
           (Num (annualService (costs equipmentRecommendation))) in
       Normal
         ({| calculationResults := calculationResults;
             equipmentRecommendation := equipmentRecommendation;
             investmentMetrics := investmentMetrics;
             projectionData := projectionData |},
          goToStep form {| currentStep := currentStep w; maxCompletedStep := 3 |} 4)
   end).

End App.

(* ===================================================================== *)
(** * Catalogs, forms and wizards the properties speak of *)
(* ===================================================================== *)

Module Pricing.
Import Equipment.

(** A catalog in which every model and every item has a price above zero. *)
Definition priced (c : Catalog) : Prop :=
  Forall (fun m => (0 <? price m) = true) (models c) /\
  Forall (fun i => (0 <? item_price i) = true)
    [referenceStation c; housing c; annualMaintenance c; remoteSupport c;
     winterStorage c; perUnit c; flat c].

(** The eight figures of the cost summary. *)
Definition cost_figures (c : Costs) : list float :=
  [mowers c; c_referenceStation c; c_housing c; installation c; setup c;
   totalEquipment c; totalInvestment c; annualService c].

End Pricing.

Module FormFields.
Import Parse Documented App.

(** The text of the form a numeric field of the engine is read from. *)
Definition text_of (form : Form) (f : numeric_field) : string :=
  match f with
  | f_acreage => total_acreage form
  | f_seasonWeeks => season_length form
  | f_employees => employee_count form
  | f_hourlyRate => hourly_rate form
  | f_mowingTimePercent => mowing_time_pct form
  | f_monthlyContract => contract_cost form
  | f_benefitsRate => benefits_pct form
  | f_fuelCostPerGallon => fuel_cost form
  | f_laborReduction => labor_reduction form
  | f_bufferTime => buffer_time form
  | f_annualLaborIncrease => labor_cost_increase form
  | f_fuelPerAcre => fuel_consumption form
  | f_annualFuelIncrease => fuel_cost_increase form
  | f_baseEquipmentCost => base_equipment_cost form
  | f_equipmentCostPerAcre => equipment_cost_per_acre form
  | f_maintenanceRate => annual_maintenance_pct form
  | f_insuranceRate => equipment_insurance_pct form
  | f_leasingPremium => leasing_premium_pct form
  | f_roboticMaintenance => robotic_maintenance form
  | f_electricityPerAcre => electricity_per_acre form
  | f_co2PerGallon => co2_per_gallon form
  | f_mowingTimePerAcre => mowing_time_per_acre form
  | f_automationLevel => automation_level form
  | f_desiredMowingTime => desired_mowing_time form
  end.

(** Whether the field is read with [parseInt] rather than [parseFloat]. *)
Definition whole (f : numeric_field) : bool :=
  match f with
  | f_seasonWeeks | f_employees | f_mowingTimePercent | f_benefitsRate
  | f_laborReduction | f_bufferTime | f_maintenanceRate | f_insuranceRate
  | f_leasingPremium | f_mowingTimePerAcre | f_automationLevel
  | f_desiredMowingTime => true
  | _ => false
  end.

(** What the form falls back on where it has a fall-back. *)
Definition form_default (f : numeric_field) : option float :=
  match f with
  | f_acreage | f_employees | f_hourlyRate | f_monthlyContract => Some 0
  | f_seasonWeeks => Some 30
  | f_mowingTimePercent => Some 60
  | _ => None
  end.

Definition parsed (form : Form) (f : numeric_field) : float :=
  if whole f then parseInt (text_of form f) else parseFloat (text_of form f).

Definition gathered (form : Form) (f : numeric_field) : float :=
  match form_default f with
  | Some d => number_or (parsed form f) d
  | None => parsed form f
  end.

End FormFields.

Module WizardDefs.
Import App.

(** The wizard is on one of its four steps and has not completed the
    last. *)
Definition on_a_step (w : Wizard) : Prop :=
  (1 <=? currentStep w) = true /\ (currentStep w <=? 4) = true /\
  (0 <=? maxCompletedStep w) = true /\ (maxCompletedStep w <? 4) = true.

(** The wizard as the page starts it. *)
Definition first_step : Wizard := {| currentStep := 1; maxCompletedStep := 0 |}.

(** A sequence of navigation requests, each with the form as it is then. *)
Definition navigate (w : Wizard) (requests : list (Form * float)) : Wizard :=
  fold_left (fun w r => goToStep (fst r) w (snd r)) requests w.

End WizardDefs.

Module Forms.
Import App.

(** A form with nothing filled in. *)
Definition blank_form : Form := {|
  property_type := ""; total_acreage := ""; season_length := "";
  maintenance_type := ""; employee_count := ""; hourly_rate := "";
  mowing_time_pct := ""; equipment_leased := false; contract_cost := "";
  benefits_pct := ""; fuel_cost := ""; labor_reduction := ""; buffer_time := "";
  labor_cost_increase := ""; fuel_consumption := ""; fuel_cost_increase := "";
  base_equipment_cost := ""; equipment_cost_per_acre := "";
  annual_maintenance_pct := ""; equipment_insurance_pct := "";
  leasing_premium_pct := ""; robotic_maintenance := ""; electricity_per_acre := "";
  co2_per_gallon := ""; mowing_time_per_acre := ""; automation_level := "";
  desired_mowing_time := ""
|}.

(** A commercial property of 10 acres with a crew of 2 at 18.50 an hour,
    everything else as the engine documents its defaults. *)
Definition filled_form : Form := {|
  property_type := "commercial"; total_acreage := "10"; season_length := "30";
  maintenance_type := "in-house"; employee_count := "2"; hourly_rate := "18.50";
  mowing_time_pct := "60"; equipment_leased := false; contract_cost := "";
  benefits_pct := "12"; fuel_cost := "3.50"; labor_reduction := "85";
  buffer_time := "15"; labor_cost_increase := "2.5"; fuel_consumption := "0.75";
  fuel_cost_increase := "3.5"; base_equipment_cost := "15000";
  equipment_cost_per_acre := "2000"; annual_maintenance_pct := "10";
  equipment_insurance_pct := "5"; leasing_premium_pct := "7";
  robotic_maintenance := "3"; electricity_per_acre := "1.5";
  co2_per_gallon := "19.59"; mowing_time_per_acre := "45";
  automation_level := "50"; desired_mowing_time := "20"
|}.

End Forms.

(* ===================================================================== *)
(** * Text, the lead form and the lead function *)
(* ===================================================================== *)

Module Text.

(** ** Numbers as strings *)

Definition digit_char (d : Z) : ascii := ascii_of_N (Z.to_N (48 + d)).

Fixpoint decimal_digits (fuel : nat) (n : Z) (acc : list ascii) : list ascii :=
  match fuel with
  | O => acc
  | S fuel' =>
      if (n <? 10)%Z then digit_char n :: acc
      else decimal_digits fuel' (n / 10)%Z (digit_char (n mod 10) :: acc)
  end.

(** The decimal digits of an integer that is not negative. *)
Definition digits_of (n : Z) : list ascii :=
  decimal_digits (S (Z.to_nat (Z.log2 n))) n [].

(** Whether [m * 2^e < 10^n], and the integer part of [m * 2^e / 10^j]. *)
Definition below_power (m : positive) (e n : Z) : bool :=
  (Zpos m * 2 ^ Z.max e 0 * 10 ^ Z.max (- n) 0
   <? 2 ^ Z.max (- e) 0 * 10 ^ Z.max n 0)%Z.

Definition scaled_floor (m : positive) (e j : Z) : Z :=
  ((Zpos m * 2 ^ Z.max e 0 * 10 ^ Z.max (- j) 0)
   / (2 ^ Z.max (- e) 0 * 10 ^ Z.max j 0))%Z.

(** The least [n] with [m * 2^e < 10^n].  The values of binary64 lie between
    [10^-324] and [10^309]; the search starts just below [log10 (m * 2^e)]
    when the power of ten there is not above the number, and from the
    bottom otherwise. *)
Definition exponent_from_bottom (m : positive) (e : Z) : Z :=
  default 309%Z
    (find (below_power m e) (map (fun i => Z.of_nat i - 324)%Z (seq 0 634))).

Definition decimal_exponent (m : positive) (e : Z) : Z :=
  let guess := ((Z.log2 (Zpos m) + e) * 1233 / 4096)%Z in
  if below_power m e (guess - 3) then exponent_from_bottom m e
  else
    match find (below_power m e) (map (fun i => guess - 2 + Z.of_nat i)%Z (seq 0 6)) with
    | Some n => n
    | None => exponent_from_bottom m e
    end.

(** How [m * 2^e] compares with the middle of [s * 10^j] and
    [(s + 1) * 10^j]. *)
Definition side_of_middle (m : positive) (e s j : Z) : comparison :=
  (2 * Zpos m * 2 ^ Z.max e 0 * 10 ^ Z.max (- j) 0
   ?= (2 * s + 1) * 2 ^ Z.max (- e) 0 * 10 ^ Z.max j 0)%Z.

(** The [k]-digit decimals [s * 10^(n - k)] that denote the number, that is,
    whose nearest binary64 value it is: at most the two around it; of two,
    the closer, and the even one on a tie. *)
Definition denotes (m : positive) (e s j : Z) : bool :=
  match decimal_to_SF false s j with
  | S754_finite false m' e' => Pos.eqb m m' && Z.eqb e e'
  | _ => false
  end.

Definition with_digits (m : positive) (e n k : Z) : option Z :=
  let j := (n - k)%Z in
  let f := scaled_floor m e j in
  match denotes m e f j, denotes m e (f + 1) j with
  | true, true =>
      match side_of_middle m e f j with
      | Lt => Some f
      | Gt => Some (f + 1)%Z
      | Eq => Some (if Z.even f then f else f + 1)%Z
      end
  | true, false => Some f
  | false, true => Some (f + 1)%Z
  | false, false => None
  end.

(** The first number of digits, of those given, that can denote the number,
    with the digits. *)
Fixpoint fewest_digits (m : positive) (e n : Z) (ks : list nat) : option (Z * Z) :=
  match ks with
  | [] => None
  | k :: more =>
      match with_digits m e n (Z.of_nat k) with
      | Some s => Some (s, Z.of_nat k)
      | None => fewest_digits m e n more
      end
  end.

(** The digits [s] and the exponent [n] of [Number::toString]: the fewest
    digits that denote the number (17 always do). *)
Definition shortest (m : positive) (e : Z) : Z * Z :=
  let n := decimal_exponent m e in
  match fewest_digits m e n (seq 1 17) with
  | Some (s, k) => if (s =? 10 ^ k)%Z then (1%Z, (n + 1)%Z) else (s, n)
  | None => (scaled_floor m e (n - 17), n)
  end.

Definition zeros (n : Z) : list ascii := repeat "0"%char (Z.to_nat n).

(** [Number::toString] in radix 10. *)
Definition NumberToString (x : float) : string :=
  match Prim2SF x with
  | S754_nan => "NaN"%string
  | S754_zero _ => "0"%string
  | S754_infinity s => (if s then "-Infinity" else "Infinity")%string
  | S754_finite sg m e =>
      let '(s, n) := shortest m e in
      let ds := digits_of s in
      let k := Z.of_nat (length ds) in
      let body :=
        if (-5 <=? n)%Z && (n <=? 21)%Z then
          if (k <=? n)%Z then ds ++ zeros (n - k)
          else if (0 <? n)%Z then
            firstn (Z.to_nat n) ds ++ "."%char :: skipn (Z.to_nat n) ds
          else "0"%char :: "."%char :: zeros (- n) ++ ds
        else
          let exponent :=
            "e"%char :: (if (n - 1 <? 0)%Z then "-"%char else "+"%char)
            :: digits_of (Z.abs (n - 1)) in
          match ds with
          | [d] => d :: exponent
          | d :: more => d :: "."%char :: more ++ exponent
          | [] => exponent
          end in
      string_of_list_ascii (if sg then "-"%char :: body else body)
  end.

End Text.

Module Regex.

(** Regular expressions over code units, matched against a whole string (a
    pattern between [^] and [$]). *)
Inductive regex :=
| Nothing
| Empty
| Class (p : ascii -> bool)
| Cat (r1 r2 : regex)
| Alt (r1 r2 : regex)
| Star (r : regex).

Definition Plus (r : regex) : regex := Cat r (Star r).
Definition Chr (c : ascii) : regex := Class (Ascii.eqb c).

Fixpoint nullable (r : regex) : bool :=
  match r with
  | Nothing | Class _ => false
  | Empty | Star _ => true
  | Cat r1 r2 => nullable r1 && nullable r2
  | Alt r1 r2 => nullable r1 || nullable r2
  end.

(** What is left of a pattern after one code unit. *)
Fixpoint derive (c : ascii) (r : regex) : regex :=
  match r with
  | Nothing | Empty => Nothing
  | Class p => if p c then Empty else Nothing
  | Cat r1 r2 =>
      if nullable r1 then Alt (Cat (derive c r1) r2) (derive c r2)
      else Cat (derive c r1) r2
  | Alt r1 r2 => Alt (derive c r1) (derive c r2)
  | Star r1 => Cat (derive c r1) (Star r1)
  end.

Fixpoint matches (r : regex) (s : list ascii) : bool :=
  match s with
  | [] => nullable r
  | c :: t => matches (derive c r) t
  end.

(** [regex.test(s)] for an anchored pattern. *)
Definition test (r : regex) (s : string) : bool :=
  matches r (list_ascii_of_string s).

(** [[^\s@]]. *)
Definition no_space_no_at (c : ascii) : bool :=
  negb (is_space c) && negb (Ascii.eqb c "@").

(** [/^[^\s@]+@[^\s@]+\.[^\s@]+$/]. *)
Definition EMAIL_REGEX : regex :=
  Cat (Plus (Class no_space_no_at))
    (Cat (Chr "@")
       (Cat (Plus (Class no_space_no_at))
          (Cat (Chr ".") (Plus (Class no_space_no_at))))).

End Regex.

Module Server.
Import Text Regex.

(** What [request.json()] can give. *)
#[local] Set Warnings "-register-all".
Inductive json :=
| JNull
| JBool (b : bool)
| JNumber (x : float)
| JString (s : string)
| JArray (items : list json)
| JObject (fields : list (string * json)).

(** A property of a parsed object ([None] for [undefined]): of two entries
    with the same name the later one counts; values that are no objects
    have none of the properties the handler reads. *)
Fixpoint field_of (fields : list (string * json)) (k : string) : option json :=
  match fields with
  | [] => None
  | (k', v) :: more =>
      match field_of more k with
      | Some later => Some later
      | None => if String.eqb k' k then Some v else None
      end
  end.

Definition property (v : json) (k : string) : option json :=
  match v with
  | JObject fields => field_of fields k
  | _ => None
  end.

Definition truthy (v : option json) : bool :=
  match v with
  | None | Some JNull => false
  | Some (JBool b) => b
  | Some (JNumber x) => negb (falsy_number x)
  | Some (JString s) => negb (String.eqb s "")
  | Some (JArray _) | Some (JObject _) => true
  end.

Fixpoint join (parts : list string) : string :=
  match parts with
  | [] => ""
  | [p] => p
  | p :: more => p ++ "," ++ join more
  end%string.

(** [String(v)] and [Number(v)] throw a [TypeError] for an object with an
    own property named toString (after [JSON.parse] its value is never a
    function, and [Object.prototype.valueOf] gives the object back), and
    for an array with such an item, at any depth. *)
Fixpoint throws (v : json) : bool :=
  match v with
  | JObject fields => existsb (fun entry => String.eqb (fst entry) "toString") fields
  | JArray items => existsb throws items
  | _ => false
  end.

(** [String(v)], where it returns: an array is its items joined by commas,
    with nothing for [null]; an object is [[object Object]]. *)
Fixpoint ToString (v : json) : string :=
  match v with
  | JNull => "null"
  | JBool b => if b then "true" else "false"
  | JNumber x => NumberToString x
  | JString s => s
  | JArray items =>
      join (map (fun item => match item with JNull => "" | _ => ToString item end) items)
  | JObject _ => "[object Object]"
  end%string.

(** [s.replace(/c/g, by)]. *)
Fixpoint replace_all (c : ascii) (by_ : string) (s : string) : string :=
  match s with
  | EmptyString => EmptyString
  | String d t =>
      if Ascii.eqb d c then (by_ ++ replace_all c by_ t)%string
      else String d (replace_all c by_ t)
  end.

(** The double quote. *)
Definition quote : ascii := ascii_of_N 34.

(** The text [escapeHtml] returns (it returns none where [String(str)]
    throws). *)
Definition escapeHtml (str : option json) : string :=
  match str with
  | Some v =>
      if truthy str then
        replace_all "'" "&#039;"
          (replace_all quote "&quot;"
             (replace_all ">" "&gt;"
                (replace_all "<" "&lt;"
                   (replace_all "&" "&amp;" (ToString v)))))
      else ""%string
  | None => ""%string
  end.

(** A response: its status and what its body says. *)
Inductive payload :=
| Error (message : string)
| Success.

Record Response := { status : Z; payload_of : payload }.

(** [calculatorData || {}]. *)
Definition calculatorData_of (body : json) : json :=
  match property body "calculatorData" with
  | Some v => if truthy (Some v) then v else JObject []
  | None => JObject []
  end.

(** What the template of the mail and its subject line turn into text or
    into a number: the four contact fields and eleven entries of the
    calculator data.  (The template skips the values that are falsy or
    [null]; a value that throws is an object or an array, and is never
    skipped.) *)
Definition quoted (body : json) : list (option json) :=
  let cd := calculatorData_of body in
  [ property body "name"; property body "email"; property body "phone";
    property body "message";
    property cd "propertyType"; property cd "acreage"; property cd "seasonWeeks";
    property cd "maintenanceType"; property cd "projectedSavings"; property cd "roi";
    property cd "paybackPeriod"; property cd "recommendedEquipment";
    property cd "totalInvestment"; property cd "laborHoursSaved";
    property cd "co2Reduced" ]%string.

Definition fails (v : option json) : bool :=
  match v with
  | Some j => throws j
  | None => false
  end.

(** The answer to a request: [body] is [None] when the request holds no
    JSON, and [mail] tells how the call of the mail service went ([None]
    when it failed to complete, else whether the service accepted).  Of the
    text of the mail only whether building it throws is part of the model:
    whatever is thrown is caught and answered with status 500. *)
Definition onRequestPost (body : option json) (mail : option bool) : Response :=
  match body with
  | None | Some JNull =>
      {| status := 500; payload_of := Error "Internal server error" |}
  | Some b =>
      let name := property b "name" in
      let email := property b "email" in
      if negb (truthy name) || negb (truthy email) then
        {| status := 400; payload_of := Error "Name and email are required" |}
      else if fails email then
        {| status := 500; payload_of := Error "Internal server error" |}
      else if negb (test EMAIL_REGEX (match email with Some v => ToString v | None => "" end))
      then {| status := 400; payload_of := Error "Invalid email address" |}
      else if existsb fails (quoted b) then
        {| status := 500; payload_of := Error "Internal server error" |}
      else
        match mail with
        | None => {| status := 500; payload_of := Error "Internal server error" |}
        | Some false => {| status := 500; payload_of := Error "Failed to send email" |}
        | Some true => {| status := 200; payload_of := Success |}
        end
  end%string.

End Server.

Module LeadCapture.
Import Regex Server.

(** [String.prototype.trim]. *)
Definition trimmed (s : string) : string :=
  string_of_list_ascii (trim (list_ascii_of_string s)).

(** Validate the contact fields: the error message, or [None] if valid. *)
Definition validate (name email phone : string) : option string :=
  if String.eqb name "" || String.eqb (trimmed name) "" then
    Some "Please enter your name."%string
  else if String.eqb email "" || String.eqb (trimmed email) "" then
    Some "Please enter your email address."%string
  else if negb (test EMAIL_REGEX (trimmed email)) then
    Some "Please enter a valid email address."%string
  else None.

(** The request body [submit] builds from the contact fields and the
    calculator results ([None] when there are none).  What
    [JSON.stringify] writes of it is what [request.json()] reads back. *)
Definition submit (name email phone message : string) (calcData : option json) : json :=
  JObject [ ("name", JString (trimmed name)); ("email", JString (trimmed email));
            ("phone", JString (trimmed phone)); ("message", JString (trimmed message));
            ("calculatorData", if truthy calcData then default (JObject []) calcData
                               else JObject []) ]%string.

End LeadCapture.

Module Languages.
Import Regex.

(** The strings a pattern stands for. *)
Inductive lang : regex -> list ascii -> Prop :=
| lang_Empty : lang Empty []
| lang_Class p c : p c = true -> lang (Class p) [c]
| lang_Cat r1 r2 s1 s2 : lang r1 s1 -> lang r2 s2 -> lang (Cat r1 r2) (s1 ++ s2)
| lang_Alt_l r1 r2 s : lang r1 s -> lang (Alt r1 r2) s
| lang_Alt_r r1 r2 s : lang r2 s -> lang (Alt r1 r2) s
| lang_Star_nil r : lang (Star r) []
| lang_Star_cons r s1 s2 : lang r s1 -> lang (Star r) s2 -> lang (Star r) (s1 ++ s2).

(** A string with at least one code unit, none of them white space or an
    at sign. *)
Definition plain (s : string) : Prop :=
  s <> ""%string /\ Forall (fun c => no_space_no_at c = true) (list_ascii_of_string s).

End Languages.

Module Markup.
Import Server.

(** The text an unsafe code unit is replaced by. *)
Definition entity (c : ascii) : option string :=
  if Ascii.eqb c "&" then Some "&amp;"
  else if Ascii.eqb c "<" then Some "&lt;"
  else if Ascii.eqb c ">" then Some "&gt;"
  else if Ascii.eqb c quote then Some "&quot;"
  else if Ascii.eqb c "'" then Some "&#039;"
  else None%string.

(** The code units with a meaning in HTML text and attribute values, the
    ampersand apart. *)
Definition unsafe : list ascii := [ "<"; ">"; quote; "'" ]%char.

(** The character references [escapeHtml] writes, after their ampersand. *)
Definition references : list string := [ "amp;"; "lt;"; "gt;"; "quot;"; "#039;" ]%string.

(** What one code unit becomes. *)
Definition escaped_unit (c : ascii) : string :=
  match entity c with
  | Some e => e
  | None => String c ""
  end.

Fixpoint escaped (s : string) : string :=
  match s with
  | EmptyString => EmptyString
  | String c t => (escaped_unit c ++ escaped t)%string
  end.

Fixpoint begins (p s : string) : bool :=
  match p, s with
  | EmptyString, _ => true
  | String c p', String d s' => Ascii.eqb c d && begins p' s'
  | String _ _, EmptyString => false
  end.

(** Every ampersand of [s] starts a character reference, and [s] has no
    unsafe code unit. *)
Fixpoint inert (s : string) : bool :=
  match s with
  | EmptyString => true
  | String c t =>
      (if Ascii.eqb c "&" then existsb (fun r => begins r t) references
       else negb (existsb (Ascii.eqb c) unsafe)) && inert t
  end.

(** The five replacements of [escapeHtml], in its order. *)
Definition replaced (s : string) : string :=
  replace_all "'" "&#039;"
    (replace_all quote "&quot;"
       (replace_all ">" "&gt;"
          (replace_all "<" "&lt;"
             (replace_all "&" "&amp;" s)))).

End Markup.

(* ===================================================================== *)
(** * Amounts as text *)
(* ===================================================================== *)

Module Fixed.
Import Text Regex.

(** The integer [n] for which [n / 10^f - m * 2^e] is closest to zero, the
    larger one of two. *)
Definition nearest_scaled (m : positive) (e : Z) (f : nat) : Z :=
  ((2 * Zpos m * 2 ^ Z.max e 0 * 10 ^ Z.of_nat f + 2 ^ Z.max (- e) 0)
   / (2 * 2 ^ Z.max (- e) 0))%Z.

(** The digits of [n] with a point before the last [f] of them, after
    zeros in front where [n] has no more than [f] digits. *)
Definition fixed_digits (n : Z) (f : nat) : list ascii :=
  let m := digits_of n in
  match f with
  | O => m
  | S _ =>
      let m := if (length m <=? f)%nat then repeat "0"%char (f + 1 - length m) ++ m else m in
      let k := length m in
      firstn (k - f) m ++ "."%char :: skipn (k - f) m
  end.

(** [x.toFixed(f)] for [f] from 0 to 100; [10^21] is a binary64 value. *)
Definition toFixed (x : float) (f : nat) : string :=
  match Prim2SF x with
  | S754_nan | S754_infinity _ => NumberToString x
  | S754_zero _ => string_of_list_ascii (fixed_digits 0 f)
  | S754_finite s m e =>
      let magnitude :=
        if 1e21 <=? abs x then NumberToString (abs x)
        else string_of_list_ascii (fixed_digits (nearest_scaled m e f) f) in
      if s then String "-" magnitude else magnitude
  end.

Definition is_digit (c : ascii) : bool := ((48 <=? code c) && (code c <=? 57))%N.

Definition is_a_digit (c : ascii) : Prop := is_digit c = true.

(** [\d], [\d{3}] and [(\d{3})+\.]. *)
Definition DIGIT : regex := Class is_digit.
Definition TRIPLE : regex := Cat DIGIT (Cat DIGIT DIGIT).
Definition THREES_AND_POINT : regex := Cat (Plus TRIPLE) (Chr ".").

(** Whether the pattern matches at the start of [s]. *)
Fixpoint matches_ahead (r : regex) (s : list ascii) : bool :=
  nullable r ||
  match s with
  | [] => false
  | c :: t => matches_ahead (derive c r) t
  end.

(** [s.replace(/\d(?=(\d{3})+\.)/g, '$&,')]: a comma after every digit that
    the look-ahead accepts. *)
Fixpoint separate (s : list ascii) : list ascii :=
  match s with
  | [] => []
  | c :: t =>
      if is_digit c && matches_ahead THREES_AND_POINT t then c :: ","%char :: separate t
      else c :: separate t
  end.

Definition with_commas (s : string) : string :=
  string_of_list_ascii (separate (list_ascii_of_string s)).

(** [Equipment.formatCurrency]. *)
Definition formatCurrency (num : value) : string :=
  match num with
  | Num x => if is_nan x then "$0.00"%string else String "$" (with_commas (toFixed x 2))
  | _ => "$0.00"%string
  end.

(** [fmtCents] of the report. *)
Definition fmtCents (n : value) : string :=
  String "$" (with_commas (toFixed (ToNumber n) 2)).

End Fixed.


Module Grouping.
Import Text Fixed.

Definition two (k : Z) : list ascii := [ digit_char (k / 10); digit_char (k mod 10) ]%Z.
Definition three (k : Z) : list ascii := digit_char (k / 100)%Z :: two (k mod 100)%Z.

(** The digits of [d] in groups of three from the right, with commas
    between the groups. *)
Fixpoint grouped (fuel : nat) (d : Z) : list ascii :=
  match fuel with
  | O => digits_of d
  | S fuel' =>
      if (d <? 1000)%Z then digits_of d
      else grouped fuel' (d / 1000)%Z ++ ","%char :: three (d mod 1000)%Z
  end.

Definition thousands (d : Z) : list ascii := grouped (Z.to_nat (Z.log2 d)) d.

(** Hundred times the magnitude of [x], to the nearest integer. *)
Definition cents (x : float) : Z :=
  match Prim2SF x with
  | S754_finite _ m e => nearest_scaled m e 2
  | _ => 0%Z
  end.

(** A comma after every digit with a positive multiple of three digits
    behind it. *)
Fixpoint commas (ds : list ascii) : list ascii :=
  match ds with
  | [] => []
  | c :: t =>
      if (0 <? length t)%nat && (length t mod 3 =? 0)%nat then c :: ","%char :: commas t
      else c :: commas t
  end.

End Grouping.

(* ===================================================================== *)
(** * Rounding, on integers *)
(* ===================================================================== *)

(** The steps of [binary_round_aux], the rounding every binary64 operation
    ends with, written on integers so that they can be compared. *)
Module Grid.
Import JS.


(** A mantissa with its round and sticky bits, as one integer: four times
    the mantissa, plus 2 for the round bit, plus 1 for the sticky bit. *)
Definition quarters (mrs : shr_record) : Z :=
  (4 * shr_m mrs + (if shr_r mrs then 2 else 0) + (if shr_s mrs then 1 else 0))%Z.

(** One shift to the right, on quarters. *)
Definition halve (t : Z) : Z := (2 * (t / 4) + (if t mod 4 =? 0 then 0 else 1))%Z.

(** Rounding to nearest, ties to even, on quarters. *)
Definition nearest (t : Z) : Z :=
  (let m := t / 4 in
   let c := t mod 4 in
   if c <? 2 then m
   else if c =? 2 then (if Z.even m then m else m + 1)
   else m + 1)%Z.

(** The quarters of the quotient [a / b]. *)
Definition quotient_quarters (a b : Z) : Z :=
  (2 * (2 * a / b) + (if (2 * a) mod b =? 0 then 0 else 1))%Z.

(** The quarters of a location. *)
Definition loc_quarters (l : location) : Z :=
  match l with
  | loc_Exact => 0
  | loc_Inexact Lt => 1
  | loc_Inexact Eq => 2
  | loc_Inexact Gt => 3
  end%Z.

End Grid.

Module Stage.
Import Grid.
Local Open Scope Z_scope.

(** The mantissa [m] with the location [l] stands for the quotient
    [a / b]. *)
Definition stands_for (a b m : Z) (l : location) : Prop :=
  0 <= a /\ 0 < b /\ 4 * m + loc_quarters l = quotient_quarters a b.

(** The exponent a mantissa is rounded at. *)
Definition target (m e : Z) : Z := fexp prec emax (Zdigits2 m + e).

(** The mantissa after the first rounding. *)
Definition rounded (m e : Z) (l : location) : Z :=
  let mrs := fst (shr_fexp prec emax m e l) in
  round_nearest_even (shr_m mrs) (loc_of_shr_record mrs).

(** The order of two values, over a common unit [2^e0]. *)
Definition value_le (a b e a' b' e' e0 : Z) : Prop :=
  e0 <= e /\ e0 <= e' /\ a * b' * 2 ^ (e - e0) <= a' * b * 2 ^ (e' - e0).

(** What [binary_round_aux] gives, from the rounded mantissa. *)
Definition finish (m1 F : Z) : spec_float :=
  let r := shr_fexp prec emax m1 F loc_Exact in
  match shr_m (fst r) with
  | Z0 => S754_zero false
  | Zpos p => if snd r <=? emax - prec then S754_finite false p (snd r) else S754_infinity false
  | Zneg _ => S754_nan
  end.

(** The integer [Math.round] computes, for a positive number below
    [2^52]. *)
Definition nearest_integer (m : positive) (e : Z) : Z :=
  (Zpos m + 2 ^ (- e - 1)) / 2 ^ (- e).

End Stage.

(* ===================================================================== *)
(** * The projection, on any engine *)
(* ===================================================================== *)

(** ECMAScript leaves the precision of [Math.pow] to the engine, and the
    engines differ in the last bit of a power that is not a binary64 value.
    Here [calculateProjection] is embedded once more, with the engine's
    [Math.pow] left open: what is proved of it holds on every engine.
    [Calculator.calculateProjection] is its instance at the correctly
    rounded power. *)
Module AnyEngine.
Import JS Calculator.

Section Engine.

Variable Math_pow : float -> nat -> float.

(** Round a number to the given decimal places. *)
Definition round (v : float) (decimals : nat) : float :=
  let factor := Math_pow 10 decimals in
  Math_round (v * factor) / factor.

(** The unrounded multipliers and the two yearly costs of [year]. *)
Definition laborMultiplier_of (i : ResolvedInputs) (year : nat) : float :=
  Math_pow (1 + annualLaborIncrease i / 100) year.
Definition fuelMultiplier_of (i : ResolvedInputs) (year : nat) : float :=
  Math_pow (1 + annualFuelIncrease i / 100) year.

Definition traditionalCost_of (baseResults : ROIResult) (year : nat) : float :=
  let i := inputs baseResults in
  let raw := _internal baseResults in
  round ((laborCost raw * laborMultiplier_of i year)
         + (fuelCost raw * fuelMultiplier_of i year)
         + equipmentAnnualCost raw) 2.

Definition automatedCost_of (baseResults : ROIResult) (annualServiceCost : float)
    (year : nat) : float :=
  let i := inputs baseResults in
  let raw := _internal baseResults in
  round ((laborCost raw * (1 - (automationLevel i / 100) * (laborReduction i / 100))
            * laborMultiplier_of i year)
         + (fuelCost raw * (1 - automationLevel i / 100) * fuelMultiplier_of i year)
         + (equipmentAnnualCost raw * (1 - (automationLevel i / 100) * 0.5))
         + totalNewCosts raw
         + annualServiceCost) 2.

(** One turn of the loop body. *)
Definition projection_step (baseResults : ROIResult)
    (totalInvestment annualServiceCost : float)
    (st : LoopState) (year : nat) : LoopState :=
  let i := inputs baseResults in
  let traditionalCost := traditionalCost_of baseResults year in
  let automatedCost := automatedCost_of baseResults annualServiceCost year in
  let annualSavings := round (traditionalCost - automatedCost) 2 in
  let cumTraditional := cumTraditional st + traditionalCost in
  let cumAutomated := cumAutomated st + automatedCost in
  {| projection :=
       projection st ++
       [ {| year := year;
            laborMultiplier := round (laborMultiplier_of i year) 4;
            fuelMultiplier := round (fuelMultiplier_of i year) 4;
            traditionalCost := traditionalCost;
            automatedCost := automatedCost;
            annualSavings := annualSavings;
            cumulativeTraditional := round cumTraditional 2;
            cumulativeAutomated := round (cumAutomated + totalInvestment) 2;
            cumulativeSavings := round (cumTraditional - (cumAutomated + totalInvestment)) 2 |} ];
     cumTraditional := cumTraditional;
     cumAutomated := cumAutomated |}.

Definition projection_loop (baseResults : ROIResult)
    (totalInvestment annualServiceCost : float) (ys : list nat) : LoopState :=
  fold_left (projection_step baseResults totalInvestment annualServiceCost) ys
    {| projection := []; cumTraditional := 0; cumAutomated := 0 |}.

(** Build a 5-year cost and savings projection. *)
Definition calculateProjection (baseResults : ROIResult)
    (totalInvestment annualServiceCost : value) : list ProjectionYear :=
  let totalInvestment := Math_max (number_or (ToNumber totalInvestment) 0) 0 in
  let annualServiceCost := Math_max (number_or (ToNumber annualServiceCost) 0) 0 in
  projection (projection_loop baseResults totalInvestment annualServiceCost years).

End Engine.

End AnyEngine.

(* ===================================================================== *)
(** * Facts about binary64 arithmetic *)
(* ===================================================================== *)

Module FloatFacts.
Import View.

Lemma SFcompare_refl x :
  SFcompare x x = if sf_nan x then None else Some Eq.
Proof.
  destruct x as [s|s| |s m e]; simpl; trivial.
  - now destruct s.
  - rewrite Z.compare_refl, Pos.compare_cont_refl. now destruct s.
Qed.

Lemma SFcompare_antisym x y :
  SFcompare y x = option_map CompOpp (SFcompare x y).
Proof.
  destruct x as [s|s| |s m e], y as [s'|s'| |s' m' e']; simpl; trivial;
    try (now destruct s); try (now destruct s'); try (now destruct s, s').
  pose proof (Pos.compare_cont_antisym m m' Eq) as H; simpl in H.
  destruct s, s'; simpl; trivial; rewrite (Z.compare_antisym e e');
    destruct (e ?= e')%Z; simpl; trivial; rewrite <- H; trivial.
Qed.

Lemma is_nan_SF x : is_nan x = sf_nan (Prim2SF x).
Proof.
  unfold is_nan. rewrite FloatAxioms.eqb_spec. unfold SFeqb. rewrite SFcompare_refl.
  now destruct (sf_nan (Prim2SF x)).
Qed.

Lemma SF_zero : Prim2SF 0 = S754_zero false.
Proof. reflexivity. Qed.
Lemma SF_infinity : Prim2SF infinity = S754_infinity false.
Proof. reflexivity. Qed.

Lemma is_finite_SF x : is_finite x = sf_finite (Prim2SF x).
Proof.
  unfold is_finite, is_infinity. rewrite is_nan_SF, FloatAxioms.eqb_spec, abs_spec, SF_infinity.
  destruct (Prim2SF x) as [s|s| |s m e]; trivial.
Qed.

Lemma leb_0_l x : (0 <=? x) = sf_nonneg (Prim2SF x).
Proof.
  rewrite FloatAxioms.leb_spec, SF_zero. destruct (Prim2SF x) as [s|s| |s m e]; trivial;
    now destruct s.
Qed.

Lemma leb_0_r x : (x <=? 0) = sf_nonpos (Prim2SF x).
Proof.
  rewrite FloatAxioms.leb_spec, SF_zero. destruct (Prim2SF x) as [s|s| |s m e]; trivial;
    now destruct s.
Qed.

Lemma ltb_0_l x : (0 <? x) = sf_pos (Prim2SF x).
Proof.
  rewrite FloatAxioms.ltb_spec, SF_zero. destruct (Prim2SF x) as [s|s| |s m e]; trivial;
    now destruct s.
Qed.

Lemma eqb_0_r x : (x =? 0) = sf_zero (Prim2SF x).
Proof.
  rewrite FloatAxioms.eqb_spec, SF_zero. destruct (Prim2SF x) as [s|s| |s m e]; trivial;
    now destruct s.
Qed.

(** ** The order on numbers that are not [NaN] *)

Lemma ltb_leb x y : (x <? y) = true -> (x <=? y) = true.
Proof.
  rewrite FloatAxioms.ltb_spec, FloatAxioms.leb_spec. unfold SFltb, SFleb.
  now destruct (SFcompare _ _) as [[]|].
Qed.

Lemma leb_not_nan x y :
  (x <=? y) = true -> is_nan x = false /\ is_nan y = false.
Proof.
  rewrite FloatAxioms.leb_spec, !is_nan_SF. unfold SFleb.
  destruct (Prim2SF x), (Prim2SF y); simpl; auto; discriminate.
Qed.

Lemma ltb_not_nan x y :
  (x <? y) = true -> is_nan x = false /\ is_nan y = false.
Proof. intros H. now apply leb_not_nan, ltb_leb. Qed.

Lemma SFcompare_None x y :
  SFcompare x y = None -> sf_nan x || sf_nan y = true.
Proof. destruct x, y; simpl; trivial; discriminate. Qed.

Lemma not_ltb_leb x y :
  is_nan x = false -> is_nan y = false -> (x <? y) = false -> (y <=? x) = true.
Proof.
  rewrite !is_nan_SF, FloatAxioms.ltb_spec, FloatAxioms.leb_spec. unfold SFltb, SFleb.
  rewrite (SFcompare_antisym (Prim2SF x) (Prim2SF y)). intros Hx Hy.
  destruct (SFcompare (Prim2SF x) (Prim2SF y)) as [[]|] eqn:E; simpl; trivial;
    try discriminate.
  apply SFcompare_None in E. rewrite Hx, Hy in E. discriminate.
Qed.

Lemma leb_not_ltb x y : (x <=? y) = true -> (y <? x) = false.
Proof.
  rewrite FloatAxioms.leb_spec, FloatAxioms.ltb_spec. unfold SFleb, SFltb.
  rewrite (SFcompare_antisym (Prim2SF x) (Prim2SF y)).
  now destruct (SFcompare (Prim2SF x) (Prim2SF y)) as [[]|].
Qed.

Lemma leb_refl x : is_nan x = false -> (x <=? x) = true.
Proof.
  rewrite is_nan_SF, FloatAxioms.leb_spec. unfold SFleb. rewrite SFcompare_refl.
  now intros ->.
Qed.

Lemma range_finite lo hi r :
  (lo <=? r) = true -> (r <=? hi) = true ->
  is_finite lo = true -> is_finite hi = true -> is_finite r = true.
Proof.
  rewrite !is_finite_SF, !FloatAxioms.leb_spec. unfold SFleb.
  destruct (Prim2SF lo) as [[]|[]| |[] ? ?], (Prim2SF r) as [[]|[]| |[] ? ?],
    (Prim2SF hi) as [[]|[]| |[] ? ?]; simpl; intros; try discriminate; trivial.
Qed.

(** ** [Math.max], [Math.min], [clamp] and [||] *)

Lemma Math_max_spec a b :
  is_nan a = false -> is_nan b = false ->
  (Math_max a b = a \/ Math_max a b = b) /\
  (a <=? Math_max a b) = true /\ (b <=? Math_max a b) = true.
Proof.
  intros Ha Hb. unfold Math_max. rewrite Ha, Hb. simpl.
  destruct (a <? b) eqn:E1.
  { repeat split; auto using ltb_leb, leb_refl. }
  destruct (b <? a) eqn:E2.
  { repeat split; auto using ltb_leb, leb_refl. }
  pose proof (not_ltb_leb _ _ Ha Hb E1). pose proof (not_ltb_leb _ _ Hb Ha E2).
  destruct (PrimFloat.Leibniz.eqb a _); repeat split; auto using leb_refl.
Qed.

Lemma Math_min_spec a b :
  is_nan a = false -> is_nan b = false ->
  (Math_min a b = a \/ Math_min a b = b) /\
  (Math_min a b <=? a) = true /\ (Math_min a b <=? b) = true.
Proof.
  intros Ha Hb. unfold Math_min. rewrite Ha, Hb. simpl.
  destruct (a <? b) eqn:E1.
  { repeat split; auto using ltb_leb, leb_refl. }
  destruct (b <? a) eqn:E2.
  { repeat split; auto using ltb_leb, leb_refl. }
  pose proof (not_ltb_leb _ _ Ha Hb E1). pose proof (not_ltb_leb _ _ Hb Ha E2).
  destruct (PrimFloat.Leibniz.eqb a _); repeat split; auto using leb_refl.
Qed.

Lemma number_or_not_nan x d :
  is_nan d = false -> is_nan (number_or x d) = false.
Proof.
  unfold number_or, falsy_number. intros Hd.
  destruct (PrimFloat.is_zero x); simpl; trivial.
  now destruct (is_nan x) eqn:E.
Qed.

(** ** Rounding never turns a sign around *)

Local Open Scope Z_scope.

Lemma shr_1_m mrs : 0 <= shr_m mrs -> shr_m (shr_1 mrs) = Z.div2 (shr_m mrs).
Proof. destruct mrs as [[|[p|p|]|p] r s]; simpl; intros; trivial; lia. Qed.

Lemma iter_shr_1_m p : forall mrs,
  0 <= shr_m mrs -> shr_m (SpecFloat.iter_pos shr_1 p mrs) = Z.shiftr (shr_m mrs) (Zpos p).
Proof.
  induction p as [p IH|p IH|]; intros mrs Hm; simpl.
  - assert (H1 : 0 <= shr_m (shr_1 mrs)).
    { rewrite shr_1_m by trivial. now apply Z.div2_nonneg. }
    assert (H2 : 0 <= shr_m (SpecFloat.iter_pos shr_1 p (shr_1 mrs))).
    { rewrite IH by trivial. now apply Z.shiftr_nonneg. }
    rewrite IH, IH, shr_1_m, Z.div2_spec by trivial.
    rewrite !Z.shiftr_shiftr by lia. f_equal. lia.
  - assert (H2 : 0 <= shr_m (SpecFloat.iter_pos shr_1 p mrs)).
    { rewrite IH by trivial. now apply Z.shiftr_nonneg. }
    rewrite IH, IH by trivial.
    rewrite !Z.shiftr_shiftr by lia. f_equal. lia.
  - rewrite shr_1_m, Z.div2_spec by trivial. reflexivity.
Qed.

Lemma shr_record_of_loc_m m l : shr_m (shr_record_of_loc m l) = m.
Proof. now destruct l as [|[]]. Qed.

Lemma shr_fexp_spec m e l :
  0 <= m ->
  let n := Z.max 0 (fexp prec emax (Zdigits2 m + e) - e) in
  shr_m (fst (shr_fexp prec emax m e l)) = Z.shiftr m n /\
  snd (shr_fexp prec emax m e l) = e + n.
Proof.
  intros Hm. unfold shr_fexp, shr.
  destruct (fexp prec emax (Zdigits2 m + e) - e) as [|p|p] eqn:E; simpl.
  - rewrite shr_record_of_loc_m. split; [reflexivity | lia].
  - rewrite iter_shr_1_m by now rewrite shr_record_of_loc_m.
    rewrite shr_record_of_loc_m. split; reflexivity.
  - rewrite shr_record_of_loc_m. split; [reflexivity | lia].
Qed.

Lemma round_nearest_even_bounds m l :
  m <= round_nearest_even m l <= m + 1.
Proof.
  destruct l as [|[]]; simpl; try lia. destruct (Z.even m); lia.
Qed.

Lemma binary_round_aux_sign s m e l :
  0 <= m -> sf_sign (binary_round_aux prec emax s m e l) = Some s.
Proof.
  intros Hm. unfold binary_round_aux.
  destruct (shr_fexp_spec m e l Hm) as [H1 _].
  destruct (shr_fexp prec emax m e l) as [mrs1 e1]. simpl in H1.
  set (m1 := round_nearest_even (shr_m mrs1) (loc_of_shr_record mrs1)).
  assert (Hm1 : 0 <= m1).
  { pose proof (round_nearest_even_bounds (shr_m mrs1) (loc_of_shr_record mrs1)).
    assert (0 <= shr_m mrs1) by (rewrite H1; now apply Z.shiftr_nonneg).
    unfold m1. lia. }
  destruct (shr_fexp_spec m1 e1 loc_Exact Hm1) as [H2 _].
  destruct (shr_fexp prec emax m1 e1 loc_Exact) as [mrs2 e2]. simpl in H2.
  assert (0 <= shr_m mrs2) by (rewrite H2; now apply Z.shiftr_nonneg).
  destruct (shr_m mrs2); try lia; trivial.
  now destruct (_ <=? _).
Qed.

Lemma binary_normalize_sign m e :
  0 <= m -> sf_sign (binary_normalize prec emax m e false) = Some false.
Proof.
  destruct m; simpl; try lia; trivial. intros _. unfold binary_round.
  destruct (shl_align _ _ _). now apply binary_round_aux_sign.
Qed.

Lemma SFdiv_core_binary_nonneg m1 e1 m2 e2 :
  0 <= m1 -> 0 < m2 ->
  0 <= fst (fst (SFdiv_core_binary prec emax m1 e1 m2 e2)).
Proof.
  intros H1 H2. unfold SFdiv_core_binary.
  set (e' := Z.min _ _). set (m' := match _ with Z0 => m1 | _ => _ end).
  assert (Hm' : 0 <= m').
  { unfold m'. destruct (e1 - e2 - e'); try lia. now apply Z.shiftl_nonneg. }
  pose proof (Z_div_mod m' m2 ltac:(lia)) as Hd.
  destruct (Z.div_eucl m' m2) as [q r]. simpl. nia.
Qed.

Local Close Scope Z_scope.

Lemma sign_false_nonneg x : sf_sign x = Some false -> sf_nonneg x = true.
Proof. destruct x as [[]|[]| |[] ? ?]; simpl; trivial; discriminate. Qed.

Lemma sign_true_nonpos x : sf_sign x = Some true -> sf_nonpos x = true.
Proof. destruct x as [[]|[]| |[] ? ?]; simpl; trivial; discriminate. Qed.

Ltac by_cases x y :=
  destruct x as [[]|[]| |[] ? ?], y as [[]|[]| |[] ? ?];
  simpl; intros; try discriminate; trivial.

Lemma SFdiv_finite_sign s1 m1 e1 s2 m2 e2 :
  sf_sign (SF64div (S754_finite s1 m1 e1) (S754_finite s2 m2 e2)) = Some (xorb s1 s2).
Proof.
  unfold SF64div. simpl.
  pose proof (SFdiv_core_binary_nonneg (Zpos m1) e1 (Zpos m2) e2) as H.
  destruct (SFdiv_core_binary _ _ _ _ _ _) as [[q e] l]. simpl in H.
  apply binary_round_aux_sign, H; lia.
Qed.

Lemma SFmul_finite_sign s1 m1 e1 s2 m2 e2 :
  sf_sign (SF64mul (S754_finite s1 m1 e1) (S754_finite s2 m2 e2)) = Some (xorb s1 s2).
Proof. unfold SF64mul. simpl. now apply binary_round_aux_sign. Qed.

Lemma SFdiv_nonneg x y :
  sf_nonneg x = true -> sf_pos y = true -> sf_inf x && sf_inf y = false ->
  sf_nonneg (SF64div x y) = true.
Proof.
  by_cases x y. apply sign_false_nonneg.
  exact (SFdiv_finite_sign false _ _ false _ _).
Qed.

Lemma SFdiv_nonpos x y :
  sf_nonpos x = true -> sf_pos y = true -> sf_inf x && sf_inf y = false ->
  sf_nonpos (SF64div x y) = true.
Proof.
  by_cases x y. apply sign_true_nonpos.
  exact (SFdiv_finite_sign true _ _ false _ _).
Qed.

Lemma SFmul_nonneg x y :
  sf_nonneg x = true -> sf_nonneg y = true ->
  sf_zero x && sf_inf y = false -> sf_inf x && sf_zero y = false ->
  sf_nonneg (SF64mul x y) = true.
Proof.
  by_cases x y. apply sign_false_nonneg.
  exact (SFmul_finite_sign false _ _ false _ _).
Qed.

Lemma SFmul_nonpos x y :
  sf_nonpos x = true -> sf_pos y = true ->
  sf_zero x && sf_inf y = false ->
  sf_nonpos (SF64mul x y) = true.
Proof.
  by_cases x y. apply sign_true_nonpos.
  exact (SFmul_finite_sign true _ _ false _ _).
Qed.

(** ** Dividing by one hundred cannot overflow *)

Local Open Scope Z_scope.

Lemma digits2_pos_size p : digits2_pos p = Pos.size p.
Proof. induction p; simpl; congruence. Qed.

Lemma Zdigits2_log2 m : 0 < m -> Zdigits2 m = Z.log2 m + 1.
Proof.
  destruct m as [|p|p]; try lia. intros _. simpl. rewrite digits2_pos_size.
  destruct p; simpl; lia.
Qed.

Lemma Zdigits2_le m k : 0 <= m -> 0 <= k -> m < 2 ^ k -> Zdigits2 m <= k.
Proof.
  intros Hm Hk H. destruct (Z.eq_dec m 0) as [->|Hn]; [simpl; lia|].
  rewrite Zdigits2_log2 by lia. apply Z.log2_lt_pow2 in H; lia.
Qed.

Lemma Zdigits2_lt m : 0 <= m -> m < 2 ^ Zdigits2 m.
Proof.
  intros Hm. destruct (Z.eq_dec m 0) as [->|Hn]; [simpl; lia|].
  rewrite Zdigits2_log2 by lia. apply Z.log2_spec. lia.
Qed.

Lemma Zdigits2_nonneg m : 0 <= Zdigits2 m.
Proof. destruct m; simpl; lia. Qed.

Lemma Zdigits2_succ m a : 0 <= a -> a <= m <= a + 1 -> Zdigits2 m <= Zdigits2 a + 1.
Proof.
  intros Ha Hm. apply Zdigits2_le; try lia.
  - pose proof (Zdigits2_nonneg a). lia.
  - pose proof (Zdigits2_lt a Ha). pose proof (Zdigits2_nonneg a).
    rewrite Z.pow_add_r by lia. change (2 ^ 1) with 2. lia.
Qed.

Lemma Zdigits2_shiftr m n :
  0 <= m -> 0 <= n -> Zdigits2 (Z.shiftr m n) <= Z.max 0 (Zdigits2 m - n).
Proof.
  intros Hm Hn. pose proof (Z.shiftr_nonneg m n) as H0.
  destruct (Z.eq_dec (Z.shiftr m n) 0) as [->|Hs]; [simpl; lia|].
  assert (0 < m).
  { destruct (Z.eq_dec m 0) as [->|]; [now rewrite Z.shiftr_0_l in Hs | lia]. }
  destruct (Z_lt_le_dec (Z.log2 m) n) as [Hl|Hl].
  { exfalso. apply Hs, Z.shiftr_eq_0; lia. }
  rewrite (Zdigits2_log2 (Z.shiftr m n)), (Zdigits2_log2 m) by lia.
  rewrite Z.log2_shiftr by lia. lia.
Qed.

Lemma binary_round_aux_no_overflow s m e l :
  0 <= m -> e <= 971 -> Zdigits2 m + e <= 1023 ->
  sf_inf (binary_round_aux prec emax s m e l) = false.
Proof.
  intros Hm He Hd. unfold binary_round_aux.
  destruct (shr_fexp_spec m e l Hm) as [H1 E1].
  destruct (shr_fexp prec emax m e l) as [mrs1 e1]. simpl in H1, E1.
  set (n1 := Z.max 0 (fexp prec emax (Zdigits2 m + e) - e)) in *.
  set (m1 := round_nearest_even (shr_m mrs1) (loc_of_shr_record mrs1)).
  pose proof (round_nearest_even_bounds (shr_m mrs1) (loc_of_shr_record mrs1)) as Hr.
  fold m1 in Hr.
  assert (Ha : 0 <= shr_m mrs1) by (rewrite H1; apply Z.shiftr_nonneg; trivial).
  assert (Hm1 : 0 <= m1) by lia.
  assert (He1 : e1 <= 971).
  { subst e1 n1. unfold fexp, SpecFloat.emin, prec, emax. lia. }
  assert (Hd1 : Zdigits2 m1 + e1 <= 1024).
  { pose proof (Zdigits2_succ m1 (shr_m mrs1) Ha Hr) as H2.
    pose proof (Zdigits2_shiftr m n1 Hm ltac:(unfold n1; lia)) as H3.
    rewrite <- H1 in H3. lia. }
  destruct (shr_fexp_spec m1 e1 loc_Exact Hm1) as [H2 E2].
  destruct (shr_fexp prec emax m1 e1 loc_Exact) as [mrs2 e2]. simpl in H2, E2.
  assert (He2 : e2 <= 971).
  { subst e2. unfold fexp, SpecFloat.emin, prec, emax. lia. }
  destruct (shr_m mrs2); trivial.
  replace (e2 <=? emax - prec) with true; trivial.
  symmetry. apply Z.leb_le. unfold emax, prec. lia.
Qed.

Lemma valid_finite_bounds s m e :
  valid_binary (S754_finite s m e) = true ->
  -1074 <= e <= 971 /\ Zdigits2 (Zpos m) <= 53.
Proof.
  unfold SpecFloat.valid_binary, bounded, canonical_mantissa. simpl.
  intros H. apply andb_true_iff in H as [H1 H2].
  apply Z.eqb_eq in H1. apply Z.leb_le in H2.
  unfold fexp, SpecFloat.emin, prec, emax in *. lia.
Qed.

Lemma SF_100 : Prim2SF 100 = S754_finite false 7036874417766400 (-46).
Proof. reflexivity. Qed.

Lemma SFdiv_100_no_overflow s m e :
  valid_binary (S754_finite s m e) = true ->
  sf_inf (SF64div (S754_finite s m e) (S754_finite false 7036874417766400 (-46))) = false.
Proof.
  intros Hv. apply valid_finite_bounds in Hv as [He Hd].
  unfold SF64div, SFdiv.
  pose proof (SFdiv_core_binary_nonneg (Zpos m) e 7036874417766400 (-46)
                ltac:(lia) ltac:(lia)) as Hq.
  destruct (SFdiv_core_binary prec emax (Zpos m) e 7036874417766400 (-46))
    as [[q e'] l] eqn:E.
  simpl in Hq. unfold SFdiv_core_binary in E.
  change (Zdigits2 7036874417766400) with 53 in E.
  set (d1 := Zdigits2 (Zpos m)) in *.
  set (e0 := Z.min (fexp prec emax (d1 + e - (53 + -46))) (e - -46)) in *.
  set (m' := match e - -46 - e0 with Z0 => Zpos m | Zpos _ => _ | Zneg _ => _ end) in *.
  assert (He0 : e0 <= e + 46 /\ e0 <= 971).
  { unfold e0, fexp, SpecFloat.emin, prec, emax. lia. }
  assert (Hm' : m' = Zpos m * 2 ^ (e + 46 - e0)).
  { unfold m'. replace (e - -46 - e0) with (e + 46 - e0) by lia.
    destruct (e + 46 - e0) eqn:Es; try lia.
    now rewrite Z.shiftl_mul_pow2 by lia. }
  pose proof (Z_div_mod m' 7036874417766400 ltac:(lia)) as Hdm.
  destruct (Z.div_eucl m' 7036874417766400) as [q0 r0].
  injection E as <- <- _. destruct Hdm as [Hdm Hr].
  apply binary_round_aux_no_overflow; try lia.
  pose proof (Zdigits2_lt (Zpos m) ltac:(lia)) as Hlt. fold d1 in Hlt.
  assert (Hd1 : 0 <= d1) by apply Zdigits2_nonneg.
  set (t := e + 46 - e0) in *.
  assert (Hb : q0 * 2 ^ 52 < 2 ^ (d1 + t)).
  { rewrite Z.pow_add_r by lia.
    assert (0 < 2 ^ t) by (apply Z.pow_pos_nonneg; lia).
    change (2 ^ 52) with 4503599627370496. nia. }
  destruct (Z_lt_le_dec (d1 + t) 52) as [Hs|Hs].
  - assert (2 ^ (d1 + t) <= 2 ^ 52) by (apply Z.pow_le_mono_r; lia).
    assert (q0 = 0) by nia. subst q0. simpl. lia.
  - assert (Zdigits2 q0 <= d1 + t - 52); [|lia].
    apply Zdigits2_le; try lia.
    replace (d1 + t) with (d1 + t - 52 + 52) in Hb by lia.
    rewrite Z.pow_add_r in Hb by lia. nia.
Qed.

Local Close Scope Z_scope.

(** ** The arithmetic of the scripts, on numbers *)

Lemma finite_not_inf x y :
  sf_finite x || sf_finite y = true -> sf_inf x && sf_inf y = false.
Proof. now destruct x, y. Qed.

Lemma nonneg_not_nan x : (0 <=? x) = true -> is_nan x = false.
Proof. intros H. now apply leb_not_nan in H. Qed.

Lemma pos_nonneg x : (0 <? x) = true -> (0 <=? x) = true.
Proof. apply ltb_leb. Qed.

Lemma div_nonneg x y :
  (0 <=? x) = true -> (0 <? y) = true -> is_finite x || is_finite y = true ->
  (0 <=? x / y) = true.
Proof.
  rewrite !leb_0_l, ltb_0_l, !is_finite_SF, div_spec. intros.
  apply SFdiv_nonneg; auto using finite_not_inf.
Qed.

Lemma div_nonpos x y :
  (x <=? 0) = true -> (0 <? y) = true -> is_finite x || is_finite y = true ->
  (x / y <=? 0) = true.
Proof.
  rewrite !leb_0_r, ltb_0_l, !is_finite_SF, div_spec. intros.
  apply SFdiv_nonpos; auto using finite_not_inf.
Qed.

Lemma mul_nonneg x y :
  (0 <=? x) = true -> (0 <=? y) = true -> is_finite x = true -> is_finite y = true ->
  (0 <=? x * y) = true.
Proof.
  rewrite !leb_0_l, !is_finite_SF, mul_spec. intros.
  apply SFmul_nonneg; trivial;
    destruct (Prim2SF x), (Prim2SF y); trivial; discriminate.
Qed.

(** Multiplying by a positive finite constant such as [100] or [12]. *)
Lemma mul_pos_nonneg x c :
  (0 <=? x) = true -> (0 <? c) = true -> is_finite c = true ->
  (0 <=? x * c) = true.
Proof.
  rewrite !leb_0_l, ltb_0_l, !is_finite_SF, mul_spec. intros.
  apply SFmul_nonneg; trivial;
    destruct (Prim2SF x), (Prim2SF c); trivial; discriminate.
Qed.

Lemma mul_pos_nonpos x c :
  (x <=? 0) = true -> (0 <? c) = true -> is_finite c = true ->
  (x * c <=? 0) = true.
Proof.
  rewrite !leb_0_r, ltb_0_l, !is_finite_SF, mul_spec. intros.
  apply SFmul_nonpos; trivial;
    destruct (Prim2SF x), (Prim2SF c); trivial; discriminate.
Qed.

Lemma div_100_finite x : is_finite x = true -> is_finite (x / 100) = true.
Proof.
  rewrite !is_finite_SF, div_spec, SF_100. pose proof (Prim2SF_valid x) as Hv.
  destruct (Prim2SF x) as [s|s| |s m e]; try discriminate; trivial.
  intros _. pose proof (SFdiv_100_no_overflow s m e Hv) as Hi.
  pose proof (SFdiv_finite_sign s m e false 7036874417766400 (-46)) as Hs.
  destruct (SF64div _ _); trivial; discriminate.
Qed.

Lemma sub_not_nan x y :
  is_finite x = true -> is_nan y = false -> is_nan (x - y) = false.
Proof.
  rewrite is_finite_SF, !is_nan_SF, sub_spec.
  destruct (Prim2SF x) as [s|s| |s m e], (Prim2SF y) as [s'|s'| |s' m' e'];
    simpl; intros; try discriminate; trivial.
  - now destruct s, s'.
  - unfold binary_normalize.
    match goal with |- context [match ?z with Z0 => _ | _ => _ end] =>
      destruct z end; trivial; unfold binary_round;
      destruct (shl_align _ _ _) as [mz ez];
      match goal with |- sf_nan (binary_round_aux _ _ ?s ?m ?e ?l) = false =>
        pose proof (binary_round_aux_sign s m e l ltac:(lia)) as Hs;
        destruct (binary_round_aux prec emax s m e l); trivial; discriminate
      end.
Qed.

Lemma of_uint63_sign n : sf_sign (Prim2SF (of_uint63 n)) = Some false.
Proof.
  rewrite of_uint63_spec. apply binary_normalize_sign.
  apply Uint63.to_Z_bounded.
Qed.

Lemma of_integer_nonneg n : (0 <= n)%Z -> (0 <=? of_integer false n) = true.
Proof.
  intros Hn. rewrite leb_0_l. destruct n; simpl; try lia; trivial.
  apply sign_false_nonneg, of_uint63_sign.
Qed.

Lemma of_integer_nonpos n : (n <= 0)%Z -> (of_integer true n <=? 0) = true.
Proof.
  intros Hn. rewrite leb_0_r. destruct n; simpl; try lia; trivial.
  rewrite opp_spec. pose proof (of_uint63_sign (Uint63.of_Z (Zpos p))) as H.
  destruct (Prim2SF _) as [[]|[]| |[] ? ?]; trivial; discriminate.
Qed.

Lemma Math_round_nonneg x : (0 <=? x) = true -> (0 <=? Math_round x) = true.
Proof.
  intros H. unfold Math_round. pose proof H as H'. rewrite leb_0_l in H'.
  destruct (Prim2SF x) as [s|s| |s m e] eqn:E; trivial.
  destruct s; [discriminate|]. destruct (0 <=? e)%Z eqn:Ee; trivial.
  apply Z.leb_gt in Ee.
  apply of_integer_nonneg. simpl. apply Z.div_pos.
  - pose proof (Z.pow_nonneg 2 (- e - 1)). lia.
  - apply Z.pow_pos_nonneg; lia.
Qed.

Lemma Math_round_nonpos x : (x <=? 0) = true -> (Math_round x <=? 0) = true.
Proof.
  intros H. unfold Math_round. pose proof H as H'. rewrite leb_0_r in H'.
  destruct (Prim2SF x) as [s|s| |s m e] eqn:E; trivial.
  destruct s; [|discriminate]. destruct (0 <=? e)%Z eqn:Ee; trivial.
  apply Z.leb_gt in Ee.
  apply of_integer_nonpos. simpl.
  assert (0 < 2 ^ (- e))%Z by (apply Z.pow_pos_nonneg; lia).
  assert (2 ^ (- e - 1) <= 2 ^ (- e))%Z by (apply Z.pow_le_mono_r; lia).
  assert ((Z.neg m + 2 ^ (- e - 1)) / 2 ^ (- e) < 1)%Z; [|lia].
  apply Z.div_lt_upper_bound; lia.
Qed.

Lemma Math_ceil_nonneg x : (0 <=? x) = true -> (0 <=? Math_ceil x) = true.
Proof.
  intros H. unfold Math_ceil. pose proof H as H'. rewrite leb_0_l in H'.
  destruct (Prim2SF x) as [s|s| |s m e] eqn:E; trivial.
  destruct s; [discriminate|]. destruct (0 <=? e)%Z eqn:Ee; trivial.
  apply Z.leb_gt in Ee.
  apply of_integer_nonneg. simpl.
  assert (0 < 2 ^ (- e))%Z by (apply Z.pow_pos_nonneg; lia).
  assert (Z.neg m / 2 ^ (- e) < 0)%Z; [|lia].
  apply Z.div_lt_upper_bound; lia.
Qed.

End FloatFacts.

(* ===================================================================== *)
(** * Sums of numbers that are not negative *)
(* ===================================================================== *)

Module SumFacts.
Import View FloatFacts.
Local Open Scope Z_scope.

Lemma fexp_mono a b : a <= b -> fexp prec emax a <= fexp prec emax b.
Proof. unfold fexp, SpecFloat.emin, prec, emax. lia. Qed.

Lemma fexp_ge_emin a : -1074 <= fexp prec emax a.
Proof. unfold fexp, SpecFloat.emin, prec, emax. lia. Qed.

Lemma Zdigits2_ge m : 0 < m -> 2 ^ (Zdigits2 m - 1) <= m.
Proof.
  intros Hm. rewrite Zdigits2_log2 by trivial.
  replace (Z.log2 m + 1 - 1) with (Z.log2 m) by lia.
  now apply Z.log2_spec.
Qed.

(** Shifting right keeps below it every canonical number that was below. *)
Lemma shr_fexp_lower m e l mb eb :
  0 < m -> -1074 <= e ->
  0 < mb -> eb = fexp prec emax (Zdigits2 mb + eb) ->
  scaled mb eb <= scaled m e ->
  scaled mb eb <= scaled (shr_m (fst (shr_fexp prec emax m e l)))
                         (snd (shr_fexp prec emax m e l)).
Proof.
  intros Hm He Hmb Hc Hle.
  destruct (shr_fexp_spec m e l ltac:(lia)) as [-> ->].
  set (n := Z.max 0 (fexp prec emax (Zdigits2 m + e) - e)).
  destruct (Z.eq_dec n 0) as [Hn|Hn].
  { rewrite Hn, Z.shiftr_0_r, Z.add_0_r. exact Hle. }
  assert (Hn' : n = fexp prec emax (Zdigits2 m + e) - e /\ 0 < n) by (unfold n in *; lia).
  destruct Hn' as [Hn1 Hn2].
  set (e' := e + n). assert (He' : e' = fexp prec emax (Zdigits2 m + e)) by (unfold e'; lia).
  rewrite Z.shiftr_div_pow2 by lia.
  unfold scaled in *.
  assert (Hpe : 2 ^ (e' + 1074) = 2 ^ n * 2 ^ (e + 1074)).
  { unfold e'. rewrite <- Z.pow_add_r by lia. f_equal. lia. }
  assert (H2n : 0 < 2 ^ n) by (apply Z.pow_pos_nonneg; lia).
  assert (H2e : 0 < 2 ^ (e + 1074)) by (apply Z.pow_pos_nonneg; lia).
  pose proof (Z.div_mod m (2 ^ n) ltac:(lia)) as Hdm.
  pose proof (Z.mod_pos_bound m (2 ^ n) H2n) as Hmod.
  (* the floor of [m] on the coarser grid *)
  assert (Hfloor : forall k, k * 2 ^ n <= m -> k <= m / 2 ^ n).
  { intros k Hk. apply Z.div_le_lower_bound; lia. }
  destruct (Z_le_gt_dec e' eb) as [Hge|Hlt].
  - (* the bound is on the grid *)
    assert (Hpb : 2 ^ (eb + 1074) = 2 ^ (eb - e') * 2 ^ (e' + 1074)).
    { rewrite <- Z.pow_add_r by lia. f_equal. lia. }
    rewrite Hpb, Hpe in *.
    assert (H2b : 0 <= 2 ^ (eb - e')) by (apply Z.pow_nonneg; lia).
    assert (mb * 2 ^ (eb - e') <= m / 2 ^ n).
    { apply Hfloor. nia. }
    nia.
  - (* the bound lies in a lower binade *)
    assert (Hd : Zdigits2 mb + eb < Zdigits2 m + e).
    { destruct (Z_lt_le_dec (Zdigits2 mb + eb) (Zdigits2 m + e)); trivial.
      pose proof (fexp_mono (Zdigits2 m + e) (Zdigits2 mb + eb) ltac:(lia)). lia. }
    pose proof (fexp_ge_emin (Zdigits2 mb + eb)) as Hebmin.
    assert (He'd : e' = Zdigits2 m + e - 53).
    { rewrite He'. unfold fexp, SpecFloat.emin, prec, emax in *. lia. }
    pose proof (Zdigits2_lt mb ltac:(lia)) as Hmblt.
    pose proof (Zdigits2_ge m Hm) as Hmge.
    pose proof (Zdigits2_nonneg mb) as Hdb.
    assert (Hdm1 : 0 < Zdigits2 m) by (rewrite Zdigits2_log2 by trivial; pose proof (Z.log2_nonneg m); lia).
    (* P = 2^(digits m - 1) is a multiple of 2^n below m *)
    assert (HP : 2 ^ (Zdigits2 m - 1) = 2 ^ (Zdigits2 m - 1 - n) * 2 ^ n).
    { rewrite <- Z.pow_add_r by lia. f_equal. lia. }
    assert (0 < 2 ^ (Zdigits2 m - 1 - n)) by (apply Z.pow_pos_nonneg; lia).
    assert (Hq : 2 ^ (Zdigits2 m - 1 - n) <= m / 2 ^ n).
    { apply Hfloor. lia. }
    (* the bound is below P *)
    assert (Hb : mb * 2 ^ (eb + 1074) < 2 ^ (Zdigits2 m - 1 - n) * 2 ^ (e' + 1074)).
    { assert (mb * 2 ^ (eb + 1074) < 2 ^ (Zdigits2 mb) * 2 ^ (eb + 1074)).
      { apply Z.mul_lt_mono_pos_r; trivial. apply Z.pow_pos_nonneg; lia. }
      assert (2 ^ Zdigits2 mb * 2 ^ (eb + 1074) <= 2 ^ (Zdigits2 m - 1 - n) * 2 ^ (e' + 1074)).
      { rewrite <- !Z.pow_add_r by lia. apply Z.pow_le_mono_r; lia. }
      lia. }
    assert (0 < 2 ^ (e' + 1074)) by (apply Z.pow_pos_nonneg; lia).
    nia.
Qed.

Lemma scaled_pos m e : 0 < m -> -1074 <= e -> 0 < scaled m e.
Proof.
  intros Hm He. unfold scaled.
  assert (0 < 2 ^ (e + 1074)) by (apply Z.pow_pos_nonneg; lia). nia.
Qed.

Lemma scaled_mono m m' e : -1074 <= e -> m <= m' -> scaled m e <= scaled m' e.
Proof.
  intros He Hm. unfold scaled.
  assert (0 < 2 ^ (e + 1074)) by (apply Z.pow_pos_nonneg; lia). nia.
Qed.

Lemma scaled_pos_inv m e : -1074 <= e -> 0 < scaled m e -> 0 < m.
Proof.
  intros He. unfold scaled.
  assert (0 < 2 ^ (e + 1074)) by (apply Z.pow_pos_nonneg; lia). nia.
Qed.

(** Rounding keeps below it every canonical number that was below. *)
Lemma binary_round_aux_lower m e l mb eb :
  0 < m -> -1074 <= e ->
  0 < mb -> -1074 <= eb -> eb = fexp prec emax (Zdigits2 mb + eb) ->
  scaled mb eb <= scaled m e ->
  match binary_round_aux prec emax false m e l with
  | S754_finite false m2 e2 => scaled mb eb <= scaled (Zpos m2) e2
  | S754_infinity false => True
  | _ => False
  end.
Proof.
  intros Hm He Hmb Heb Hc Hle. unfold binary_round_aux.
  pose proof (shr_fexp_lower m e l mb eb Hm He Hmb Hc Hle) as H1.
  destruct (shr_fexp_spec m e l ltac:(lia)) as [_ E1].
  destruct (shr_fexp prec emax m e l) as [mrs1 e1]. simpl in H1, E1.
  set (m1 := round_nearest_even (shr_m mrs1) (loc_of_shr_record mrs1)).
  pose proof (round_nearest_even_bounds (shr_m mrs1) (loc_of_shr_record mrs1)) as Hr.
  fold m1 in Hr.
  assert (He1 : -1074 <= e1) by lia.
  assert (H1' : scaled mb eb <= scaled m1 e1).
  { etransitivity; [exact H1|]. apply scaled_mono; lia. }
  assert (Hm1 : 0 < m1).
  { apply (scaled_pos_inv m1 e1); trivial.
    pose proof (scaled_pos mb eb Hmb Heb). lia. }
  pose proof (shr_fexp_lower m1 e1 loc_Exact mb eb Hm1 He1 Hmb Hc H1') as H2.
  destruct (shr_fexp_spec m1 e1 loc_Exact ltac:(lia)) as [_ E2].
  destruct (shr_fexp prec emax m1 e1 loc_Exact) as [mrs2 e2]. simpl in H2, E2.
  assert (He2 : -1074 <= e2) by lia.
  assert (Hm2 : 0 < shr_m mrs2).
  { apply (scaled_pos_inv _ e2); trivial.
    pose proof (scaled_pos mb eb Hmb Heb). lia. }
  destruct (shr_m mrs2) as [|m2|m2]; try lia.
  now destruct (e2 <=? emax - prec).
Qed.

Lemma iter_xO m d : Zpos (Pos.iter xO m d) = Zpos m * 2 ^ Zpos d.
Proof.
  induction d as [|d IH] using Pos.peano_ind.
  - simpl. lia.
  - rewrite Pos.iter_succ, Pos2Z.inj_xO, IH, Pos2Z.inj_succ, Z.pow_succ_r by lia. lia.
Qed.

(** Aligning a mantissa to a lower exponent does not change its value. *)
Lemma shl_align_scaled m e e' :
  -1074 <= e -> -1074 <= e' ->
  scaled (Zpos (fst (shl_align m e e'))) (snd (shl_align m e e')) = scaled (Zpos m) e /\
  snd (shl_align m e e') = Z.min e e'.
Proof.
  intros He He'. unfold shl_align.
  destruct (e' - e) as [|d|d] eqn:E; simpl; [split; [reflexivity|lia]..|].
  rewrite <- Pos2Z.opp_pos in E.
  split; [|lia]. rewrite iter_xO. unfold scaled.
  replace (e + 1074) with (e' + 1074 + Zpos d) by lia.
  rewrite (Z.pow_add_r 2 (e' + 1074) (Zpos d)) by lia. lia.
Qed.

Lemma canonical_valid s m e :
  valid_binary (S754_finite s m e) = true ->
  e = fexp prec emax (Zdigits2 (Zpos m) + e).
Proof.
  unfold SpecFloat.valid_binary, bounded, canonical_mantissa. simpl.
  intros H. apply andb_true_iff in H as [H1 _]. apply Z.eqb_eq in H1. lia.
Qed.

(** On canonical numbers the order by exponent, then mantissa, is the order
    of the values. *)
Lemma SFleb_scaled m e m' e' :
  valid_binary (S754_finite false m e) = true ->
  valid_binary (S754_finite false m' e') = true ->
  scaled (Zpos m) e <= scaled (Zpos m') e' ->
  SFleb (S754_finite false m e) (S754_finite false m' e') = true.
Proof.
  intros Hv Hv' Hle. unfold SFleb, SFcompare.
  pose proof (canonical_valid _ _ _ Hv) as Hc.
  apply valid_finite_bounds in Hv as [He Hd].
  apply valid_finite_bounds in Hv' as [He' Hd'].
  destruct (Z.compare_spec e e') as [->|Hlt|Hgt]; trivial.
  - rewrite Pos.compare_cont_spec. simpl.
    destruct (Pos.compare_spec m m') as [->|?|Hgt]; trivial.
    exfalso. unfold scaled in Hle.
    assert (0 < 2 ^ (e' + 1074)) by (apply Z.pow_pos_nonneg; lia). nia.
  - exfalso. unfold scaled in Hle.
    assert (Hn : Zdigits2 (Zpos m) = 53).
    { unfold fexp, SpecFloat.emin, prec, emax in Hc. lia. }
    pose proof (Zdigits2_ge (Zpos m) ltac:(lia)) as Hm. rewrite Hn in Hm.
    pose proof (Zdigits2_lt (Zpos m') ltac:(lia)) as Hm'.
    assert (2 ^ Zdigits2 (Zpos m') <= 2 ^ 53) by (apply Z.pow_le_mono_r; lia).
    assert (Hp : 2 ^ (e + 1074) = 2 ^ (e - e') * 2 ^ (e' + 1074)).
    { rewrite <- Z.pow_add_r by lia. f_equal. lia. }
    assert (2 ^ 1 <= 2 ^ (e - e')) by (apply Z.pow_le_mono_r; lia).
    assert (0 < 2 ^ (e' + 1074)) by (apply Z.pow_pos_nonneg; lia).
    rewrite Hp in Hle. change (2 ^ 1) with 2 in *. change (2 ^ (53 - 1)) with 4503599627370496 in *.
    change (2 ^ 53) with 9007199254740992 in *. nia.
Qed.

(** The sum of two positive finite numbers is at least the second. *)
Lemma SFadd_finite_ge mx ex my ey :
  valid_binary (S754_finite false mx ex) = true ->
  valid_binary (S754_finite false my ey) = true ->
  valid_binary (SF64add (S754_finite false mx ex) (S754_finite false my ey)) = true ->
  SFleb (S754_finite false my ey)
        (SF64add (S754_finite false mx ex) (S754_finite false my ey)) = true.
Proof.
  intros Hx Hy. pose proof (canonical_valid _ _ _ Hy) as Hc.
  pose proof (valid_finite_bounds _ _ _ Hx) as [Hex _].
  pose proof (valid_finite_bounds _ _ _ Hy) as [Hey _].
  unfold SF64add, SFadd. cbn [cond_Zopp].
  set (ez := Z.min ex ey).
  destruct (shl_align_scaled mx ex ez ltac:(lia) ltac:(lia)) as [Vx _].
  destruct (shl_align_scaled my ey ez ltac:(lia) ltac:(lia)) as [Vy Ey].
  assert (Ex : snd (shl_align mx ex ez) = ez).
  { destruct (shl_align_scaled mx ex ez ltac:(lia) ltac:(lia)) as [_ ->]. unfold ez. lia. }
  replace (snd (shl_align my ey ez)) with ez in Vy by (rewrite Ey; unfold ez; lia).
  rewrite Ex in Vx.
  set (mx' := fst (shl_align mx ex ez)) in *. set (my' := fst (shl_align my ey ez)) in *.
  change (Zpos mx' + Zpos my') with (Zpos (mx' + my')).
  unfold binary_normalize, binary_round.
  set (S := (mx' + my')%positive).
  destruct (shl_align_scaled S ez (fexp prec emax (Zpos (digits2_pos S) + ez))
              ltac:(lia) (fexp_ge_emin _)) as [Vs Es].
  destruct (shl_align S ez _) as [mz e0]. simpl in Vs, Es.
  assert (He0 : -1074 <= e0).
  { rewrite Es. pose proof (fexp_ge_emin (Zpos (digits2_pos S) + ez)). lia. }
  assert (Hle : scaled (Zpos my) ey <= scaled (Zpos mz) e0).
  { rewrite Vs, <- Vy. apply scaled_mono; [lia|]. unfold S. lia. }
  pose proof (binary_round_aux_lower (Zpos mz) e0 loc_Exact (Zpos my) ey
                ltac:(lia) He0 ltac:(lia) ltac:(lia) Hc Hle) as H.
  destruct (binary_round_aux prec emax false (Zpos mz) e0 loc_Exact)
    as [[]|[]| |[] m2 e2]; try contradiction; trivial.
  intros Hv. now apply SFleb_scaled.
Qed.

Local Close Scope Z_scope.

(** Adding a number that is not negative does not decrease a number that is
    not negative. *)
Lemma add_ge_r x y :
  (0 <=? x) = true -> (0 <=? y) = true -> (y <=? x + y) = true.
Proof.
  rewrite !leb_0_l, FloatAxioms.leb_spec, add_spec.
  pose proof (Prim2SF_valid x) as Hx. pose proof (Prim2SF_valid y) as Hy.
  pose proof (Prim2SF_valid (x + y)) as Hxy. rewrite add_spec in Hxy.
  destruct (Prim2SF x) as [[]|[]| |[] mx ex], (Prim2SF y) as [[]|[]| |[] my ey];
    try discriminate; intros _ _; try reflexivity.
  all: try (unfold SF64add, SFadd, SFleb, SFcompare;
            rewrite ?Z.compare_refl, ?Pos.compare_cont_refl; reflexivity).
  now apply SFadd_finite_ge.
Qed.

Lemma add_nonneg x y :
  (0 <=? x) = true -> (0 <=? y) = true -> (0 <=? x + y) = true.
Proof.
  rewrite !leb_0_l, add_spec.
  destruct (Prim2SF x) as [[]|[]| |[] mx ex], (Prim2SF y) as [[]|[]| |[] my ey];
    try discriminate; intros _ _; try reflexivity.
  unfold SF64add, SFadd. cbn [cond_Zopp].
  match goal with
  | |- sf_nonneg (binary_normalize _ _ ?m ?e false) = true =>
      pose proof (binary_normalize_sign m e ltac:(lia)) as H;
      destruct (binary_normalize prec emax m e false) as [[]|[]| |[] ? ?];
      simpl in H |- *; congruence
  end.
Qed.

Lemma sum_nonneg (l : list float) a :
  forallb (PrimFloat.leb 0) l = true -> (0 <=? a) = true ->
  (0 <=? fold_left PrimFloat.add l a) = true.
Proof.
  revert a. induction l as [|c l IH]; simpl; intros a Hl Ha; trivial.
  apply andb_true_iff in Hl as [Hc Hl]. apply IH; trivial. now apply add_nonneg.
Qed.

End SumFacts.

(* ===================================================================== *)
(** * Facts about the resolver *)
(* ===================================================================== *)

Module ResolverFacts.
Import FloatFacts Calculator Documented.

Lemma not_infinity_SF x : x <> infinity -> Prim2SF x <> S754_infinity false.
Proof. intros H E. apply H, Prim2SF_inj. now rewrite E. Qed.

(** A number that is at least a finite bound and is not [+Infinity] is finite. *)
Lemma finite_above lo x :
  (lo <=? x) = true -> is_finite lo = true -> x <> infinity -> is_finite x = true.
Proof.
  intros H Hlo Hx. apply not_infinity_SF in Hx. revert H Hlo Hx.
  rewrite !is_finite_SF, FloatAxioms.leb_spec. unfold SFleb.
  destruct (Prim2SF lo) as [[]|[]| |[] ? ?], (Prim2SF x) as [[]|[]| |[] ? ?];
    simpl; intros; try discriminate; trivial; congruence.
Qed.



(** The row a property type selects is one of the three of the table. *)
Lemma rows pt r :
  propDefaults_of pt = Some r -> r = commercial \/ r = golf \/ r = athletic.
Proof.
  unfold propDefaults_of, PROPERTY_DEFAULTS. destruct pt; try (intros [= <-]; auto).
  repeat (destruct (String.eqb _ _); [intros [= <-]; auto|]).
  destruct (existsb _ _); [discriminate | intros [= <-]; auto].
Qed.



Lemma number_or_not_infinity n d :
  d <> infinity -> n <> infinity -> number_or n d <> infinity.
Proof. unfold number_or. now destruct (falsy_number n). Qed.






Ltac field_projections :=
  cbn [value_of resolveInputs range_min range_max default_of key propertyType
       acreage seasonWeeks employees hourlyRate mowingTimePercent
       monthlyContract benefitsRate fuelCostPerGallon laborReduction
       bufferTime annualLaborIncrease fuelPerAcre annualFuelIncrease
       baseEquipmentCost equipmentCostPerAcre maintenanceRate
       insuranceRate leasingPremium roboticMaintenance
       electricityPerAcre co2PerGallon mowingTimePerAcre
       automationLevel desiredMowingTime].




End ResolverFacts.

(* ===================================================================== *)
(** * Facts about the engine *)
(* ===================================================================== *)

Module EngineFacts.
Import FloatFacts Calculator.

Lemma round_2 v : round v 2 = Math_round (v * 100) / 100.
Proof. reflexivity. Qed.

Lemma round_1 v : round v 1 = Math_round (v * 10) / 10.
Proof. reflexivity. Qed.

Lemma round_2_nonneg v : (0 <=? v) = true -> (0 <=? round v 2) = true.
Proof.
  intros H. rewrite round_2. apply div_nonneg; try reflexivity.
  - apply Math_round_nonneg, mul_pos_nonneg; trivial.
  - apply orb_true_r.
Qed.

Lemma round_2_nonpos v : (v <=? 0) = true -> (round v 2 <=? 0) = true.
Proof.
  intros H. rewrite round_2. apply div_nonpos; try reflexivity.
  - apply Math_round_nonpos, mul_pos_nonpos; trivial.
  - apply orb_true_r.
Qed.

Lemma round_1_nonneg v : (0 <=? v) = true -> (0 <=? round v 1) = true.
Proof.
  intros H. rewrite round_1. apply div_nonneg; try reflexivity.
  - apply Math_round_nonneg, mul_pos_nonneg; trivial.
  - apply orb_true_r.
Qed.

Lemma is_nan_eq x : is_nan x = true -> x = nan.
Proof.
  rewrite is_nan_SF. intros H. apply Prim2SF_inj.
  destruct (Prim2SF x); try discriminate. reflexivity.
Qed.

Lemma nan_div_l y : nan / y = nan.
Proof. apply Prim2SF_inj. now rewrite div_spec. Qed.

Lemma nan_div_r x : x / nan = nan.
Proof.
  apply Prim2SF_inj. rewrite div_spec.
  change (Prim2SF nan) with S754_nan. now destruct (Prim2SF x).
Qed.

(** [Math.max(Number(v) || 0, 0)], the guard on both investment figures. *)
Lemma guard_nonneg v :
  (0 <=? Math_max (number_or (ToNumber v) 0) 0) = true.
Proof.
  apply Math_max_spec; [|reflexivity]. now apply number_or_not_nan.
Qed.

Lemma nonneg_cases x :
  (0 <=? x) = true ->
  (x =? 0) = true /\ (0 <? x) = false \/ (x =? 0) = false /\ (0 <? x) = true.
Proof.
  rewrite leb_0_l, eqb_0_r, ltb_0_l.
  destruct (Prim2SF x) as [[]|[]| |[] ? ?]; simpl; auto; discriminate.
Qed.

Lemma sign_cases x :
  (x <=? 0) = true /\ (0 <? x) = false /\ is_nan x = false \/
  (x <=? 0) = false /\ (0 <? x) = true /\ is_nan x = false \/
  (x <=? 0) = false /\ (0 <? x) = false /\ is_nan x = true.
Proof.
  rewrite leb_0_r, ltb_0_l, is_nan_SF.
  destruct (Prim2SF x) as [[]|[]| |[] ? ?]; simpl; auto.
Qed.

(** Two numbers with different bits are different. *)
Lemma neq_by_bits x y : PrimFloat.Leibniz.eqb x y = false -> x <> y.
Proof.
  intros H E. apply FloatAxioms.Leibniz.eqb_spec in E. congruence.
Qed.

End EngineFacts.

(* ===================================================================== *)
(** * Facts about the recommender *)
(* ===================================================================== *)

Module EquipmentFacts.
Import FloatFacts Equipment Sizing.

Lemma lowered_type_ok pt :
  type_ok pt -> exists s, lowered_type pt = Normal s.
Proof.
  unfold lowered_type, or_else. intros [H | [s ->]].
  - rewrite H. eauto.
  - destruct (ToBoolean (Str s)); eauto.
Qed.

Lemma chosen_model data short :
  models data <> [] ->
  exists m,
    match getModelByShortName data short with
    | Some m => Some m
    | None => head (models data)
    end = Some m /\ In m (models data).
Proof.
  intros Hne. unfold getModelByShortName.
  destruct (find _ _) as [m|] eqn:E.
  - exists m. split; trivial. now apply find_some in E.
  - destruct (models data) as [|m t]; [contradiction|].
    exists m. split; trivial. now left.
Qed.

Lemma sanitized_acreage n :
  n <> infinity ->
  (0 <=? Math_max 0 (number_or n 0)) = true /\
  is_finite (Math_max 0 (number_or n 0)) = true.
Proof.
  intros Hn.
  assert (Hx : is_nan (number_or n 0) = false) by now apply number_or_not_nan.
  destruct (Math_max_spec 0 (number_or n 0) eq_refl Hx) as (Hc & H1 & H2).
  split; trivial. apply (ResolverFacts.finite_above 0); trivial.
  intros E. destruct Hc as [Hc|Hc]; rewrite Hc in E; [discriminate|].
  revert E. apply ResolverFacts.number_or_not_infinity; [discriminate | trivial].
Qed.

Lemma sanitized_level n :
  (0 <=? Math_min 100 (Math_max 0 (number_or n 0))) = true /\
  (Math_min 100 (Math_max 0 (number_or n 0)) <=? 100) = true /\
  is_finite (Math_min 100 (Math_max 0 (number_or n 0))) = true.
Proof.
  assert (Hx : is_nan (number_or n 0) = false) by now apply number_or_not_nan.
  destruct (Math_max_spec 0 (number_or n 0) eq_refl Hx) as (_ & H1 & _).
  assert (Hm : is_nan (Math_max 0 (number_or n 0)) = false)
    by now apply leb_not_nan in H1.
  destruct (Math_min_spec 100 (Math_max 0 (number_or n 0)) eq_refl Hm) as (Hc & H2 & _).
  assert (H0 : (0 <=? Math_min 100 (Math_max 0 (number_or n 0))) = true).
  { destruct Hc as [-> | ->]; trivial. }
  repeat split; trivial. now apply (range_finite 0 100).
Qed.

Lemma units_at_least_one target cov :
  (0 <=? target) = true -> (0 <? cov) = true -> is_finite cov = true ->
  (1 <=? Math_max 1 (Math_ceil (target / cov))) = true.
Proof.
  intros Ht Hc Hf.
  assert (H : (0 <=? Math_ceil (target / cov)) = true).
  { apply Math_ceil_nonneg, div_nonneg; trivial. rewrite Hf. apply orb_true_r. }
  apply nonneg_not_nan in H.
  now destruct (Math_max_spec 1 (Math_ceil (target / cov)) eq_refl H) as (_ & H1 & _).
Qed.

Lemma fallback_ok : catalog_ok FALLBACK_DATA.
Proof. split; [discriminate|]. repeat constructor. Qed.

End EquipmentFacts.

(* ===================================================================== *)
(** * Facts about signs, order and bounds *)
(* ===================================================================== *)

Module SignFacts.
Import View Order FloatFacts Calculator EngineFacts.

Lemma sign_false_not_negative x : sf_sign x = Some false -> sf_not_negative x = true.
Proof. destruct x as [[]|[]| |[] ? ?]; simpl; congruence. Qed.

Lemma ltb_0_r x : (x <? 0) = negb (sf_not_negative (Prim2SF x)).
Proof.
  rewrite FloatAxioms.ltb_spec, SF_zero.
  destruct (Prim2SF x) as [[]|[]| |[] ? ?]; reflexivity.
Qed.

Lemma not_negative_SF x : (x <? 0) = false <-> sf_not_negative (Prim2SF x) = true.
Proof. rewrite ltb_0_r. now destruct (sf_not_negative _). Qed.

Lemma not_negative_cases x :
  (x <? 0) = false <-> is_nan x = true \/ (0 <=? x) = true.
Proof.
  rewrite ltb_0_r, is_nan_SF, leb_0_l.
  destruct (Prim2SF x) as [[]|[]| |[] ? ?]; simpl; intuition discriminate.
Qed.

Lemma nonneg_not_negative x : (0 <=? x) = true -> (x <? 0) = false.
Proof. intros H. apply not_negative_cases. now right. Qed.

Lemma mul_not_negative x y :
  (x <? 0) = false -> (y <? 0) = false -> (x * y <? 0) = false.
Proof.
  rewrite !not_negative_SF, mul_spec.
  destruct (Prim2SF x) as [[]|[]| |[] mx ex], (Prim2SF y) as [[]|[]| |[] my ey];
    try discriminate; intros _ _; try reflexivity.
  apply sign_false_not_negative. exact (SFmul_finite_sign false _ _ false _ _).
Qed.

Lemma add_not_negative x y :
  (x <? 0) = false -> (y <? 0) = false -> (x + y <? 0) = false.
Proof.
  rewrite !not_negative_SF, add_spec.
  destruct (Prim2SF x) as [[]|[]| |[] mx ex], (Prim2SF y) as [[]|[]| |[] my ey];
    try discriminate; intros _ _; try reflexivity.
  unfold SF64add, SFadd. cbn [cond_Zopp].
  apply sign_false_not_negative, binary_normalize_sign. lia.
Qed.

Lemma div_not_negative x y :
  (x <? 0) = false -> (0 <? y) = true -> (x / y <? 0) = false.
Proof.
  rewrite !not_negative_SF, ltb_0_l, div_spec.
  destruct (Prim2SF x) as [[]|[]| |[] mx ex], (Prim2SF y) as [[]|[]| |[] my ey];
    try discriminate; intros _ _; try reflexivity.
  apply sign_false_not_negative. exact (SFdiv_finite_sign false _ _ false _ _).
Qed.

Lemma nan_mul_l y : nan * y = nan.
Proof. apply Prim2SF_inj. now rewrite mul_spec. Qed.

Lemma Math_round_nan : Math_round nan = nan.
Proof. reflexivity. Qed.

Lemma Math_round_not_negative x : (x <? 0) = false -> (Math_round x <? 0) = false.
Proof.
  intros [H|H]%not_negative_cases.
  - now rewrite (is_nan_eq _ H).
  - now apply nonneg_not_negative, Math_round_nonneg.
Qed.

Lemma round_2_not_negative v : (v <? 0) = false -> (round v 2 <? 0) = false.
Proof.
  intros H. rewrite round_2. apply div_not_negative; [|reflexivity].
  apply Math_round_not_negative, mul_not_negative; trivial.
Qed.

Lemma round_1_not_negative v : (v <? 0) = false -> (round v 1 <? 0) = false.
Proof.
  intros H. rewrite round_1. apply div_not_negative; [|reflexivity].
  apply Math_round_not_negative, mul_not_negative; trivial.
Qed.

(** A number at least a number that is not negative is not negative. *)
Lemma leb_not_negative lo x :
  (0 <=? lo) = true -> (lo <=? x) = true -> (x <? 0) = false.
Proof.
  rewrite leb_0_l, not_negative_SF, FloatAxioms.leb_spec. unfold SFleb.
  destruct (Prim2SF lo) as [[]|[]| |[] ? ?], (Prim2SF x) as [[]|[]| |[] ? ?];
    simpl; intros; try discriminate; trivial.
Qed.

Lemma Math_max_not_negative_l lo x :
  (0 <=? lo) = true -> (Math_max lo x <? 0) = false.
Proof.
  intros Hlo. destruct (is_nan x) eqn:Hx.
  - unfold Math_max. rewrite Hx, orb_true_r. reflexivity.
  - apply (leb_not_negative lo); trivial.
    apply Math_max_spec; trivial. now apply nonneg_not_nan.
Qed.

Lemma Math_max_not_negative_r lo x :
  (0 <=? lo) = true -> (Math_max x lo <? 0) = false.
Proof.
  intros Hlo. destruct (is_nan x) eqn:Hx.
  - unfold Math_max. rewrite Hx. reflexivity.
  - apply (leb_not_negative lo); trivial.
    apply Math_max_spec; trivial. now apply nonneg_not_nan.
Qed.

Lemma clamp_not_negative x lo hi :
  (0 <=? lo) = true -> (clamp x lo hi <? 0) = false.
Proof. intros H. now apply Math_max_not_negative_l. Qed.

End SignFacts.

Module OrderFacts.
Import View Order FloatFacts.
Local Open Scope Z_scope.

Lemma valid_mantissa s m e :
  valid_binary (S754_finite s m e) = true ->
  -1074 <= e <= 971 /\ 0 < Zpos m < 2 ^ 53.
Proof.
  intros H. apply valid_finite_bounds in H as [He Hd]. split; trivial.
  split; [lia|]. pose proof (Zdigits2_lt (Zpos m) ltac:(lia)).
  assert (2 ^ Zdigits2 (Zpos m) <= 2 ^ 53) by (apply Z.pow_le_mono_r; lia). lia.
Qed.

Lemma rank_finite_bounds s m e :
  valid_binary (S754_finite s m e) = true ->
  0 < Zpos m + (e + 1075) * 2 ^ 53 < 2 ^ 65.
Proof.
  intros H. apply valid_mantissa in H as [He Hm].
  change (2 ^ 65) with (4096 * 2 ^ 53). change (2 ^ 53) with 9007199254740992 in *. lia.
Qed.

Lemma SFcompare_rank x y :
  valid_binary x = true -> valid_binary y = true ->
  sf_nan x = false -> sf_nan y = false ->
  SFcompare x y = Some (rank_SF x ?= rank_SF y).
Proof.
  destruct x as [sx|sx| |sx mx ex], y as [sy|sy| |sy my ey];
    try discriminate; intros Hx Hy _ _; unfold SFcompare, rank_SF; f_equal.
  all: try (pose proof (rank_finite_bounds _ _ _ Hx) as Bx).
  all: try (pose proof (rank_finite_bounds _ _ _ Hy) as By).
  all: try (apply valid_mantissa in Hx as [Hex Hmx]).
  all: try (apply valid_mantissa in Hy as [Hey Hmy]).
  all: change (2 ^ 65) with 36893488147419103232 in *.
  all: change (2 ^ 53) with 9007199254740992 in *.
  all: try (destruct sx); try (destruct sy); cbn [cond_Zopp]; symmetry;
    try reflexivity;
    try (apply Z.compare_lt_iff; lia); try (apply Z.compare_gt_iff; lia).
  - destruct (Z.compare_spec ex ey) as [->|H|H].
    + change (Pos.compare_cont Eq mx my) with (Pos.compare mx my).
      rewrite Pos2Z.inj_compare.
      destruct (Z.compare_spec (Zpos mx) (Zpos my)) as [E|E|E]; cbn [CompOpp].
      * rewrite E. apply Z.compare_refl.
      * apply Z.compare_gt_iff. lia.
      * apply Z.compare_lt_iff. lia.
    + apply Z.compare_gt_iff. lia.
    + apply Z.compare_lt_iff. lia.
  - destruct (Z.compare_spec ex ey) as [->|H|H].
    + change (Pos.compare_cont Eq mx my) with (Pos.compare mx my).
      rewrite Pos2Z.inj_compare.
      destruct (Z.compare_spec (Zpos mx) (Zpos my)) as [E|E|E].
      * rewrite E. apply Z.compare_refl.
      * apply Z.compare_lt_iff. lia.
      * apply Z.compare_gt_iff. lia.
    + apply Z.compare_lt_iff. lia.
    + apply Z.compare_gt_iff. lia.
Qed.

Local Close Scope Z_scope.

Lemma compare_rank x y :
  is_nan x = false -> is_nan y = false ->
  SFcompare (Prim2SF x) (Prim2SF y) = Some (rank x ?= rank y)%Z.
Proof.
  rewrite !is_nan_SF. intros Hx Hy.
  apply SFcompare_rank; trivial; apply Prim2SF_valid.
Qed.

Lemma ltb_rank x y :
  is_nan x = false -> is_nan y = false -> (x <? y) = (rank x <? rank y)%Z.
Proof.
  intros Hx Hy. rewrite FloatAxioms.ltb_spec. unfold SFltb.
  rewrite (compare_rank x y Hx Hy). unfold Z.ltb.
  now destruct (rank x ?= rank y)%Z.
Qed.

Lemma leb_rank x y :
  is_nan x = false -> is_nan y = false -> (x <=? y) = (rank x <=? rank y)%Z.
Proof.
  intros Hx Hy. rewrite FloatAxioms.leb_spec. unfold SFleb.
  rewrite (compare_rank x y Hx Hy). unfold Z.leb.
  now destruct (rank x ?= rank y)%Z.
Qed.

Lemma eqb_rank x y :
  is_nan x = false -> is_nan y = false -> (x =? y) = (rank x =? rank y)%Z.
Proof.
  intros Hx Hy. rewrite FloatAxioms.eqb_spec. unfold SFeqb.
  rewrite (compare_rank x y Hx Hy).
  destruct (Z.compare_spec (rank x) (rank y)) as [E|E|E].
  - rewrite E. symmetry. apply Z.eqb_refl.
  - symmetry. apply Z.eqb_neq. lia.
  - symmetry. apply Z.eqb_neq. lia.
Qed.

(** A comparison with [NaN] is false. *)
Lemma ltb_nan_l x y : is_nan x = true -> (x <? y) = false.
Proof.
  rewrite is_nan_SF, FloatAxioms.ltb_spec. unfold SFltb.
  destruct (Prim2SF x); try discriminate. reflexivity.
Qed.

Lemma ltb_nan_r x y : is_nan y = true -> (x <? y) = false.
Proof.
  rewrite is_nan_SF, FloatAxioms.ltb_spec. unfold SFltb.
  destruct (Prim2SF y); try discriminate. now destruct (Prim2SF x).
Qed.

Lemma leb_nan_l x y : is_nan x = true -> (x <=? y) = false.
Proof.
  rewrite is_nan_SF, FloatAxioms.leb_spec. unfold SFleb.
  destruct (Prim2SF x); try discriminate. reflexivity.
Qed.

Lemma leb_nan_r x y : is_nan y = true -> (x <=? y) = false.
Proof.
  rewrite is_nan_SF, FloatAxioms.leb_spec. unfold SFleb.
  destruct (Prim2SF y); try discriminate. now destruct (Prim2SF x).
Qed.

(** Two numbers of the same rank are the same number, unless they are
    zeros. *)
Lemma rank_inj x y :
  is_nan x = false -> is_nan y = false -> rank x = rank y -> rank x <> 0%Z -> x = y.
Proof.
  rewrite !is_nan_SF. unfold rank. intros Hx Hy E Hz. apply Prim2SF_inj.
  pose proof (Prim2SF_valid x) as Vx. pose proof (Prim2SF_valid y) as Vy.
  destruct (Prim2SF x) as [sx|sx| |sx mx ex], (Prim2SF y) as [sy|sy| |sy my ey];
    try discriminate; try (now elim Hz); unfold rank_SF in E.
  all: try (pose proof (rank_finite_bounds _ _ _ Vx) as Bx).
  all: try (pose proof (rank_finite_bounds _ _ _ Vy) as By).
  all: try (apply valid_mantissa in Vx as [Hex Hmx]).
  all: try (apply valid_mantissa in Vy as [Hey Hmy]).
  all: change (2 ^ 65)%Z with 36893488147419103232%Z in *.
  all: change (2 ^ 53)%Z with 9007199254740992%Z in *.
  all: destruct sx, sy; cbn [cond_Zopp] in E; try lia; try reflexivity.
  all: assert (ex = ey) by lia; subst ey; assert (mx = my) by lia; now subst.
Qed.

Lemma rank_zero x : is_nan x = false -> (rank x = 0%Z <-> is_zero x = true).
Proof.
  rewrite is_nan_SF. unfold rank, is_zero. rewrite FloatAxioms.eqb_spec.
  pose proof (Prim2SF_valid x) as Vx.
  destruct (Prim2SF x) as [sx|sx| |sx mx ex]; try discriminate; intros _; unfold rank_SF.
  - now destruct sx.
  - destruct sx; cbn; split; (discriminate || lia).
  - pose proof (rank_finite_bounds _ _ _ Vx).
    destruct sx; cbn [cond_Zopp]; split; try lia; discriminate.
Qed.

End OrderFacts.

Module BoundFacts.
Import View Order FloatFacts OrderFacts Calculator EngineFacts.

Lemma Math_max_rank a b :
  is_nan a = false -> is_nan b = false ->
  is_nan (Math_max a b) = false /\ rank (Math_max a b) = Z.max (rank a) (rank b).
Proof.
  intros Ha Hb. destruct (Math_max_spec a b Ha Hb) as (Hc & H1 & H2).
  assert (Hn : is_nan (Math_max a b) = false) by now apply leb_not_nan in H1.
  split; trivial.
  rewrite leb_rank in H1, H2 by trivial. apply Z.leb_le in H1, H2.
  destruct Hc as [E|E]; rewrite E in *; lia.
Qed.

Lemma Math_min_rank a b :
  is_nan a = false -> is_nan b = false ->
  is_nan (Math_min a b) = false /\ rank (Math_min a b) = Z.min (rank a) (rank b).
Proof.
  intros Ha Hb. destruct (Math_min_spec a b Ha Hb) as (Hc & H1 & H2).
  assert (Hn : is_nan (Math_min a b) = false) by now apply leb_not_nan in H1.
  split; trivial.
  rewrite leb_rank in H1, H2 by trivial. apply Z.leb_le in H1, H2.
  destruct Hc as [E|E]; rewrite E in *; lia.
Qed.

Lemma Math_max_nan_l b : Math_max nan b = nan.
Proof. reflexivity. Qed.

Lemma Math_max_nan_r a : Math_max a nan = nan.
Proof. unfold Math_max. now rewrite orb_true_r. Qed.

Lemma Math_min_nan_r a : Math_min a nan = nan.
Proof. unfold Math_min. now rewrite orb_true_r. Qed.

Lemma clamp_nan lo hi : clamp nan lo hi = nan.
Proof. unfold clamp. now rewrite Math_min_nan_r, Math_max_nan_r. Qed.

Lemma clamp_rank v lo hi :
  is_nan v = false -> is_nan lo = false -> is_nan hi = false ->
  is_nan (clamp v lo hi) = false /\
  rank (clamp v lo hi) = Z.max (rank lo) (Z.min (rank hi) (rank v)).
Proof.
  intros Hv Hlo Hhi. unfold clamp.
  destruct (Math_min_rank hi v Hhi Hv) as [Hn E].
  destruct (Math_max_rank lo (Math_min hi v) Hlo Hn) as [Hn' E'].
  split; trivial. now rewrite E', E.
Qed.

(** Numbers that compare equal are the same number, zeros of opposite sign
    apart. *)
Lemma eqb_eq_nonzero a b :
  (a =? b) = true -> is_zero a = false -> a = b.
Proof.
  intros E Hz.
  assert (Ha : is_nan a = false /\ is_nan b = false).
  { revert E. rewrite FloatAxioms.eqb_spec, !is_nan_SF. unfold SFeqb.
    destruct (Prim2SF a), (Prim2SF b); simpl; auto; discriminate. }
  destruct Ha as [Ha Hb]. rewrite eqb_rank in E by trivial. apply Z.eqb_eq in E.
  apply rank_inj; trivial. intros H0. apply rank_zero in H0; trivial. congruence.
Qed.

Lemma zero_cases a : is_zero a = true -> a = 0 \/ a = -0.
Proof.
  unfold is_zero. rewrite FloatAxioms.eqb_spec.
  destruct (Prim2SF a) as [[]|[]| |[] ? ?] eqn:E; try discriminate; intros _.
  - right. apply Prim2SF_inj. now rewrite E.
  - left. apply Prim2SF_inj. now rewrite E.
Qed.

Lemma eqb_eq a b :
  (a =? b) = true ->
  PrimFloat.Leibniz.eqb a (-0) = false -> PrimFloat.Leibniz.eqb b (-0) = false ->
  a = b.
Proof.
  intros E Ha Hb. destruct (is_zero a) eqn:Hz; [|now apply eqb_eq_nonzero].
  destruct (zero_cases a Hz) as [-> | ->]; [|discriminate Ha].
  assert (Hzb : is_zero b = true).
  { revert E. unfold is_zero. rewrite !FloatAxioms.eqb_spec. unfold SFeqb.
    change (Prim2SF 0) with (S754_zero false).
    destruct (Prim2SF b) as [[]|[]| |[] ? ?]; simpl; trivial. }
  destruct (zero_cases b Hzb) as [-> | ->]; [trivial | discriminate Hb].
Qed.

Lemma not_neg_zero_nan : PrimFloat.Leibniz.eqb nan (-0) = false.
Proof. reflexivity. Qed.

(** [Math.max] with a bound that is no negative number and not [-0] never
    is [-0]. *)
Lemma Math_max_not_neg_zero a b :
  ((0 <=? a) = true /\ PrimFloat.Leibniz.eqb a (-0) = false) \/
  ((0 <=? b) = true /\ PrimFloat.Leibniz.eqb b (-0) = false) ->
  PrimFloat.Leibniz.eqb (Math_max a b) (-0) = false.
Proof.
  intros H. unfold Math_max.
  destruct (is_nan a || is_nan b); [reflexivity|].
  destruct (a <? b) eqn:E1; [|destruct (b <? a) eqn:E2].
  - destruct (PrimFloat.Leibniz.eqb b (-0)) eqn:Eb; trivial.
    apply FloatAxioms.Leibniz.eqb_spec in Eb. subst b.
    destruct H as [[H _]|[_ H]]; [|discriminate H].
    revert H E1. rewrite leb_0_l, FloatAxioms.ltb_spec. unfold SFltb.
    change (Prim2SF (-0)) with (S754_zero true).
    destruct (Prim2SF a) as [[]|[]| |[] ? ?]; simpl; discriminate.
  - destruct (PrimFloat.Leibniz.eqb a (-0)) eqn:Ea; trivial.
    apply FloatAxioms.Leibniz.eqb_spec in Ea. subst a.
    destruct H as [[_ H]|[H _]]; [discriminate H|].
    revert H E2. rewrite leb_0_l, FloatAxioms.ltb_spec. unfold SFltb.
    change (Prim2SF (-0)) with (S754_zero true).
    destruct (Prim2SF b) as [[]|[]| |[] ? ?]; simpl; discriminate.
  - destruct (PrimFloat.Leibniz.eqb a (-0)) eqn:Ea; trivial.
    apply FloatAxioms.Leibniz.eqb_spec in Ea. subst a.
    destruct H as [[_ H]|[_ H]]; [discriminate H | exact H].
Qed.

(** The larger argument, when it is not [-0], is what [Math.max] returns. *)
Lemma Math_max_absorb_l m lo :
  (lo <=? m) = true -> PrimFloat.Leibniz.eqb m (-0) = false -> Math_max m lo = m.
Proof.
  intros H Hm. destruct (leb_not_nan _ _ H) as [Hlo Hn].
  unfold Math_max. rewrite Hn, Hlo, (leb_not_ltb _ _ H), Hm. cbn [orb].
  now destruct (lo <? m).
Qed.

Lemma Math_max_absorb_r lo m :
  (lo <=? m) = true ->
  PrimFloat.Leibniz.eqb lo (-0) = false -> PrimFloat.Leibniz.eqb m (-0) = false ->
  Math_max lo m = m.
Proof.
  intros H Hlo Hm. destruct (leb_not_nan _ _ H) as [Hn Hn'].
  unfold Math_max. rewrite Hn, Hn', (leb_not_ltb _ _ H), Hlo. cbn [orb].
  destruct (lo <? m) eqn:E; trivial.
  apply eqb_eq; trivial.
  rewrite eqb_rank by trivial. rewrite ltb_rank in E by trivial.
  rewrite leb_rank in H by trivial. apply Z.eqb_eq. apply Z.leb_le in H.
  apply Z.ltb_ge in E. lia.
Qed.

Lemma Math_min_absorb hi c :
  (c <=? hi) = true -> is_zero hi = false -> Math_min hi c = c.
Proof.
  intros H Hz. destruct (leb_not_nan _ _ H) as [Hn Hn'].
  unfold Math_min. rewrite Hn, Hn', (leb_not_ltb _ _ H). cbn [orb].
  destruct (c <? hi) eqn:E; trivial.
  assert (Ehc : hi = c).
  { apply eqb_eq_nonzero; trivial.
    rewrite eqb_rank by trivial. rewrite ltb_rank in E by trivial.
    rewrite leb_rank in H by trivial. apply Z.eqb_eq. apply Z.leb_le in H.
    apply Z.ltb_ge in E. lia. }
  rewrite <- Ehc. now destruct (PrimFloat.Leibniz.eqb hi 0).
Qed.

(** A lower bound applied twice is the lower bound applied once. *)
Lemma Math_max_idem x lo :
  (0 <=? lo) = true -> PrimFloat.Leibniz.eqb lo (-0) = false ->
  Math_max (Math_max x lo) lo = Math_max x lo.
Proof.
  intros H0 Hlo. destruct (is_nan x) eqn:Hx.
  - now rewrite (is_nan_eq _ Hx).
  - apply Math_max_absorb_l.
    + apply Math_max_spec; trivial. now apply nonneg_not_nan.
    + apply Math_max_not_neg_zero. now right.
Qed.

Lemma clamp_idem x lo hi :
  (lo <=? hi) = true -> (0 <=? lo) = true ->
  PrimFloat.Leibniz.eqb lo (-0) = false -> is_zero hi = false ->
  clamp (clamp x lo hi) lo hi = clamp x lo hi.
Proof.
  intros Hle H0 Hlo Hhi. destruct (leb_not_nan _ _ Hle) as [Hnl Hnh].
  destruct (is_nan x) eqn:Hx.
  - now rewrite (is_nan_eq _ Hx), !clamp_nan.
  - destruct (clamp_rank x lo hi Hx Hnl Hnh) as [Hn E].
    assert (Hz : PrimFloat.Leibniz.eqb (clamp x lo hi) (-0) = false).
    { apply Math_max_not_neg_zero. now left. }
    assert (L1 : (clamp x lo hi <=? hi) = true).
    { rewrite leb_rank by trivial. rewrite leb_rank in Hle by trivial.
      apply Z.leb_le in Hle. apply Z.leb_le. lia. }
    assert (L2 : (lo <=? clamp x lo hi) = true).
    { rewrite leb_rank by trivial. apply Z.leb_le. lia. }
    unfold clamp at 1. rewrite Math_min_absorb by trivial.
    now apply Math_max_absorb_r.
Qed.

End BoundFacts.

Module RoundFacts.
Import View FloatFacts SignFacts Calculator EngineFacts.

Lemma mul_infinity_pos s c :
  (0 <? c) = true -> is_finite c = true ->
  Prim2SF (SF2Prim (S754_infinity s) * c) = S754_infinity s.
Proof.
  rewrite ltb_0_l, is_finite_SF, mul_spec, Prim2SF_SF2Prim by reflexivity.
  destruct (Prim2SF c) as [[]|[]| |[] ? ?]; try discriminate; intros _ _.
  now destruct s.
Qed.

Lemma div_infinity_pos s c :
  (0 <? c) = true -> is_finite c = true ->
  Prim2SF (SF2Prim (S754_infinity s) / c) = S754_infinity s.
Proof.
  rewrite ltb_0_l, is_finite_SF, div_spec, Prim2SF_SF2Prim by reflexivity.
  destruct (Prim2SF c) as [[]|[]| |[] ? ?]; try discriminate; intros _ _.
  now destruct s.
Qed.

(** Scaling by a positive finite factor, rounding to an integer and scaling
    back keeps [NaN], both infinities and the side of zero a number is on. *)
Lemma scaled_round c v :
  (0 <? c) = true -> is_finite c = true ->
  (is_nan v = true -> is_nan (Math_round (v * c) / c) = true) /\
  (v = infinity -> Math_round (v * c) / c = infinity) /\
  (v = neg_infinity -> Math_round (v * c) / c = neg_infinity) /\
  ((0 <=? v) = true -> (0 <=? Math_round (v * c) / c) = true) /\
  ((v <=? 0) = true -> (Math_round (v * c) / c <=? 0) = true).
Proof.
  intros Hc Hf. split; [|split; [|split; [|split]]].
  - intros Hv. now rewrite (is_nan_eq _ Hv), nan_mul_l, Math_round_nan, nan_div_l.
  - intros ->. pose proof (mul_infinity_pos false c Hc Hf) as E.
    change (SF2Prim (S754_infinity false)) with infinity in E.
    assert (E' : infinity * c = infinity) by (apply Prim2SF_inj; now rewrite E).
    rewrite E'. change (Math_round infinity) with infinity.
    pose proof (div_infinity_pos false c Hc Hf) as D.
    apply Prim2SF_inj. exact D.
  - intros ->. pose proof (mul_infinity_pos true c Hc Hf) as E.
    change (SF2Prim (S754_infinity true)) with neg_infinity in E.
    assert (E' : neg_infinity * c = neg_infinity) by (apply Prim2SF_inj; now rewrite E).
    rewrite E'. change (Math_round neg_infinity) with neg_infinity.
    pose proof (div_infinity_pos true c Hc Hf) as D.
    apply Prim2SF_inj. exact D.
  - intros H. apply div_nonneg; trivial.
    + now apply Math_round_nonneg, mul_pos_nonneg.
    + rewrite Hf. apply orb_true_r.
  - intros H. apply div_nonpos; trivial.
    + now apply Math_round_nonpos, mul_pos_nonpos.
    + rewrite Hf. apply orb_true_r.
Qed.

(** The powers of ten up to [10^22] are exact, positive and finite. *)
Lemma factor_ok d :
  (d <= 22)%nat -> (0 <? Math_pow 10 d) = true /\ is_finite (Math_pow 10 d) = true.
Proof.
  intros H. do 23 (destruct d as [|d]; [split; vm_compute; reflexivity|]). lia.
Qed.

End RoundFacts.

(* ===================================================================== *)
(** * Facts about the figures of a result *)
(* ===================================================================== *)

Module FigureFacts.
Import View Order FloatFacts SignFacts OrderFacts BoundFacts.
Import Calculator Documented Figures ResolverFacts EngineFacts.

Lemma resolved_not_negative (raw : gmap string value) (f : numeric_field) :
  (value_of (resolveInputs raw) f <? 0) = false.
Proof.
  destruct f; field_projections;
    first [ apply Math_max_not_negative_r; reflexivity
          | apply clamp_not_negative; reflexivity ].
Qed.

Lemma mows_not_negative (raw : gmap string value) :
  (ToNumber (mowsPerWeek (resolveInputs raw)) <? 0) = false.
Proof.
  cbn [resolveInputs mowsPerWeek].
  destruct (propDefaults_of _) as [r|] eqn:E; [|reflexivity].
  apply rows in E as [-> | [-> | ->]]; reflexivity.
Qed.

Ltac not_negative_step :=
  lazymatch goal with
  | |- (round _ 2 <? 0) = false => apply round_2_not_negative
  | |- (round _ 1 <? 0) = false => apply round_1_not_negative
  | |- (Math_round _ <? 0) = false => apply Math_round_not_negative
  | |- (Math_max 0 _ <? 0) = false => apply Math_max_not_negative_l; reflexivity
  | |- (_ * _ <? 0) = false => apply mul_not_negative
  | |- (_ + _ <? 0) = false => apply add_not_negative
  | |- (_ / _ <? 0) = false => apply div_not_negative; [|reflexivity]
  | |- (ToNumber (mowsPerWeek _) <? 0) = false => exact (mows_not_negative _)
  | |- (acreage _ <? 0) = false => exact (resolved_not_negative _ f_acreage)
  | |- (seasonWeeks _ <? 0) = false => exact (resolved_not_negative _ f_seasonWeeks)
  | |- (employees _ <? 0) = false => exact (resolved_not_negative _ f_employees)
  | |- (hourlyRate _ <? 0) = false => exact (resolved_not_negative _ f_hourlyRate)
  | |- (mowingTimePercent _ <? 0) = false => exact (resolved_not_negative _ f_mowingTimePercent)
  | |- (monthlyContract _ <? 0) = false => exact (resolved_not_negative _ f_monthlyContract)
  | |- (benefitsRate _ <? 0) = false => exact (resolved_not_negative _ f_benefitsRate)
  | |- (fuelCostPerGallon _ <? 0) = false => exact (resolved_not_negative _ f_fuelCostPerGallon)
  | |- (laborReduction _ <? 0) = false => exact (resolved_not_negative _ f_laborReduction)
  | |- (bufferTime _ <? 0) = false => exact (resolved_not_negative _ f_bufferTime)
  | |- (fuelPerAcre _ <? 0) = false => exact (resolved_not_negative _ f_fuelPerAcre)
  | |- (baseEquipmentCost _ <? 0) = false => exact (resolved_not_negative _ f_baseEquipmentCost)
  | |- (equipmentCostPerAcre _ <? 0) = false => exact (resolved_not_negative _ f_equipmentCostPerAcre)
  | |- (maintenanceRate _ <? 0) = false => exact (resolved_not_negative _ f_maintenanceRate)
  | |- (insuranceRate _ <? 0) = false => exact (resolved_not_negative _ f_insuranceRate)
  | |- (leasingPremium _ <? 0) = false => exact (resolved_not_negative _ f_leasingPremium)
  | |- (roboticMaintenance _ <? 0) = false => exact (resolved_not_negative _ f_roboticMaintenance)
  | |- (electricityPerAcre _ <? 0) = false => exact (resolved_not_negative _ f_electricityPerAcre)
  | |- (co2PerGallon _ <? 0) = false => exact (resolved_not_negative _ f_co2PerGallon)
  | |- (mowingTimePerAcre _ <? 0) = false => exact (resolved_not_negative _ f_mowingTimePerAcre)
  | |- (automationLevel _ <? 0) = false => exact (resolved_not_negative _ f_automationLevel)
  | |- _ => reflexivity
  end.

Ltac not_negative := repeat not_negative_step.

Lemma agree_get keys raw raw' k :
  agree_outside keys raw raw' -> existsb (String.eqb k) keys = false ->
  get raw' k = get raw k.
Proof. intros H Hk. unfold get. now rewrite (H k Hk). Qed.

Ltac agree H :=
  repeat match goal with
         | |- context [get ?raw' ?k] =>
             rewrite (agree_get _ _ raw' k H eq_refl)
         end.

Lemma resolved_outsourced raw raw' :
  agree_outside inhouse_keys raw raw' ->
  let i := resolveInputs raw in
  let i' := resolveInputs raw' in
  maintenanceType i' = maintenanceType i /\
  monthlyContract i' = monthlyContract i /\
  automationLevel i' = automationLevel i /\
  acreage i' = acreage i /\
  roboticMaintenance i' = roboticMaintenance i /\
  electricityPerAcre i' = electricityPerAcre i /\
  mowsPerWeek i' = mowsPerWeek i /\
  seasonWeeks i' = seasonWeeks i /\
  mowingTimePerAcre i' = mowingTimePerAcre i /\
  laborReduction i' = laborReduction i /\
  fuelPerAcre i' = fuelPerAcre i /\
  co2PerGallon i' = co2PerGallon i.
Proof.
  intros H. cbv zeta. field_projections.
  cbn [resolveInputs mowsPerWeek maintenanceType].
  agree H. repeat split.
Qed.

Lemma resolved_inhouse raw raw' :
  agree_outside ["monthlyContract"]%string raw raw' ->
  let i := resolveInputs raw in
  let i' := resolveInputs raw' in
  maintenanceType i' = maintenanceType i /\
  (isLeased i' = isLeased i /\ mowsPerWeek i' = mowsPerWeek i) /\
  forall f, f <> f_monthlyContract -> value_of i' f = value_of i f.
Proof.
  intros H. cbv zeta. split; [|split; [split|]].
  - cbn [resolveInputs maintenanceType]. agree H. reflexivity.
  - cbn [resolveInputs isLeased]. agree H. reflexivity.
  - cbn [resolveInputs mowsPerWeek]. agree H. reflexivity.
  - intros f Hf. destruct f; try contradiction; field_projections; agree H; reflexivity.
Qed.

Ltac fields_of H f :=
  let E := fresh "E" in
  pose proof (H f ltac:(discriminate)) as E; cbn [value_of] in E.

Lemma figures_outsourced raw raw' :
  agree_outside inhouse_keys raw raw' -> outsourced (resolveInputs raw) = true ->
  same_figures (calculateROI (Some raw')) (calculateROI (Some raw)).
Proof.
  intros H Ho.
  destruct (resolved_outsourced raw raw' H)
    as (E1 & E2 & E3 & E4 & E5 & E6 & E7 & E8 & E9 & E10 & E11 & E12).
  unfold same_figures, calculateROI, outsourced in *.
  cbn [currentCosts savings newCosts netAnnualSavings labor environmental _internal
       default from_option Datatypes.id].
  rewrite E1, Ho. cbn [fst snd].
  rewrite E2, E3, E4, E5, E6, E7, E8, E9, E10, E11, E12. repeat split.
Qed.

Lemma figures_inhouse raw raw' :
  agree_outside ["monthlyContract"]%string raw raw' ->
  outsourced (resolveInputs raw) = false ->
  same_figures (calculateROI (Some raw')) (calculateROI (Some raw)).
Proof.
  intros H Ho.
  destruct (resolved_inhouse raw raw' H) as (E1 & (E2 & E3) & E).
  fields_of E f_acreage. fields_of E f_seasonWeeks. fields_of E f_employees.
  fields_of E f_hourlyRate. fields_of E f_mowingTimePercent.
  fields_of E f_benefitsRate. fields_of E f_fuelCostPerGallon.
  fields_of E f_laborReduction. fields_of E f_bufferTime.
  fields_of E f_fuelPerAcre. fields_of E f_baseEquipmentCost.
  fields_of E f_equipmentCostPerAcre. fields_of E f_maintenanceRate.
  fields_of E f_insuranceRate. fields_of E f_leasingPremium.
  fields_of E f_roboticMaintenance. fields_of E f_electricityPerAcre.
  fields_of E f_co2PerGallon. fields_of E f_mowingTimePerAcre.
  fields_of E f_automationLevel.
  unfold same_figures, calculateROI, outsourced in *.
  cbn [currentCosts savings newCosts netAnnualSavings labor environmental _internal
       default from_option Datatypes.id].
  rewrite E1, Ho. cbn [fst snd].
  repeat match goal with Hx : _ (resolveInputs raw') = _ |- _ => rewrite Hx; clear Hx end.
  repeat split.
Qed.

Lemma get_as_raw (i : ResolvedInputs) :
  get (as_raw i) "propertyType" = propertyType i /\
  get (as_raw i) "maintenanceType" = Str (maintenanceType i) /\
  get (as_raw i) "isLeased" = Bool (isLeased i) /\
  forall f, get (as_raw i) (key f) = Num (value_of i f).
Proof.
  repeat split; try (vm_compute; reflexivity).
  intros f. destruct f; vm_compute; reflexivity.
Qed.

Lemma number_or_keep m d :
  is_nan m = false -> (is_zero m = true -> m = d) -> number_or m d = m.
Proof.
  unfold number_or, falsy_number. intros -> H. rewrite orb_false_r.
  destruct (is_zero m); [symmetry; now apply H | reflexivity].
Qed.

Lemma not_neg_zero_zero m :
  PrimFloat.Leibniz.eqb m (-0) = false -> is_zero m = true -> m = 0.
Proof.
  intros H Hz. destruct (zero_cases m Hz) as [-> | ->]; [reflexivity | discriminate H].
Qed.

(** The guard [Math.max(Number(x) || d, lo)] applied to its own result. *)
Lemma guard_idem x d lo :
  (0 <=? lo) = true -> PrimFloat.Leibniz.eqb lo (-0) = false ->
  is_nan d = false -> (is_zero lo = true -> d = 0) ->
  let m := Math_max (number_or x d) lo in
  Math_max (number_or m d) lo = m.
Proof.
  intros H0 Hlo Hd Hz m.
  assert (Hy : is_nan (number_or x d) = false) by now apply number_or_not_nan.
  assert (Hl : (lo <=? m) = true).
  { apply Math_max_spec; trivial. now apply nonneg_not_nan. }
  assert (Hm : PrimFloat.Leibniz.eqb m (-0) = false).
  { apply Math_max_not_neg_zero. now right. }
  rewrite number_or_keep.
  - now apply Math_max_idem.
  - now apply leb_not_nan in Hl.
  - intros Hzm. rewrite (not_neg_zero_zero m Hm Hzm). symmetry. apply Hz.
    revert Hl H0. rewrite (not_neg_zero_zero m Hm Hzm). unfold is_zero.
    rewrite leb_0_l, leb_0_r, eqb_0_r.
    destruct (Prim2SF lo) as [[]|[]| |[] ? ?]; simpl; trivial; discriminate.
Qed.

Lemma clamp_guard_idem x lo hi :
  (lo <=? hi) = true -> (0 <=? lo) = true ->
  PrimFloat.Leibniz.eqb lo (-0) = false -> is_zero hi = false ->
  let c := clamp (number_or x 0) lo hi in
  clamp (number_or c 0) lo hi = c.
Proof.
  intros Hle H0 Hlo Hhi c.
  destruct (leb_not_nan _ _ Hle) as [Hnl Hnh].
  assert (Hy : is_nan (number_or x 0) = false) by now apply number_or_not_nan.
  destruct (clamp_rank (number_or x 0) lo hi Hy Hnl Hnh) as [Hn _]. fold c in Hn.
  assert (Hm : PrimFloat.Leibniz.eqb c (-0) = false).
  { apply Math_max_not_neg_zero. now left. }
  rewrite number_or_keep; trivial.
  - now apply clamp_idem.
  - now apply not_neg_zero_zero.
Qed.

Lemma or_else_idem p c : ToBoolean c = true -> or_else (or_else p c) c = or_else p c.
Proof.
  intros Hc. unfold or_else. destruct (ToBoolean p) eqn:E; [now rewrite E | now rewrite Hc].
Qed.

(** The numeric field a raw entry name stands for. *)
Ltac field_of_key k :=
  lazymatch k with
  | "acreage"%string => f_acreage
  | "seasonWeeks"%string => f_seasonWeeks
  | "employees"%string => f_employees
  | "hourlyRate"%string => f_hourlyRate
  | "mowingTimePercent"%string => f_mowingTimePercent
  | "monthlyContract"%string => f_monthlyContract
  | "benefitsRate"%string => f_benefitsRate
  | "fuelCostPerGallon"%string => f_fuelCostPerGallon
  | "laborReduction"%string => f_laborReduction
  | "bufferTime"%string => f_bufferTime
  | "annualLaborIncrease"%string => f_annualLaborIncrease
  | "fuelPerAcre"%string => f_fuelPerAcre
  | "annualFuelIncrease"%string => f_annualFuelIncrease
  | "baseEquipmentCost"%string => f_baseEquipmentCost
  | "equipmentCostPerAcre"%string => f_equipmentCostPerAcre
  | "maintenanceRate"%string => f_maintenanceRate
  | "insuranceRate"%string => f_insuranceRate
  | "leasingPremium"%string => f_leasingPremium
  | "roboticMaintenance"%string => f_roboticMaintenance
  | "electricityPerAcre"%string => f_electricityPerAcre
  | "co2PerGallon"%string => f_co2PerGallon
  | "mowingTimePerAcre"%string => f_mowingTimePerAcre
  | "automationLevel"%string => f_automationLevel
  | "desiredMowingTime"%string => f_desiredMowingTime
  end.

End FigureFacts.

(* ===================================================================== *)
(** * Facts about catalogs and recommendations *)
(* ===================================================================== *)

Module CatalogFacts.
Import View Order FloatFacts SumFacts SignFacts OrderFacts BoundFacts.
Import Equipment Api Pricing.

Lemma find_first {A} (f : A -> bool) (l : list A) :
  match find f l with
  | Some x =>
      exists before after,
        l = before ++ x :: after /\ f x = true /\ Forall (fun y => f y = false) before
  | None => Forall (fun y => f y = false) l
  end.
Proof.
  induction l as [|a l IH]; cbn [find]; [constructor|].
  destruct (f a) eqn:E.
  - exists [], l. repeat split; trivial.
  - destruct (find f l) as [x|].
    + destruct IH as (b & c & -> & Hx & Hb).
      exists (a :: b), c. repeat split; trivial. now constructor.
    + now constructor.
Qed.

Lemma find_unique {A} (key : A -> string) (l : list A) (x : A) :
  List.NoDup (map key l) -> In x l ->
  find (fun y => String.eqb (key y) (key x)) l = Some x.
Proof.
  induction l as [|a l IH]; cbn [find map In]; [contradiction|].
  intros Hnd [-> | Hin].
  - now rewrite String.eqb_refl.
  - apply List.NoDup_cons_iff in Hnd as [Ha Hnd].
    destruct (String.eqb_spec (key a) (key x)) as [E|_]; [|now apply IH].
    exfalso. apply Ha. rewrite E. apply in_map, Hin.
Qed.

(** A product of numbers above zero is no negative number and no [NaN]. *)
Lemma mul_pos_pos x y :
  (0 <? x) = true -> (0 <? y) = true -> (0 <=? x * y) = true.
Proof.
  rewrite !ltb_0_l, leb_0_l, mul_spec.
  destruct (Prim2SF x) as [[]|[]| |[] mx ex], (Prim2SF y) as [[]|[]| |[] my ey];
    try discriminate; intros _ _; try reflexivity.
  apply sign_false_nonneg. exact (SFmul_finite_sign false _ _ false _ _).
Qed.

Lemma leb_trans x y z : (x <=? y) = true -> (y <=? z) = true -> (x <=? z) = true.
Proof.
  intros H1 H2. destruct (leb_not_nan _ _ H1) as [Hx Hy].
  destruct (leb_not_nan _ _ H2) as [_ Hz].
  rewrite leb_rank in * by trivial. apply Z.leb_le in H1, H2. apply Z.leb_le. lia.
Qed.

Lemma ltb_leb_trans x y z : (x <? y) = true -> (y <=? z) = true -> (x <? z) = true.
Proof.
  intros H1 H2. destruct (ltb_not_nan _ _ H1) as [Hx Hy].
  destruct (leb_not_nan _ _ H2) as [_ Hz].
  rewrite ltb_rank, leb_rank in * by trivial.
  apply Z.ltb_lt in H1. apply Z.leb_le in H2. apply Z.ltb_lt. lia.
Qed.

Lemma SFadd_comm x y : SF64add x y = SF64add y x.
Proof.
  unfold SF64add, SFadd.
  destruct x as [[]|[]| |sx mx ex], y as [[]|[]| |sy my ey]; try reflexivity.
  rewrite (Z.min_comm ey ex), Z.add_comm. reflexivity.
Qed.

Lemma add_comm x y : x + y = y + x.
Proof. apply Prim2SF_inj. rewrite !add_spec. apply SFadd_comm. Qed.

Lemma add_ge_l x y :
  (0 <=? x) = true -> (0 <=? y) = true -> (x <=? x + y) = true.
Proof. intros Hx Hy. rewrite add_comm. now apply add_ge_r. Qed.

Lemma pos_not_zero x : (0 <? x) = true -> (x =? 0) = false.
Proof.
  rewrite ltb_0_l, eqb_0_r. now destruct (Prim2SF x) as [[]|[]| |[] ? ?].
Qed.

End CatalogFacts.

Module RecommenderFacts.
Import View Order FloatFacts SumFacts SignFacts OrderFacts BoundFacts.
Import Equipment Sizing Api Pricing EngineFacts EquipmentFacts CatalogFacts.

Lemma builtin_priced : priced FALLBACK_DATA.
Proof. split; repeat constructor. Qed.

(** The figures of a recommendation for a number of units that is at least
    1, from a catalog with prices above zero. *)
Lemma priced_costs data (m : Model) units :
  priced data -> In m (models data) -> (1 <=? units) = true ->
  let equipmentCost := units * price m in
  let referenceStationCost := item_price (referenceStation data) in
  let housingCost := units * item_price (housing data) in
  let totalEquipmentCost := equipmentCost + referenceStationCost + housingCost in
  let installationCost := units * item_price (perUnit data) in
  let setupCost := item_price (flat data) in
  let annualMaintenanceCost := units * item_price (annualMaintenance data) in
  let remoteSupportCost := item_price (remoteSupport data) in
  let winterStorageCost := units * item_price (winterStorage data) in
  let annualServiceCost := annualMaintenanceCost + remoteSupportCost + winterStorageCost in
  let totalInvestment := totalEquipmentCost + installationCost + setupCost in
  Forall (fun x => (0 <=? x) = true)
    [equipmentCost; referenceStationCost; housingCost; installationCost; setupCost;
     totalEquipmentCost; totalInvestment; annualServiceCost] /\
  (setupCost <=? totalInvestment) = true /\
  (remoteSupportCost <=? annualServiceCost) = true.
Proof.
  intros [Hm Hi] Hin Hu. cbv zeta.
  assert (Hp : (0 <? price m) = true) by exact (proj1 (List.Forall_forall _ _) Hm m Hin).
  assert (H1 : (0 <? units) = true).
  { apply (ltb_leb_trans 0 1); trivial. }
  repeat match goal with
         | H : Forall _ (_ :: _) |- _ => apply Forall_cons in H as [? H]
         end.
  assert (E1 : (0 <=? units * price m) = true) by now apply mul_pos_pos.
  assert (E2 : (0 <=? item_price (referenceStation data)) = true) by now apply pos_nonneg.
  assert (E3 : (0 <=? units * item_price (housing data)) = true) by now apply mul_pos_pos.
  assert (E4 : (0 <=? units * item_price (perUnit data)) = true) by now apply mul_pos_pos.
  assert (E5 : (0 <=? item_price (flat data)) = true) by now apply pos_nonneg.
  assert (E6 : (0 <=? units * item_price (annualMaintenance data)) = true)
    by now apply mul_pos_pos.
  assert (E7 : (0 <=? item_price (remoteSupport data)) = true) by now apply pos_nonneg.
  assert (E8 : (0 <=? units * item_price (winterStorage data)) = true)
    by now apply mul_pos_pos.
  assert (E9 : (0 <=? units * price m + item_price (referenceStation data)
                      + units * item_price (housing data)) = true)
    by (repeat apply add_nonneg; trivial).
  assert (E10 : (0 <=? units * price m + item_price (referenceStation data)
                       + units * item_price (housing data)
                       + units * item_price (perUnit data)) = true)
    by (repeat apply add_nonneg; trivial).
  assert (E11 : (0 <=? units * item_price (annualMaintenance data)
                       + item_price (remoteSupport data)) = true)
    by (repeat apply add_nonneg; trivial).
  split; [|split].
  - repeat constructor; trivial; repeat apply add_nonneg; trivial.
  - now apply add_ge_r.
  - apply (leb_trans _ (units * item_price (annualMaintenance data)
                        + item_price (remoteSupport data))).
    + now apply add_ge_r.
    + now apply add_ge_l.
Qed.

(** The guard [Math.max(Number(x) || 0, 0)] leaves a number above zero as
    it is. *)
Lemma guard_keeps x :
  (0 <? x) = true -> Math_max (number_or (ToNumber (Num x)) 0) 0 = x.
Proof.
  intros H. cbn [ToNumber].
  assert (Hn : is_nan x = false) by now apply ltb_not_nan in H.
  assert (Hz : is_zero x = false) by (unfold is_zero; now apply pos_not_zero).
  unfold number_or, falsy_number. rewrite Hz, Hn. cbn [orb].
  apply Math_max_absorb_l; [now apply pos_nonneg|].
  destruct (PrimFloat.Leibniz.eqb x (-0)) eqn:E; trivial.
  apply FloatAxioms.Leibniz.eqb_spec in E. subst x. discriminate H.
Qed.

(** The figures of a recommendation from a catalog with prices above zero. *)
Lemma priced_recommendation (d : option Catalog) (pt a l h : value) :
  catalog_ok (default FALLBACK_DATA d) -> priced (default FALLBACK_DATA d) ->
  type_ok pt -> ToNumber a <> infinity ->
  exists r,
    snd (recommendEquipment d pt a l h) = Normal r /\
    Forall (fun x => (0 <=? x) = true) (cost_figures (costs r)) /\
    (setup (costs r) <=? Equipment.totalInvestment (costs r)) = true /\
    (0 <? Equipment.totalInvestment (costs r)) = true /\
    (item_price (remoteSupport (default FALLBACK_DATA d)) <=? annualService (costs r))
      = true /\
    (0 <? annualService (costs r)) = true.
Proof.
  intros [Hne Hcov] Hpr Hpt Ha. unfold recommendEquipment. cbn [snd].
  destruct (lowered_type_ok pt Hpt) as [s ->]. cbv beta iota zeta.
  set (A := Math_max 0 (number_or (ToNumber a) 0)).
  set (L := Math_min 100 (Math_max 0 (number_or (ToNumber l) 0))).
  set (short := if (String.eqb s "golf" || ToBoolean h)%bool then _ else _).
  destruct (chosen_model (default FALLBACK_DATA d) short Hne) as (m & -> & Hin).
  eexists. split; [reflexivity|].
  cbn [costs cost_figures mowers c_referenceStation c_housing installation setup
       totalEquipment Equipment.totalInvestment annualService].
  destruct (proj1 (List.Forall_forall _ _) Hcov m Hin) as [Hc Hf].
  destruct (sanitized_acreage (ToNumber a) Ha) as [HA HAf]. fold A in HA, HAf.
  destruct (sanitized_level (ToNumber l)) as (HL & _ & HLf). fold L in HL, HLf.
  assert (Hu : (1 <=? Math_max 1 (Math_ceil (A * (L / 100) / coverage m))) = true).
  { apply units_at_least_one; trivial. apply mul_nonneg; trivial.
    - apply div_nonneg; trivial. now rewrite HLf.
    - now apply div_100_finite. }
  assert (Hp : (0 <? item_price (flat (default FALLBACK_DATA d))) = true /\
               (0 <? item_price (remoteSupport (default FALLBACK_DATA d))) = true).
  { destruct Hpr as [_ Hi].
    repeat match goal with
           | H : Forall _ (_ :: _) |- _ => apply Forall_cons in H as [? H]
           end.
    now split. }
  destruct Hp as [Hp1 Hp2].
  destruct (priced_costs (default FALLBACK_DATA d) m _ Hpr Hin Hu) as (F & S1 & S2).
  split; [exact F|]. split; [exact S1|]. split; [|split; [exact S2|]].
  - eapply ltb_leb_trans; [exact Hp1 | exact S1].
  - eapply ltb_leb_trans; [exact Hp2 | exact S2].
Qed.

End RecommenderFacts.

(* ===================================================================== *)
(** * Facts about the page controller *)
(* ===================================================================== *)

Module AppFacts.
Import View Order FloatFacts SumFacts SignFacts OrderFacts BoundFacts.
Import Calculator Documented Parse App FormFields WizardDefs.
Import ResolverFacts EngineFacts CatalogFacts.

Lemma get_gatherInputs (form : Form) :
  get (gatherInputs form) "propertyType" = Str (property_type form) /\
  get (gatherInputs form) "acreage" = Num (number_or (parseFloat (total_acreage form)) 0) /\
  get (gatherInputs form) "automationLevel" = Num (parseInt (automation_level form)).
Proof.
  unfold gatherInputs.
  repeat match goal with
         | |- context [parseFloat ?s] => generalize (parseFloat s); intro
         | |- context [parseInt ?s] => generalize (parseInt s); intro
         end.
  generalize (property_type form). intro.
  generalize (if String.eqb (maintenance_type form) "outsourced"
              then "outsourced" else "inhouse")%string. intro.
  generalize (equipment_leased form). intro.
  repeat split; vm_compute; reflexivity.
Qed.

Lemma get_gathered (form : Form) (f : numeric_field) :
  get (gatherInputs form) (key f) = Num (gathered form f).
Proof.
  unfold gatherInputs.
  destruct f; unfold gathered, parsed; cbn [whole form_default text_of key].
  all: repeat match goal with
              | |- context [parseFloat ?s] => generalize (parseFloat s); intro
              | |- context [parseInt ?s] => generalize (parseInt s); intro
              end.
  all: generalize (property_type form); intro.
  all: generalize (if String.eqb (maintenance_type form) "outsourced"
                   then "outsourced" else "inhouse")%string; intro.
  all: generalize (equipment_leased form); intro.
  all: vm_compute; reflexivity.
Qed.

Lemma not_ltb_rank x y :
  is_nan x = false -> is_nan y = false -> (x <? y) = false -> (rank y <= rank x)%Z.
Proof. intros Hx Hy. rewrite ltb_rank by trivial. apply Z.ltb_ge. Qed.

Lemma ltb_rank_lt x y : (x <? y) = true -> (rank x < rank y)%Z.
Proof.
  intros H. destruct (ltb_not_nan _ _ H). rewrite ltb_rank in H by trivial.
  now apply Z.ltb_lt.
Qed.

Lemma leb_rank_le x y : (x <=? y) = true -> (rank x <= rank y)%Z.
Proof.
  intros H. destruct (leb_not_nan _ _ H). rewrite leb_rank in H by trivial.
  now apply Z.leb_le.
Qed.

Lemma rank_le_leb x y :
  is_nan x = false -> is_nan y = false -> (rank x <= rank y)%Z -> (x <=? y) = true.
Proof. intros Hx Hy H. rewrite leb_rank by trivial. now apply Z.leb_le. Qed.

Lemma rank_lt_ltb x y :
  is_nan x = false -> is_nan y = false -> (rank x < rank y)%Z -> (x <? y) = true.
Proof. intros Hx Hy H. rewrite ltb_rank by trivial. now apply Z.ltb_lt. Qed.

Lemma binary_normalize_not_nan m e s :
  sf_nan (binary_normalize prec emax m e s) = false.
Proof.
  unfold binary_normalize. destruct m as [|p|p]; trivial; unfold binary_round;
    destruct (shl_align _ _ _) as [mz ez];
    match goal with |- sf_nan (binary_round_aux _ _ ?s ?m ?e ?l) = false =>
      pose proof (binary_round_aux_sign s m e l ltac:(lia)) as Hs;
      destruct (binary_round_aux prec emax s m e l); trivial; discriminate
    end.
Qed.

Lemma add_finite_not_nan x y :
  is_nan x = false -> is_finite y = true -> is_nan (x + y) = false.
Proof.
  rewrite is_finite_SF, !is_nan_SF, add_spec.
  destruct (Prim2SF x) as [s|s| |s m e], (Prim2SF y) as [s'|s'| |s' m' e'];
    simpl; intros; try discriminate; trivial.
  - now destruct s, s'.
  - apply binary_normalize_not_nan.
Qed.

(** The step after a step. *)
Lemma next_step x : (0 <=? x) = true -> (x <=? x + 1) = true.
Proof. intros H. now apply add_ge_l. Qed.

Lemma goToStep_cases form w step :
  goToStep form w step = w \/
  (goToStep form w step =
     {| currentStep := step;
        maxCompletedStep :=
          if currentStep w <? step
          then Math_max (maxCompletedStep w) (currentStep w)
          else maxCompletedStep w |} /\
   (step <? 1) = false /\ (4 <? step) = false /\
   ((maxCompletedStep w + 1 <? step) = false \/ (currentStep w + 1 <? step) = false) /\
   ((currentStep w <? step) = true -> validateStep form (currentStep w) = true)).
Proof.
  unfold goToStep.
  destruct (step <? 1) eqn:E1; [now left|].
  destruct (4 <? step) eqn:E2; [now left|]. cbn [orb].
  destruct (maxCompletedStep w + 1 <? step) eqn:E3;
    destruct (currentStep w + 1 <? step) eqn:E4; cbn [andb]; try (now left).
  all: destruct (currentStep w <? step) eqn:E5; cbn [andb].
  all: try (destruct (validateStep form (currentStep w)) eqn:E6; cbn [negb];
            [|now left]).
  all: right; repeat split; auto; discriminate.
Qed.

Lemma goToStep_keeps form w step :
  is_nan step = false -> on_a_step w -> on_a_step (goToStep form w step).
Proof.
  intros Hs (H1 & H2 & H3 & H4).
  destruct (goToStep_cases form w step) as [-> | (-> & E1 & E2 & _ & _)];
    [repeat split; trivial|].
  unfold on_a_step. cbn [currentStep maxCompletedStep].
  assert (N1 : is_nan (currentStep w) = false) by now apply leb_not_nan in H1.
  assert (N2 : is_nan (maxCompletedStep w) = false) by now apply leb_not_nan in H3.
  apply not_ltb_rank in E1, E2; trivial.
  apply leb_rank_le in H1, H2, H3. apply ltb_rank_lt in H4.
  split; [now apply rank_le_leb|]. split; [now apply rank_le_leb|].
  destruct (currentStep w <? step) eqn:E5; [|split; trivial].
  - apply ltb_rank_lt in E5.
    destruct (Math_max_rank _ _ N2 N1) as [Hn E].
    split; [apply rank_le_leb | apply rank_lt_ltb]; trivial; lia.
  - now apply rank_le_leb.
  - now apply rank_lt_ltb.
Qed.

End AppFacts.

(* ===================================================================== *)
(** * Facts about patterns, the lead form and escaping *)
(* ===================================================================== *)

Module RegexFacts.
Import Regex Languages.

Lemma lang_Cat_iff r1 r2 s :
  lang (Cat r1 r2) s <-> exists s1 s2, s = s1 ++ s2 /\ lang r1 s1 /\ lang r2 s2.
Proof.
  split.
  - intros H. inversion H; subst. eauto.
  - intros (s1 & s2 & -> & H1 & H2). now constructor.
Qed.

Lemma nullable_spec r : nullable r = true <-> lang r [].
Proof.
  induction r; cbn [nullable]; split; intros H; try discriminate;
    try (now constructor).
  - inversion H.
  - inversion H.
  - apply andb_true_iff in H as [H1 H2].
    change (@nil ascii) with (@nil ascii ++ []). constructor; tauto.
  - apply lang_Cat_iff in H as (s1 & s2 & E & H1 & H2).
    symmetry in E. apply app_eq_nil in E as [-> ->].
    apply andb_true_iff. tauto.
  - apply orb_true_iff in H as [H|H]; [apply lang_Alt_l | apply lang_Alt_r]; tauto.
  - inversion H; subst; apply orb_true_iff; tauto.
Qed.

Lemma star_cons r c s :
  lang (Star r) (c :: s) ->
  exists s1 s2, s = s1 ++ s2 /\ lang r (c :: s1) /\ lang (Star r) s2.
Proof.
  intros H. remember (Star r) as R eqn:ER. remember (c :: s) as cs eqn:Ecs.
  revert s Ecs. induction H; intros s' Ecs; try discriminate.
  inversion ER; subst r0.
  destruct s1 as [|d s1].
  - cbn in Ecs. now apply IHlang2.
  - cbn in Ecs. inversion Ecs; subst. eauto.
Qed.

Lemma lang_Alt r1 r2 s : lang (Alt r1 r2) s <-> lang r1 s \/ lang r2 s.
Proof.
  split.
  - intros H. inversion H; subst; tauto.
  - intros [H|H]; [now apply lang_Alt_l | now apply lang_Alt_r].
Qed.

Lemma lang_Empty_inv s : lang Empty s <-> s = [].
Proof.
  split.
  - intros H. now inversion H.
  - intros ->. constructor.
Qed.

Lemma lang_Class_inv p s : lang (Class p) s <-> exists c, s = [c] /\ p c = true.
Proof.
  split.
  - intros H. inversion H; subst. eauto.
  - intros (c & -> & H). now constructor.
Qed.

Lemma lang_Nothing s : ~ lang Nothing s.
Proof. intros H. inversion H. Qed.

Lemma derive_Cat c r1 r2 s :
  lang (derive c (Cat r1 r2)) s <->
  lang (Cat (derive c r1) r2) s \/ (lang r1 [] /\ lang (derive c r2) s).
Proof.
  cbn [derive]. rewrite <- nullable_spec. destruct (nullable r1).
  - rewrite lang_Alt. intuition.
  - intuition discriminate.
Qed.

Lemma derive_spec c r : forall s, lang (derive c r) s <-> lang r (c :: s).
Proof.
  induction r; intros s.
  - cbn. split; intros H; now apply lang_Nothing in H.
  - cbn. rewrite lang_Empty_inv. split; [intros H; now apply lang_Nothing in H | discriminate].
  - cbn [derive]. rewrite lang_Class_inv. destruct (p c) eqn:E.
    + rewrite lang_Empty_inv. split.
      * intros ->. eauto.
      * intros (d & [= _ ->] & _). reflexivity.
    + split; [intros H; now apply lang_Nothing in H|].
      intros (d & [= -> _] & H). congruence.
  - rewrite derive_Cat, !lang_Cat_iff. split.
    + intros [(s1 & s2 & -> & H1 & H2) | [N H]].
      * exists (c :: s1), s2. rewrite <- IHr1. auto.
      * exists [], (c :: s). rewrite <- IHr2. auto.
    + intros (s1 & s2 & E & H1 & H2). destruct s1 as [|d s1]; cbn in E.
      * subst s2. right. rewrite IHr2. auto.
      * injection E as <- ->. left. exists s1, s2. rewrite IHr1. auto.
  - cbn [derive]. rewrite !lang_Alt, IHr1, IHr2. reflexivity.
  - cbn [derive]. rewrite lang_Cat_iff. split.
    + intros (s1 & s2 & -> & H1 & H2). change (c :: s1 ++ s2) with ((c :: s1) ++ s2).
      constructor; trivial. now apply IHr.
    + intros H. apply star_cons in H as (s1 & s2 & -> & H1 & H2).
      exists s1, s2. rewrite IHr. auto.
Qed.

Lemma matches_spec s : forall r, matches r s = true <-> lang r s.
Proof.
  induction s as [|c s IH]; intros r; cbn [matches].
  - apply nullable_spec.
  - rewrite IH. apply derive_spec.
Qed.

Lemma lang_Chr c s : lang (Chr c) s <-> s = [c].
Proof.
  split.
  - intros H. inversion H; subst. apply Ascii.eqb_eq in H1. now subst.
  - intros ->. constructor. apply Ascii.eqb_refl.
Qed.

Lemma lang_Star_Class p s : lang (Star (Class p)) s <-> Forall (fun c => p c = true) s.
Proof.
  split.
  - intros H. remember (Star (Class p)) as R eqn:E.
    induction H; try discriminate; [constructor|].
    inversion E; subst. inversion H; subst. constructor; auto.
  - induction 1 as [|c s Hc Hs IH]; [constructor|].
    change (c :: s) with ([c] ++ s). constructor; trivial. now constructor.
Qed.

Lemma lang_Plus_Class p s :
  lang (Plus (Class p)) s <-> s <> [] /\ Forall (fun c => p c = true) s.
Proof.
  unfold Plus. split.
  - intros H. inversion H; subst. inversion H2; subst.
    apply lang_Star_Class in H4. split; [discriminate | now constructor].
  - intros [Hn H]. destruct H as [|c s Hc Hs]; [contradiction|].
    change (c :: s) with ([c] ++ s). constructor; [now constructor|].
    now apply lang_Star_Class.
Qed.

Lemma list_ascii_app a b :
  list_ascii_of_string (a ++ b) = list_ascii_of_string a ++ list_ascii_of_string b.
Proof. induction a as [|c a IH]; [reflexivity|]. simpl. f_equal. exact IH. Qed.

Lemma plain_list s :
  plain s <->
  list_ascii_of_string s <> [] /\
  Forall (fun c => no_space_no_at c = true) (list_ascii_of_string s).
Proof.
  unfold plain. destruct s; cbn; split; intros [H1 H2]; split; trivial; congruence.
Qed.

End RegexFacts.

Module LeadFacts.
Import Regex Server LeadCapture.

Lemma blank_or_trimmed s :
  String.eqb s "" || String.eqb (trimmed s) "" = String.eqb (trimmed s) "".
Proof. destruct s; reflexivity. Qed.

Lemma property_name n e p m c :
  property (JObject [ ("name", n); ("email", e); ("phone", p); ("message", m);
                      ("calculatorData", c) ]%string) "name" = Some n.
Proof. reflexivity. Qed.

Lemma property_email n e p m c :
  property (JObject [ ("name", n); ("email", e); ("phone", p); ("message", m);
                      ("calculatorData", c) ]%string) "email" = Some e.
Proof. reflexivity. Qed.

End LeadFacts.

Module MarkupFacts.
Import Server Markup.

Ltac each_unit c := destruct c as [[] [] [] [] [] [] [] []].

Lemma replaced_cons c t : replaced (String c t) = (escaped_unit c ++ replaced t)%string.
Proof. each_unit c; reflexivity. Qed.

Lemma replaced_escaped s : replaced s = escaped s.
Proof.
  induction s as [|c t IH]; [reflexivity|].
  rewrite replaced_cons, IH. reflexivity.
Qed.

Lemma inert_unit c t : inert (escaped_unit c ++ t) = inert t.
Proof. each_unit c; reflexivity. Qed.

Lemma inert_escaped s : inert (escaped s) = true.
Proof.
  induction s as [|c t IH]; [reflexivity|].
  cbn [escaped]. now rewrite inert_unit.
Qed.

Lemma begins_spec p : forall s, begins p s = true -> exists rest, s = (p ++ rest)%string.
Proof.
  induction p as [|c p IH]; intros s H.
  - now exists s.
  - destruct s as [|d s]; [discriminate|]. cbn in H.
    apply andb_true_iff in H as [E H]. apply Ascii.eqb_eq in E as ->.
    destruct (IH _ H) as [rest ->]. now exists rest.
Qed.

Lemma inert_no_unsafe s :
  inert s = true -> forall c, In c unsafe -> ~ In c (list_ascii_of_string s).
Proof.
  induction s as [|d t IH]; intros H c U; cbn [list_ascii_of_string In]; [tauto|].
  cbn [inert] in H. apply andb_true_iff in H as [Hd Ht].
  intros [E|I]; [subst d|exact (IH Ht c U I)].
  destruct (Ascii.eqb c "&") eqn:E.
  - apply Ascii.eqb_eq in E. subst c. cbn in U. unfold quote in U.
    intuition discriminate.
  - apply negb_true_iff in Hd.
    assert (X : existsb (Ascii.eqb c) unsafe = true).
    { apply existsb_exists. exists c. split; [trivial | apply Ascii.eqb_refl]. }
    congruence.
Qed.

Lemma inert_references before : forall s after,
  inert s = true -> s = (before ++ String "&" after)%string ->
  exists r rest, In r references /\ after = (r ++ rest)%string.
Proof.
  induction before as [|b before IH]; intros s after H ->.
  - cbn in H. apply andb_true_iff in H as [H _].
    apply existsb_exists in H as (r & I & B).
    destruct (begins_spec _ _ B) as [rest ->]. eauto.
  - cbn in H. apply andb_true_iff in H as [_ H]. eauto.
Qed.

End MarkupFacts.

Module EscapeFacts.
Import Server Markup MarkupFacts.

Lemma unit_cases c :
  (c <> "&"%char /\ escaped_unit c = String c "") \/
  In (c, escaped_unit c)
     [ ("&"%char, "&amp;"); ("<"%char, "&lt;"); (">"%char, "&gt;"); (quote, "&quot;");
       ("'"%char, "&#039;") ]%string.
Proof. each_unit c; first [left; split; [discriminate | reflexivity] | right; cbn; tauto]. Qed.

Lemma escaped_inj s : forall t, escaped s = escaped t -> s = t.
Proof.
  induction s as [|c s IH]; intros [|d t] E; trivial.
  - exfalso. cbn [escaped] in E.
    destruct (unit_cases d) as [[_ D]|D]; [rewrite D in E; discriminate|].
    cbn [In] in D.
    repeat (destruct D as [D|D]; [injection D as _ D; rewrite <- D in E; discriminate|]).
    contradiction.
  - exfalso. cbn [escaped] in E.
    destruct (unit_cases c) as [[_ D]|D]; [rewrite D in E; discriminate|].
    cbn [In] in D.
    repeat (destruct D as [D|D]; [injection D as _ D; rewrite <- D in E; discriminate|]).
    contradiction.
  - cbn [escaped] in E.
    enough (X : c = d /\ escaped s = escaped t).
    { destruct X as [-> X]. f_equal. now apply IH. }
    destruct (unit_cases c) as [[Nc C]|C], (unit_cases d) as [[Nd D]|D].
    + rewrite C, D in E. cbn in E. injection E as -> E. auto.
    + rewrite C in E. cbn [In] in D.
      repeat (destruct D as [D|D];
              [injection D as _ D; rewrite <- D in E; cbn in E; injection E as -> _;
               congruence|]).
      contradiction.
    + rewrite D in E. cbn [In] in C.
      repeat (destruct C as [C|C];
              [injection C as _ C; rewrite <- C in E; cbn in E; injection E as <- _;
               congruence|]).
      contradiction.
    + cbn [In] in C, D.
      repeat (destruct C as [C|C]; [injection C as <- C; rewrite <- C in E|]);
        try contradiction;
        repeat (destruct D as [D|D]; [injection D as <- D; rewrite <- D in E|]);
        try contradiction;
        cbn in E; first [discriminate | injection E as E; auto].
Qed.

End EscapeFacts.

(* ===================================================================== *)
(** * Facts about digits, grouping and the look-ahead *)
(* ===================================================================== *)

Module DigitFacts.
Import Text Fixed Grouping.
Local Open Scope Z_scope.

Lemma tenth_below n f : 10 <= n < 2 ^ (Z.of_nat (S f) + 1) -> 0 <= n / 10 < 2 ^ (Z.of_nat f + 1).
Proof.
  intros [H1 H2]. split; [apply Z.div_pos; lia|].
  apply Z.div_lt_upper_bound; [lia|].
  replace (Z.of_nat (S f) + 1) with (1 + (Z.of_nat f + 1)) in H2 by lia.
  rewrite Z.pow_add_r in H2 by lia. change (2 ^ 1) with 2 in H2. lia.
Qed.

Lemma ten_fuel n f : 10 <= n < 2 ^ (Z.of_nat f + 1) -> exists f', f = S f'.
Proof.
  intros [H1 H2]. destruct f as [|f']; [|eauto].
  change (2 ^ (Z.of_nat 0 + 1)) with 2 in H2. lia.
Qed.

Lemma decimal_digits_S f n acc :
  decimal_digits (S f) n acc =
  if n <? 10 then digit_char n :: acc
  else decimal_digits f (n / 10) (digit_char (n mod 10) :: acc).
Proof. reflexivity. Qed.

Lemma decimal_digits_acc f : forall n acc,
  0 <= n < 2 ^ (Z.of_nat f + 1) ->
  decimal_digits (S f) n acc = decimal_digits (S f) n [] ++ acc.
Proof.
  induction f as [|f IH]; intros n acc H;
    rewrite (decimal_digits_S _ n acc), (decimal_digits_S _ n []).
  - destruct (n <? 10) eqn:E; [reflexivity|]. apply Z.ltb_ge in E.
    change (2 ^ (Z.of_nat 0 + 1)) with 2 in H. lia.
  - destruct (n <? 10) eqn:E; [reflexivity|]. apply Z.ltb_ge in E.
    assert (B := tenth_below n f (conj E (proj2 H))).
    rewrite (IH _ (_ :: acc) B), (IH _ [_] B), <- app_assoc. reflexivity.
Qed.

Lemma decimal_digits_more f : forall n acc,
  0 <= n < 2 ^ (Z.of_nat f + 1) ->
  decimal_digits (S (S f)) n acc = decimal_digits (S f) n acc.
Proof.
  induction f as [|f IH]; intros n acc H.
  - rewrite (decimal_digits_S 1 n acc), (decimal_digits_S 0 n acc).
    destruct (n <? 10) eqn:E; [reflexivity|]. apply Z.ltb_ge in E.
    change (2 ^ (Z.of_nat 0 + 1)) with 2 in H. lia.
  - rewrite (decimal_digits_S (S (S f)) n acc), (decimal_digits_S (S f) n acc).
    destruct (n <? 10) eqn:E; [reflexivity|]. apply Z.ltb_ge in E.
    apply IH. exact (tenth_below n f (conj E (proj2 H))).
Qed.

Lemma decimal_digits_fuel g : forall f n acc,
  0 <= n < 2 ^ (Z.of_nat f + 1) ->
  decimal_digits (S (g + f)) n acc = decimal_digits (S f) n acc.
Proof.
  induction g as [|g IH]; intros f n acc H; [reflexivity|].
  change (S (S g + f)) with (S (S (g + f))).
  rewrite decimal_digits_more, IH; trivial.
  split; [lia|]. eapply Z.lt_le_trans; [apply H|].
  apply Z.pow_le_mono_r; lia.
Qed.

Lemma below_log2 n : 0 <= n -> n < 2 ^ (Z.of_nat (Z.to_nat (Z.log2 n)) + 1).
Proof.
  intros H. rewrite Z2Nat.id by apply Z.log2_nonneg.
  destruct (Z.eq_dec n 0) as [->|N]; [reflexivity|].
  replace (Z.log2 n + 1) with (Z.succ (Z.log2 n)) by lia.
  apply Z.log2_spec. lia.
Qed.

Lemma digits_of_fuel n f :
  0 <= n < 2 ^ (Z.of_nat f + 1) -> digits_of n = decimal_digits (S f) n [].
Proof.
  intros H. unfold digits_of.
  assert (L : (Z.to_nat (Z.log2 n) <= f)%nat).
  { destruct (Z.eq_dec n 0) as [->|N]; [cbn; lia|].
    assert (Z.log2 n < Z.of_nat f + 1) by (apply Z.log2_lt_pow2; lia). lia. }
  replace f with ((f - Z.to_nat (Z.log2 n)) + Z.to_nat (Z.log2 n))%nat at 1 by lia.
  symmetry. apply decimal_digits_fuel. split; [lia|]. apply below_log2. lia.
Qed.

Lemma digits_of_small n : n < 10 -> digits_of n = [digit_char n].
Proof.
  intros H. unfold digits_of. rewrite decimal_digits_S.
  apply Z.ltb_lt in H. now rewrite H.
Qed.

Lemma digits_of_step n :
  10 <= n -> digits_of n = digits_of (n / 10) ++ [digit_char (n mod 10)].
Proof.
  intros H.
  assert (B := below_log2 n ltac:(lia)).
  destruct (ten_fuel n _ (conj H B)) as [f E]. rewrite E in B.
  assert (T := tenth_below n f (conj H B)).
  rewrite (digits_of_fuel n (S f)) by lia.
  rewrite (digits_of_fuel (n / 10) f T).
  rewrite (decimal_digits_S (S f)).
  destruct (n <? 10) eqn:L; [apply Z.ltb_lt in L; lia|].
  now apply decimal_digits_acc.
Qed.

Lemma digit_cases k : 0 <= k < 10 ->
  k = 0 \/ k = 1 \/ k = 2 \/ k = 3 \/ k = 4 \/ k = 5 \/ k = 6 \/ k = 7 \/ k = 8 \/ k = 9.
Proof. lia. Qed.

Lemma is_digit_char k : 0 <= k < 10 -> is_digit (digit_char k) = true.
Proof.
  intros H. destruct (digit_cases k H) as [->|[->|[->|[->|[->|[->|[->|[->|[->| ->]]]]]]]]];
    reflexivity.
Qed.

Lemma digits_of_digits n : 0 <= n -> Forall (fun c => is_digit c = true) (digits_of n).
Proof.
  intros H. generalize H.
  apply (Z_lt_induction
           (fun n => 0 <= n -> Forall (fun c => is_digit c = true) (digits_of n)));
    [|exact H].
  clear n H. intros n IH N. destruct (Z.lt_ge_cases n 10) as [L|G].
  - rewrite digits_of_small by trivial.
    constructor; [apply is_digit_char; lia | constructor].
  - rewrite digits_of_step by trivial. apply Forall_app.
    assert (Q : 0 <= n / 10 < n) by (split; [apply Z.div_pos; lia | apply Z.div_lt; lia]).
    split.
    + apply IH; lia.
    + constructor; [|constructor]. apply is_digit_char. apply Z.mod_pos_bound. lia.
Qed.

Lemma digits_of_two n : 10 <= n < 100 -> digits_of n = two n.
Proof.
  intros H. rewrite digits_of_step by lia.
  rewrite digits_of_small by (apply Z.div_lt_upper_bound; lia). reflexivity.
Qed.

Lemma two_mod n : two (n mod 100) = [digit_char (n / 10 mod 10); digit_char (n mod 10)].
Proof.
  unfold two.
  replace (n mod 100 / 10) with (n / 10 mod 10) by (Z.to_euclidean_division_equations; lia).
  replace (n mod 100 mod 10) with (n mod 10) by (Z.to_euclidean_division_equations; lia).
  reflexivity.
Qed.

Lemma digits_of_hundreds n :
  100 <= n -> digits_of n = digits_of (n / 100) ++ two (n mod 100).
Proof.
  intros H. rewrite two_mod, (digits_of_step n) by lia.
  assert (10 <= n / 10) by (apply Z.div_le_lower_bound; lia).
  rewrite (digits_of_step (n / 10)) by trivial.
  rewrite Z.div_div by lia. rewrite <- app_assoc. reflexivity.
Qed.

Lemma digits_of_thousands n :
  1000 <= n -> digits_of n = digits_of (n / 1000) ++ three (n mod 1000).
Proof.
  intros H. rewrite (digits_of_step n) by lia.
  assert (100 <= n / 10) by (apply Z.div_le_lower_bound; lia).
  rewrite (digits_of_hundreds (n / 10)) by trivial.
  rewrite Z.div_div by lia. rewrite <- app_assoc. f_equal.
  unfold three. rewrite !two_mod. cbn [app].
  replace (n mod 1000 / 100) with (n / 10 / 10 mod 10)
    by (Z.to_euclidean_division_equations; lia).
  replace (n mod 1000 / 10 mod 10) with (n / 10 mod 10)
    by (Z.to_euclidean_division_equations; lia).
  replace (n mod 1000 mod 10) with (n mod 10) by (Z.to_euclidean_division_equations; lia).
  reflexivity.
Qed.

End DigitFacts.

Module GroupFacts.
Import Text Regex Languages RegexFacts Fixed Grouping DigitFacts.
Local Open Scope Z_scope.

Lemma digits_of_0 : digits_of 0 = ["0"%char].
Proof. reflexivity. Qed.

Lemma two_small n : 0 <= n < 10 -> two n = ["0"%char; digit_char n].
Proof.
  intros H. unfold two. rewrite Z.div_small, Z.mod_small by lia. reflexivity.
Qed.

Lemma digits_of_nonempty n : digits_of n <> [].
Proof.
  destruct (Z.lt_ge_cases n 10).
  - now rewrite digits_of_small.
  - rewrite digits_of_step by trivial. intros E. apply app_eq_nil in E as [_ E].
    discriminate.
Qed.

Lemma firstn_skipn_two {A} (xs : list A) a b :
  firstn (length (xs ++ [a; b]) - 2) (xs ++ [a; b]) = xs /\
  skipn (length (xs ++ [a; b]) - 2) (xs ++ [a; b]) = [a; b].
Proof.
  rewrite length_app. cbn [length].
  replace (length xs + 2 - 2)%nat with (length xs + 0)%nat by lia. split.
  - rewrite firstn_app_2. cbn. apply app_nil_r.
  - rewrite skipn_app, skipn_all2 by lia.
    replace (length xs + 0 - length xs)%nat with 0%nat by lia. reflexivity.
Qed.

Lemma fixed_two n :
  0 <= n -> fixed_digits n 2 = digits_of (n / 100) ++ "."%char :: two (n mod 100).
Proof.
  intros H. unfold fixed_digits.
  destruct (Z.lt_ge_cases n 10) as [A|A]; [|destruct (Z.lt_ge_cases n 100) as [B|B]].
  - rewrite (digits_of_small n), (Z.div_small n 100), (Z.mod_small n 100), (two_small n)
      by lia.
    reflexivity.
  - rewrite (digits_of_two n), (Z.div_small n 100), (Z.mod_small n 100) by lia.
    reflexivity.
  - rewrite digits_of_hundreds by trivial. cbv zeta. unfold two.
    set (xs := digits_of (n / 100)). set (a := digit_char _). set (b := digit_char _).
    destruct (firstn_skipn_two xs a b) as [F S].
    assert (L : (length (xs ++ [a; b]) <=? 2)%nat = false).
    { apply Nat.leb_gt. rewrite length_app. cbn [length].
      assert (X : xs <> []) by apply digits_of_nonempty.
      destruct xs; [contradiction | cbn [length]; lia]. }
    rewrite L, F, S. reflexivity.
Qed.

Lemma commas_short ds : (length ds <= 3)%nat -> commas ds = ds.
Proof.
  destruct ds as [|a [|b [|c [|d ds]]]]; cbn [length]; intros H; try reflexivity. lia.
Qed.

Lemma commas_cons c t :
  commas (c :: t) =
  if (0 <? length t)%nat && (length t mod 3 =? 0)%nat then c :: ","%char :: commas t
  else c :: commas t.
Proof. reflexivity. Qed.

Lemma commas_three xs a b c :
  xs <> [] -> commas (xs ++ [a; b; c]) = commas xs ++ ","%char :: [a; b; c].
Proof.
  induction xs as [|x xs IH]; [contradiction|]. intros _.
  change ((x :: xs) ++ [a; b; c]) with (x :: (xs ++ [a; b; c])).
  rewrite !commas_cons, length_app. cbn [length].
  destruct xs as [|y xs].
  - reflexivity.
  - rewrite IH by discriminate.
    assert (P : (0 <? length (y :: xs) + 3)%nat = true) by (apply Nat.ltb_lt; lia).
    assert (Q : (0 <? length (y :: xs))%nat = true) by (apply Nat.ltb_lt; cbn; lia).
    assert (M : ((length (y :: xs) + 3) mod 3 = length (y :: xs) mod 3)%nat).
    { replace (length (y :: xs) + 3)%nat with (length (y :: xs) + 1 * 3)%nat by lia.
      apply Nat.Div0.mod_add. }
    rewrite P, Q, M. destruct (_ =? 0)%nat; reflexivity.
Qed.

Lemma digits_of_short n : 0 <= n < 1000 -> (length (digits_of n) <= 3)%nat.
Proof.
  intros H. destruct (Z.lt_ge_cases n 10) as [A|A]; [|destruct (Z.lt_ge_cases n 100) as [B|B]].
  - rewrite digits_of_small by lia. cbn. lia.
  - rewrite digits_of_two by lia. cbn. lia.
  - rewrite digits_of_hundreds, digits_of_small by (try apply Z.div_lt_upper_bound; lia).
    cbn. lia.
Qed.

Lemma grouped_commas fuel : forall d,
  0 <= d < 2 ^ (Z.of_nat fuel + 1) -> grouped fuel d = commas (digits_of d).
Proof.
  induction fuel as [|fuel IH]; intros d H; cbn [grouped].
  - change (2 ^ (Z.of_nat 0 + 1)) with 2 in H.
    symmetry. apply commas_short, digits_of_short. lia.
  - destruct (d <? 1000) eqn:E.
    + apply Z.ltb_lt in E. symmetry. apply commas_short, digits_of_short. lia.
    + apply Z.ltb_ge in E.
      assert (B : 0 <= d / 1000 < 2 ^ (Z.of_nat fuel + 1)).
      { split; [apply Z.div_pos; lia|]. apply Z.div_lt_upper_bound; [lia|].
        replace (Z.of_nat (S fuel) + 1) with (1 + (Z.of_nat fuel + 1)) in H by lia.
        rewrite Z.pow_add_r in H by lia. change (2 ^ 1) with 2 in H. lia. }
      rewrite (IH _ B), (digits_of_thousands d E).
      unfold three, two. apply eq_sym, commas_three, digits_of_nonempty.
Qed.

Lemma thousands_commas d : 0 <= d -> thousands d = commas (digits_of d).
Proof.
  intros H. apply grouped_commas. split; [trivial | now apply below_log2].
Qed.

End GroupFacts.

Module AheadFacts.
Import Text Regex Languages RegexFacts Fixed Grouping DigitFacts GroupFacts.

Lemma matches_ahead_spec s : forall r,
  matches_ahead r s = true <-> exists p q, s = p ++ q /\ lang r p.
Proof.
  induction s as [|c s IH]; intros r; cbn [matches_ahead].
  - rewrite orb_false_r, nullable_spec. split.
    + intros H. now exists [], [].
    + intros (p & q & E & H). symmetry in E. apply app_eq_nil in E as [-> _]. exact H.
  - rewrite orb_true_iff, nullable_spec, IH. split.
    + intros [H | (p & q & -> & H)].
      * now exists [], (c :: s).
      * exists (c :: p), q. split; [reflexivity | now apply derive_spec].
    + intros ([|d p] & q & E & H); [now left | right].
      injection E as <- ->. exists p, q. split; [reflexivity | now apply derive_spec].
Qed.

Lemma lang_TRIPLE s :
  lang TRIPLE s <->
  exists a b c, s = [a; b; c] /\ is_digit a = true /\ is_digit b = true /\ is_digit c = true.
Proof.
  unfold TRIPLE, DIGIT. rewrite lang_Cat_iff. split.
  - intros (s1 & s2 & -> & H1 & H2). apply lang_Cat_iff in H2 as (s3 & s4 & -> & H3 & H4).
    apply lang_Class_inv in H1 as (a & -> & Ha), H3 as (b & -> & Hb), H4 as (c & -> & Hc).
    exists a, b, c. auto.
  - intros (a & b & c & -> & Ha & Hb & Hc). exists [a], [b; c]. repeat split.
    + now constructor.
    + change [b; c] with ([b] ++ [c]). constructor; now constructor.
Qed.

Lemma lang_triples s :
  lang (Star TRIPLE) s <-> Forall is_a_digit s /\ (length s mod 3 = 0)%nat.
Proof.
  split.
  - intros H. remember (Star TRIPLE) as R eqn:E.
    induction H; try discriminate; [split; [constructor | reflexivity]|].
    injection E as ->. destruct (IHlang2 eq_refl) as [D M].
    apply lang_TRIPLE in H as (a & b & c & -> & Ha & Hb & Hc). split.
    + repeat (constructor; trivial).
    + cbn [app length]. change (S (S (S (length s2)))) with (3 + length s2)%nat.
      rewrite <- Nat.Div0.add_mod_idemp_l. exact M.
  - intros [D M]. remember (length s) as n eqn:L. revert s L D M.
    induction n as [n IH] using lt_wf_ind. intros s L D M.
    destruct s as [|a [|b [|c s]]]; cbn [length] in L; subst n;
      [constructor | discriminate M | discriminate M |].
    inversion D as [|? ? Ha D1]; subst. inversion D1 as [|? ? Hb D2]; subst.
    inversion D2 as [|? ? Hc D3]; subst.
    change (a :: b :: c :: s) with ([a; b; c] ++ s). constructor.
    + apply lang_TRIPLE. exists a, b, c. auto.
    + apply (IH (length s)); trivial; [lia|].
      change (S (S (S (length s)))) with (3 + length s)%nat in M.
      rewrite <- Nat.Div0.add_mod_idemp_l in M. exact M.
Qed.

Lemma lang_threes s :
  lang (Plus TRIPLE) s <->
  Forall is_a_digit s /\ (0 < length s)%nat /\ (length s mod 3 = 0)%nat.
Proof.
  unfold Plus. rewrite lang_Cat_iff. split.
  - intros (s1 & s2 & -> & H1 & H2).
    assert (T : lang (Star TRIPLE) (s1 ++ s2)) by now constructor.
    apply lang_triples in T as [D M].
    apply lang_TRIPLE in H1 as (a & b & c & -> & _). repeat split; trivial. cbn. lia.
  - intros (D & P & M). destruct s as [|a [|b [|c s]]]; cbn [length] in *;
      [lia | discriminate M | discriminate M |].
    assert (T : lang (Star TRIPLE) (a :: b :: c :: s)) by now apply lang_triples.
    inversion D as [|? ? Ha D1]; subst. inversion D1 as [|? ? Hb D2]; subst.
    inversion D2 as [|? ? Hc D3]; subst.
    exists [a; b; c], s. repeat split.
    + apply lang_TRIPLE. exists a, b, c. auto.
    + apply lang_triples. split; trivial.
      change (S (S (S (length s)))) with (3 + length s)%nat in M.
      rewrite <- Nat.Div0.add_mod_idemp_l in M. exact M.
Qed.

Lemma digit_run ds : forall xs rest q,
  Forall is_a_digit ds -> Forall is_a_digit xs ->
  match rest with c :: _ => is_digit c = false | [] => True end ->
  ds ++ rest = xs ++ "."%char :: q -> ds = xs /\ rest = "."%char :: q.
Proof.
  induction ds as [|d ds IH]; intros xs rest q D X R E.
  - destruct xs as [|x xs]; [auto|]. cbn in E. subst rest.
    inversion X; subst. congruence.
  - destruct xs as [|x xs]; cbn in E.
    + injection E as -> _. inversion D; subst. discriminate.
    + injection E as -> E. inversion D; subst. inversion X; subst.
      destruct (IH xs rest q) as [-> ->]; auto.
Qed.

Lemma ahead_iff ds rest :
  Forall is_a_digit ds ->
  match rest with c :: _ => is_digit c = false | [] => True end ->
  matches_ahead THREES_AND_POINT (ds ++ rest) = true <->
  (0 < length ds)%nat /\ (length ds mod 3 = 0)%nat /\ exists q, rest = "."%char :: q.
Proof.
  intros D R. rewrite matches_ahead_spec. unfold THREES_AND_POINT. split.
  - intros (p & q & E & H). apply lang_Cat_iff in H as (xs & pt & -> & H1 & H2).
    apply lang_Chr in H2 as ->. apply lang_threes in H1 as (X & P & M).
    rewrite <- app_assoc in E. cbn [app] in E.
    destruct (digit_run ds xs rest q D X R E) as [-> ->]. eauto.
  - intros (P & M & q & ->). exists (ds ++ ["."%char]), q. split.
    + now rewrite <- app_assoc.
    + constructor; [now apply lang_threes | now apply lang_Chr].
Qed.

Lemma ahead_point ds q :
  Forall is_a_digit ds ->
  matches_ahead THREES_AND_POINT (ds ++ "."%char :: q)
  = (0 <? length ds)%nat && (length ds mod 3 =? 0)%nat.
Proof.
  intros D. apply eq_true_iff_eq. rewrite ahead_iff by (trivial; reflexivity).
  rewrite andb_true_iff, Nat.ltb_lt, Nat.eqb_eq. split.
  - tauto.
  - intros [P M]. eauto.
Qed.

Lemma ahead_end ds :
  Forall is_a_digit ds -> matches_ahead THREES_AND_POINT ds = false.
Proof.
  intros D. apply not_true_is_false. rewrite <- (app_nil_r ds).
  rewrite ahead_iff by (trivial; exact I). intros (_ & _ & q & E). discriminate.
Qed.

Lemma separate_digits ds : Forall is_a_digit ds -> separate ds = ds.
Proof.
  induction 1 as [|c ds Hc D IH]; [reflexivity|].
  cbn [separate]. rewrite ahead_end, andb_false_r, IH; trivial.
Qed.

Lemma separate_point ds cs :
  Forall is_a_digit ds -> Forall is_a_digit cs ->
  separate (ds ++ "."%char :: cs) = commas ds ++ "."%char :: cs.
Proof.
  intros D C. induction D as [|c ds Hc D IH].
  - cbn [app separate commas]. rewrite (separate_digits cs C). reflexivity.
  - cbn [app separate]. rewrite commas_cons, Hc, ahead_point, IH by trivial.
    cbn [andb]. now destruct (_ && _).
Qed.

End AheadFacts.

Module FixedFacts.
Import Text Regex Fixed Grouping DigitFacts GroupFacts AheadFacts.
Import View Order FloatFacts SignFacts.

Lemma nearest_scaled_nonneg m e f : (0 <= nearest_scaled m e f)%Z.
Proof.
  unfold nearest_scaled.
  assert (A : (0 < 2 ^ Z.max e 0)%Z) by (apply Z.pow_pos_nonneg; lia).
  assert (B : (0 < 2 ^ Z.max (- e) 0)%Z) by (apply Z.pow_pos_nonneg; lia).
  assert (C : (0 < 10 ^ Z.of_nat f)%Z) by (apply Z.pow_pos_nonneg; lia).
  apply Z.div_pos; [|lia]. 
  assert (0 <= 2 * Z.pos m * 2 ^ Z.max e 0 * 10 ^ Z.of_nat f)%Z; [|lia].
  repeat apply Z.mul_nonneg_nonneg; lia.
Qed.

Lemma two_digits k : (0 <= k < 100)%Z -> Forall is_a_digit (two k).
Proof.
  intros H. unfold two. repeat constructor; apply is_digit_char.
  - split; [apply Z.div_pos; lia | apply Z.div_lt_upper_bound; lia].
  - apply Z.mod_pos_bound. lia.
Qed.

Lemma with_commas_fixed n :
  (0 <= n)%Z ->
  separate (fixed_digits n 2)
  = thousands (n / 100) ++ "."%char :: two (n mod 100).
Proof.
  intros H. assert (Q : (0 <= n / 100)%Z) by (apply Z.div_pos; lia).
  rewrite fixed_two, thousands_commas by trivial.
  apply separate_point.
  - now apply digits_of_digits.
  - apply two_digits. apply Z.mod_pos_bound. lia.
Qed.

Lemma small_cases x :
  (abs x <? 1e21) = true ->
  is_nan x = false /\ (1e21 <=? abs x) = false /\
  ((exists s, Prim2SF x = S754_zero s) \/ exists s m e, Prim2SF x = S754_finite s m e).
Proof.
  intros H. repeat split.
  - rewrite is_nan_SF. rewrite FloatAxioms.ltb_spec, FloatAxioms.abs_spec in H.
    now destruct (Prim2SF x).
  - destruct (1e21 <=? abs x) eqn:L; [|reflexivity].
    apply leb_not_ltb in L. congruence.
  - rewrite FloatAxioms.ltb_spec, FloatAxioms.abs_spec in H.
    destruct (Prim2SF x) as [s|s| |s m e]; eauto; discriminate H.
Qed.

End FixedFacts.

(* ===================================================================== *)
(** * Facts about rounding: it keeps the order *)
(* ===================================================================== *)

Module GridFacts.
Import JS.
Import Grid View FloatFacts SumFacts.
Local Open Scope Z_scope.

Lemma quarters_of_loc m l : quarters (shr_record_of_loc m l) = 4 * m + loc_quarters l.
Proof. destruct l as [|[]]; unfold quarters; simpl; lia. Qed.

Lemma quarters_shr_1 mrs :
  0 <= shr_m mrs -> quarters (shr_1 mrs) = halve (quarters mrs) /\ 0 <= shr_m (shr_1 mrs).
Proof.
  destruct mrs as [m r s]. unfold quarters, halve. cbn [shr_m shr_r shr_s]. intros Hm.
  destruct m as [|p|p]; [| |lia].
  - destruct r, s; (split; [vm_compute; reflexivity | cbn; lia]).
  - destruct p as [p|p|]; destruct r, s; cbn [shr_1 orb shr_m shr_r shr_s];
      (split; [|lia]).
    all: match goal with
         | |- _ = 2 * (?t / 4) + (if ?t mod 4 =? 0 then 0 else 1) =>
             let q := fresh "q" in let E := fresh "E" in
             destruct (Z.eqb_spec (t mod 4) 0) as [E|E];
             Z.to_euclidean_division_equations; lia
         end.
Qed.

Lemma quarters_iter p : forall mrs,
  0 <= shr_m mrs ->
  quarters (SpecFloat.iter_pos shr_1 p mrs) = Pos.iter halve (quarters mrs) p /\
  0 <= shr_m (SpecFloat.iter_pos shr_1 p mrs).
Proof.
  induction p as [p IH|p IH|]; intros mrs H; cbn [SpecFloat.iter_pos Pos.iter].
  - destruct (quarters_shr_1 mrs H) as [E1 H1].
    destruct (IH _ H1) as [E2 H2]. destruct (IH _ H2) as [E3 H3].
    split; [|exact H3]. rewrite E3, E2, E1. 
    rewrite <- !Pos.iter_swap. reflexivity.
  - destruct (IH _ H) as [E2 H2]. destruct (IH _ H2) as [E3 H3].
    split; [|exact H3]. now rewrite E3, E2.
  - now apply quarters_shr_1.
Qed.

Lemma halve_quotient a b : 0 <= a -> 0 < b -> halve (quotient_quarters a b) = quotient_quarters a (2 * b).
Proof.
  intros Ha Hb. unfold halve, quotient_quarters.
  destruct (Z.eqb_spec ((2 * a) mod b) 0) as [E1|E1];
    destruct (Z.eqb_spec ((2 * a) mod (2 * b)) 0) as [E2|E2];
    match goal with
    | |- context [?t mod 4 =? 0] => destruct (Z.eqb_spec (t mod 4) 0) as [E3|E3]
    end;
    Z.to_euclidean_division_equations; nia.
Qed.

Lemma iter_halve_quotient p : forall a b,
  0 <= a -> 0 < b ->
  Pos.iter halve (quotient_quarters a b) p = quotient_quarters a (b * 2 ^ Zpos p).
Proof.
  induction p as [|p IH] using Pos.peano_ind; intros a b Ha Hb.
  - cbn [Pos.iter]. rewrite halve_quotient by trivial. f_equal. lia.
  - rewrite Pos.iter_succ, IH, halve_quotient by (trivial; nia).
    f_equal. rewrite Pos2Z.inj_succ, Z.pow_succ_r by lia. lia.
Qed.

Lemma nearest_quarters mrs :
  0 <= shr_m mrs ->
  round_nearest_even (shr_m mrs) (loc_of_shr_record mrs) = nearest (quarters mrs).
Proof.
  destruct mrs as [m [] []]; unfold quarters, nearest; cbn [shr_m shr_r shr_s]; intros H;
    cbn [loc_of_shr_record round_nearest_even];
    match goal with
    | |- context [?t / 4] =>
        replace (t / 4) with m by (Z.to_euclidean_division_equations; lia)
    end;
    match goal with
    | |- context [?t mod 4] =>
        first [ replace (t mod 4) with 0 by (Z.to_euclidean_division_equations; lia)
              | replace (t mod 4) with 1 by (Z.to_euclidean_division_equations; lia)
              | replace (t mod 4) with 2 by (Z.to_euclidean_division_equations; lia)
              | replace (t mod 4) with 3 by (Z.to_euclidean_division_equations; lia) ]
    end; reflexivity.
Qed.

Lemma nearest_bounds t : t / 4 <= nearest t <= t / 4 + 1.
Proof.
  unfold nearest. destruct (_ <? 2); [lia|]. destruct (_ =? 2); [|lia].
  destruct (Z.even _); lia.
Qed.

Lemma nearest_exact m : nearest (4 * m) = m.
Proof.
  unfold nearest.
  replace (4 * m / 4) with m by (Z.to_euclidean_division_equations; lia).
  replace ((4 * m) mod 4) with 0 by (Z.to_euclidean_division_equations; lia).
  reflexivity.
Qed.

Lemma nearest_mono t u : t <= u -> nearest t <= nearest u.
Proof.
  intros H. destruct (Z.eq_dec (t / 4) (u / 4)) as [E|N].
  - unfold nearest. rewrite <- E.
    assert (C : t mod 4 <= u mod 4) by (Z.to_euclidean_division_equations; lia).
    destruct (Z.ltb_spec (t mod 4) 2), (Z.ltb_spec (u mod 4) 2);
      destruct (Z.eqb_spec (t mod 4) 2), (Z.eqb_spec (u mod 4) 2);
      destruct (Z.even (t / 4)); lia.
  - assert (L : t / 4 + 1 <= u / 4) by (Z.to_euclidean_division_equations; lia).
    pose proof (nearest_bounds t). pose proof (nearest_bounds u). lia.
Qed.

Lemma quotient_quarters_mono a b a' b' :
  0 <= a -> 0 < b -> 0 < b' -> a * b' <= a' * b ->
  quotient_quarters a b <= quotient_quarters a' b'.
Proof.
  intros Ha Hb Hb' H. unfold quotient_quarters.
  assert (L : 2 * a / b <= 2 * a' / b').
  { apply Z.div_le_lower_bound; [lia|].
    assert (M : b * (2 * a / b) <= 2 * a) by (apply Z.mul_div_le; lia).
    assert (0 <= 2 * a / b) by (apply Z.div_pos; lia).
    nia. }
  destruct (Z.eq_dec (2 * a / b) (2 * a' / b')) as [E|N].
  - destruct (Z.eqb_spec ((2 * a) mod b) 0) as [E1|E1];
      destruct (Z.eqb_spec ((2 * a') mod b') 0) as [E2|E2]; try lia.
    exfalso.
    pose proof (Z.div_mod (2 * a) b ltac:(lia)) as D1.
    pose proof (Z.div_mod (2 * a') b' ltac:(lia)) as D2.
    pose proof (Z.mod_pos_bound (2 * a) b Hb) as B1.
    rewrite E2 in D2. rewrite <- E in D2. nia.
  - destruct (_ =? 0), (_ =? 0); lia.
Qed.

Lemma quotient_quarters_floor a b :
  0 <= a -> 0 < b -> quotient_quarters a b / 4 = a / b.
Proof.
  intros Ha Hb. unfold quotient_quarters.
  destruct (Z.eqb_spec ((2 * a) mod b) 0); Z.to_euclidean_division_equations; nia.
Qed.

Lemma quotient_quarters_exact a : quotient_quarters a 1 = 4 * a.
Proof.
  unfold quotient_quarters. rewrite Z.div_1_r, Z.mod_1_r. cbn. lia.
Qed.

End GridFacts.

Module StageFacts.
Import JS.
Import Grid GridFacts Stage View FloatFacts SumFacts.
Local Open Scope Z_scope.

Lemma stands_for_floor a b m l : stands_for a b m l -> m = a / b /\ 0 <= m.
Proof.
  intros (Ha & Hb & E).
  pose proof (quotient_quarters_floor a b Ha Hb) as F. rewrite <- E in F.
  assert (m = a / b).
  { rewrite <- F. destruct l as [|[]]; cbn [loc_quarters];
      Z.to_euclidean_division_equations; lia. }
  split; [trivial|]. subst m. apply Z.div_pos; lia.
Qed.

Lemma stands_for_exact m : 0 <= m -> stands_for m 1 m loc_Exact.
Proof.
  intros H. repeat split; try lia. rewrite quotient_quarters_exact. cbn. lia.
Qed.

Lemma target_ge_emin m e : -1074 <= target m e.
Proof. apply fexp_ge_emin. Qed.

(** The first shift, on quarters. *)
Lemma first_shift a b m e l :
  stands_for a b m l -> e <= target m e ->
  snd (shr_fexp prec emax m e l) = target m e /\
  quarters (fst (shr_fexp prec emax m e l))
  = quotient_quarters a (b * 2 ^ (target m e - e)) /\
  0 <= shr_m (fst (shr_fexp prec emax m e l)).
Proof.
  intros S Hf. destruct (stands_for_floor _ _ _ _ S) as [_ Hm].
  destruct S as (Ha & Hb & E).
  unfold shr_fexp, shr. fold (target m e).
  destruct (target m e - e) as [|p|p] eqn:N; cbn [fst snd]; try lia.
  - rewrite quarters_of_loc, shr_record_of_loc_m, E. repeat split; try lia.
    f_equal. cbn. lia.
  - assert (H0 : 0 <= shr_m (shr_record_of_loc m l)) by now rewrite shr_record_of_loc_m.
    destruct (quarters_iter p _ H0) as [Q P].
    rewrite Q, quarters_of_loc, E, iter_halve_quotient by trivial.
    repeat split; trivial. lia.
Qed.

Lemma rounded_spec a b m e l :
  stands_for a b m l -> e <= target m e ->
  rounded m e l = nearest (quotient_quarters a (b * 2 ^ (target m e - e))).
Proof.
  intros S Hf. destruct (first_shift a b m e l S Hf) as (_ & Q & P).
  unfold rounded. rewrite nearest_quarters by trivial. now rewrite Q.
Qed.

Lemma pow_pos k : 0 < 2 ^ k \/ k < 0.
Proof. destruct (Z_lt_le_dec k 0); [right; trivial | left; apply Z.pow_pos_nonneg; lia]. Qed.

Lemma pow_lt_cancel x y : 0 <= y -> 2 ^ x < 2 ^ y -> x < y.
Proof.
  intros Hy H. destruct (Z_lt_le_dec x y); trivial. exfalso.
  assert (2 ^ y <= 2 ^ x) by (apply Z.pow_le_mono_r; lia). lia.
Qed.

Lemma digits_bounds m : 0 < m -> 2 ^ (Zdigits2 m - 1) <= m < 2 ^ Zdigits2 m /\ 0 < Zdigits2 m.
Proof.
  intros H. split; [split; [now apply Zdigits2_ge | apply Zdigits2_lt; lia]|].
  rewrite Zdigits2_log2 by trivial. pose proof (Z.log2_nonneg m). lia.
Qed.

Lemma target_cases m e :
  (target m e = -1074 /\ Zdigits2 m + e - 53 <= -1074) \/
  (target m e = Zdigits2 m + e - 53 /\ -1074 < Zdigits2 m + e - 53).
Proof. unfold target, fexp, SpecFloat.emin, prec, emax. lia. Qed.

Lemma below_digits a b m l :
  stands_for a b m l -> a < 2 ^ Zdigits2 m * b.
Proof.
  intros S. destruct (stands_for_floor _ _ _ _ S) as [-> Hm].
  destruct S as (Ha & Hb & _).
  assert (L : a / b < 2 ^ Zdigits2 (a / b)) by (apply Zdigits2_lt; lia).
  pose proof (Z.div_mod a b ltac:(lia)) as D.
  pose proof (Z.mod_pos_bound a b Hb) as B. nia.
Qed.

Lemma above_digits a b m l :
  stands_for a b m l -> 0 < m -> 2 ^ (Zdigits2 m - 1) * b <= a.
Proof.
  intros S Hp. destruct (stands_for_floor _ _ _ _ S) as [E Hm].
  destruct S as (Ha & Hb & _).
  pose proof (Zdigits2_ge m Hp) as L. subst m.
  pose proof (Z.mul_div_le a b Hb). nia.
Qed.

Lemma target_order a b m e l a' b' m' e' l' e0 :
  stands_for a b m l -> stands_for a' b' m' l' ->
  e <= target m e -> value_le a b e a' b' e' e0 ->
  target m e <= target m' e'.
Proof.
  intros S S' Hf (H0 & H0' & Hle).
  destruct (stands_for_floor _ _ _ _ S) as [_ Hm].
  destruct (Z.eq_dec m 0) as [->|Hn].
  - cbn [Zdigits2] in *. pose proof (target_ge_emin m' e').
    unfold target in *. cbn [Zdigits2] in *.
    unfold fexp, SpecFloat.emin, prec, emax in *. lia.
  - apply fexp_mono.
    pose proof (above_digits _ _ _ _ S ltac:(lia)) as A.
    pose proof (below_digits _ _ _ _ S') as B.
    destruct S as (Ha & Hb & _), S' as (Ha' & Hb' & _).
    destruct (digits_bounds m ltac:(lia)) as [_ Dm].
    pose proof (Zdigits2_nonneg m') as Dm'.
    assert (U : 0 < 2 ^ (e - e0)) by (apply Z.pow_pos_nonneg; lia).
    assert (U' : 0 < 2 ^ (e' - e0)) by (apply Z.pow_pos_nonneg; lia).
    assert (P : 2 ^ (Zdigits2 m - 1 + (e - e0)) < 2 ^ (Zdigits2 m' + (e' - e0))).
    { rewrite !Z.pow_add_r by lia.
      assert (X1 : 2 ^ (Zdigits2 m - 1) * b * (b' * 2 ^ (e - e0))
                   <= a * (b' * 2 ^ (e - e0)))
        by (apply Z.mul_le_mono_nonneg_r; nia).
      assert (X2 : a' * (b * 2 ^ (e' - e0)) < 2 ^ Zdigits2 m' * b' * (b * 2 ^ (e' - e0)))
        by (apply Z.mul_lt_mono_pos_r; nia).
      assert (X : 2 ^ (Zdigits2 m - 1) * 2 ^ (e - e0) * (b * b')
                  < 2 ^ Zdigits2 m' * 2 ^ (e' - e0) * (b * b')) by lia.
      apply Z.mul_lt_mono_pos_r in X; nia. }
    apply pow_lt_cancel in P; lia.
Qed.

Lemma rounded_mono a b m e l a' b' m' e' l' e0 :
  stands_for a b m l -> stands_for a' b' m' l' ->
  e <= target m e -> e' <= target m' e' -> value_le a b e a' b' e' e0 ->
  rounded m e l * 2 ^ (target m e - e0) <= rounded m' e' l' * 2 ^ (target m' e' - e0).
Proof.
  intros S S' Hf Hf' V.
  pose proof (target_order _ _ _ _ _ _ _ _ _ _ _ S S' Hf V) as T.
  rewrite (rounded_spec _ _ _ _ _ S Hf), (rounded_spec _ _ _ _ _ S' Hf').
  destruct (stands_for_floor _ _ _ _ S) as [Em Hm].
  destruct (stands_for_floor _ _ _ _ S') as [Em' Hm'].
  destruct V as (H0 & H0' & Hle).
  pose proof S as (Ha & Hb & _). pose proof S' as (Ha' & Hb' & _).
  pose proof (target_cases m e) as TC. pose proof (target_cases m' e') as TC'.
  pose proof (target_ge_emin m e) as GE.
  set (F := target m e) in *. set (F' := target m' e') in *.
  assert (V1 : 0 < 2 ^ (F - e)) by (apply Z.pow_pos_nonneg; lia).
  assert (V2 : 0 < 2 ^ (F' - e')) by (apply Z.pow_pos_nonneg; lia).
  assert (U1 : 0 < 2 ^ (e - e0)) by (apply Z.pow_pos_nonneg; lia).
  assert (U2 : 0 < 2 ^ (e' - e0)) by (apply Z.pow_pos_nonneg; lia).
  assert (R1 : 0 < 2 ^ (F - e0)) by (apply Z.pow_pos_nonneg; lia).
  assert (R2 : 0 < 2 ^ (F' - e0)) by (apply Z.pow_pos_nonneg; lia).
  destruct (Z.eq_dec F F') as [E|N].
  - rewrite <- E in *. apply Z.mul_le_mono_nonneg_r; [lia|].
    apply nearest_mono, quotient_quarters_mono; try nia.
    assert (X1 : 2 ^ (e - e0) * 2 ^ (F - e) = 2 ^ (F - e0))
      by (rewrite <- Z.pow_add_r by lia; f_equal; lia).
    assert (X2 : 2 ^ (e' - e0) * 2 ^ (F - e') = 2 ^ (F - e0))
      by (rewrite <- Z.pow_add_r by lia; f_equal; lia).
    assert (G : a * b' * 2 ^ (e - e0) * (2 ^ (F - e) * 2 ^ (F - e'))
                <= a' * b * 2 ^ (e' - e0) * (2 ^ (F - e) * 2 ^ (F - e')))
      by (apply Z.mul_le_mono_nonneg_r; nia).
    replace (a * b' * 2 ^ (e - e0) * (2 ^ (F - e) * 2 ^ (F - e')))
      with (a * (b' * 2 ^ (F - e')) * 2 ^ (F - e0)) in G by (rewrite <- X1; ring).
    replace (a' * b * 2 ^ (e' - e0) * (2 ^ (F - e) * 2 ^ (F - e')))
      with (a' * (b * 2 ^ (F - e)) * 2 ^ (F - e0)) in G by (rewrite <- X2; ring).
    apply Z.mul_le_mono_pos_r in G; trivial.
  - assert (L : F + 1 <= F') by lia.
    transitivity (2 ^ 52 * 2 ^ (F' - e0)).
    + (* the smaller one stays below the next binade *)
      transitivity (2 ^ 53 * 2 ^ (F - e0)).
      * apply Z.mul_le_mono_nonneg_r; [lia|].
        pose proof (nearest_bounds (quotient_quarters a (b * 2 ^ (F - e)))) as [_ B].
        rewrite quotient_quarters_floor in B by nia.
        assert (Q : a / (b * 2 ^ (F - e)) < 2 ^ 53).
        { apply Z.div_lt_upper_bound; [nia|].
          pose proof (below_digits _ _ _ _ S) as BD.
          pose proof (Zdigits2_nonneg m) as Dm.
          assert (K : Zdigits2 m <= 53 + (F - e)).
          { lia. }
          assert (2 ^ Zdigits2 m <= 2 ^ (53 + (F - e))) by (apply Z.pow_le_mono_r; lia).
          rewrite Z.pow_add_r in * by lia. nia. }
        lia.
      * replace (F' - e0) with (F' - F - 1 + (1 + (F - e0))) by lia.
        rewrite (Z.pow_add_r 2 (F' - F - 1)), (Z.pow_add_r 2 1) by lia.
        assert (0 < 2 ^ (F' - F - 1)) by (apply Z.pow_pos_nonneg; lia).
        change (2 ^ 53) with (2 ^ 52 * 2). change (2 ^ 1) with 2. nia.
    + (* the larger one has a full mantissa *)
      apply Z.mul_le_mono_nonneg_r; [lia|].
      pose proof (nearest_bounds (quotient_quarters a' (b' * 2 ^ (F' - e')))) as [B _].
      rewrite quotient_quarters_floor in B by nia.
      etransitivity; [|exact B].
      destruct TC' as [[? ?]|[T1 T2]]; [lia|].
      assert (Pm : 0 < m').
      { destruct (Z.eq_dec m' 0) as [Z|]; [|lia]. rewrite Z in *. cbn [Zdigits2] in *. lia. }
      apply Z.div_le_lower_bound; [nia|].
      pose proof (above_digits _ _ _ _ S' Pm) as AD.
      assert (X : 2 ^ (Zdigits2 m' - 1) = 2 ^ 52 * 2 ^ (F' - e')).
      { rewrite <- Z.pow_add_r by lia. f_equal. lia. }
      rewrite X in AD. nia.
Qed.

End StageFacts.

Module RoundingFacts.
Import JS.
Import Grid GridFacts Stage StageFacts View FloatFacts SumFacts.
Local Open Scope Z_scope.

Lemma digits_shiftr m n :
  0 <= n -> 0 < Z.shiftr m n -> Zdigits2 (Z.shiftr m n) = Zdigits2 m - n.
Proof.
  intros Hn Hs.
  assert (Hm : 0 < m).
  { destruct (Z_lt_le_dec 0 m); trivial. exfalso.
    destruct (Z.eq_dec m 0) as [->|]; [rewrite Z.shiftr_0_l in Hs; lia|].
    assert (Z.shiftr m n < 0) by (apply Z.shiftr_neg; lia). lia. }
  rewrite !Zdigits2_log2 by trivial. rewrite Z.log2_shiftr by trivial.
  destruct (Z_lt_le_dec (Z.log2 m) n) as [L|L]; [|lia].
  exfalso. rewrite Z.shiftr_eq_0 in Hs; lia.
Qed.

Lemma scaled_shiftr m e n :
  0 <= m -> 0 <= n -> -1074 <= e -> scaled (Z.shiftr m n) (e + n) <= scaled m e.
Proof.
  intros Hm Hn He. unfold scaled. rewrite Z.shiftr_div_pow2 by trivial.
  replace (e + n + 1074) with (n + (e + 1074)) by lia.
  rewrite Z.pow_add_r by lia.
  assert (0 < 2 ^ n) by (apply Z.pow_pos_nonneg; lia).
  assert (0 < 2 ^ (e + 1074)) by (apply Z.pow_pos_nonneg; lia).
  pose proof (Z.mul_div_le m (2 ^ n) ltac:(lia)). nia.
Qed.

(** After the first rounding the mantissa is not finer than its own
    target. *)
Lemma rounded_target a b m e l :
  stands_for a b m l -> e <= target m e ->
  0 <= rounded m e l /\ target m e <= target (rounded m e l) (target m e).
Proof.
  intros S Hf. destruct (stands_for_floor _ _ _ _ S) as [Em Hm].
  pose proof S as (Ha & Hb & _).
  rewrite (rounded_spec _ _ _ _ _ S Hf).
  pose proof (target_cases m e) as TC.
  pose proof (target_ge_emin m e) as GE.
  set (F := target m e) in *.
  assert (V : 0 < 2 ^ (F - e)) by (apply Z.pow_pos_nonneg; lia).
  pose proof (nearest_bounds (quotient_quarters a (b * 2 ^ (F - e)))) as [B _].
  rewrite quotient_quarters_floor in B by nia.
  set (m1 := nearest _) in *.
  assert (P : 0 <= a / (b * 2 ^ (F - e))) by (apply Z.div_pos; nia).
  split; [lia|].
  destruct TC as [[T1 T2]|[T1 T2]].
  - rewrite T1. apply fexp_ge_emin.
  - assert (Pm : 0 < m).
    { destruct (Z.eq_dec m 0) as [Z|]; [|lia]. rewrite Z in *. cbn [Zdigits2] in *. lia. }
    assert (Q : 2 ^ 52 <= a / (b * 2 ^ (F - e))).
    { apply Z.div_le_lower_bound; [nia|].
      pose proof (above_digits _ _ _ _ S Pm) as AD.
      assert (X : 2 ^ (Zdigits2 m - 1) = 2 ^ 52 * 2 ^ (F - e)).
      { rewrite <- Z.pow_add_r by lia. f_equal. lia. }
      rewrite X in AD. nia. }
    assert (D : 53 <= Zdigits2 m1).
    { assert (0 < m1) by lia. rewrite Zdigits2_log2 by trivial.
      assert (52 <= Z.log2 m1); [|lia].
      apply Z.log2_le_pow2; lia. }
    unfold target. unfold fexp, SpecFloat.emin, prec, emax. lia.
Qed.

(** The second shift gives a canonical mantissa. *)
Lemma second_shift m1 F :
  0 <= m1 -> -1074 <= F -> F <= target m1 F ->
  let r := shr_fexp prec emax m1 F loc_Exact in
  0 <= shr_m (fst r) /\ -1074 <= snd r /\
  scaled (shr_m (fst r)) (snd r) <= scaled m1 F /\
  (0 < shr_m (fst r) -> snd r = fexp prec emax (Zdigits2 (shr_m (fst r)) + snd r)).
Proof.
  intros H1 HF HT r.
  destruct (shr_fexp_spec m1 F loc_Exact H1) as [E1 E2]. fold r in E1, E2.
  fold (target m1 F) in E1, E2.
  replace (Z.max 0 (target m1 F - F)) with (target m1 F - F) in * by lia.
  rewrite E1, E2. repeat split.
  - apply Z.shiftr_nonneg. lia.
  - lia.
  - apply scaled_shiftr; lia.
  - intros P. rewrite digits_shiftr by (trivial; lia).
    replace (Zdigits2 m1 - (target m1 F - F) + (F + (target m1 F - F)))
      with (Zdigits2 m1 + F) by lia.
    unfold target. lia.
Qed.

(** Canonical mantissas are ordered as their values are. *)
Lemma canonical_order p e p' e' :
  e = fexp prec emax (Zdigits2 (Zpos p) + e) ->
  e' = fexp prec emax (Zdigits2 (Zpos p') + e') ->
  scaled (Zpos p) e <= scaled (Zpos p') e' ->
  e < e' \/ (e = e' /\ (p <= p')%positive).
Proof.
  intros C C' Hle.
  assert (He : -1074 <= e) by (rewrite C; apply fexp_ge_emin).
  assert (He' : -1074 <= e') by (rewrite C'; apply fexp_ge_emin).
  destruct (Z.compare_spec e e') as [->|Hlt|Hgt]; [right|left; trivial|exfalso].
  - split; trivial. unfold scaled in Hle.
    assert (0 < 2 ^ (e' + 1074)) by (apply Z.pow_pos_nonneg; lia).
    apply Z.mul_le_mono_pos_r in Hle; trivial.
  - unfold scaled in Hle.
    assert (Hn : Zdigits2 (Zpos p) = 53).
    { unfold fexp, SpecFloat.emin, prec, emax in C. lia. }
    assert (Hn' : Zdigits2 (Zpos p') <= 53).
    { unfold fexp, SpecFloat.emin, prec, emax in C'. lia. }
    pose proof (Zdigits2_ge (Zpos p) ltac:(lia)) as Hm. rewrite Hn in Hm.
    pose proof (Zdigits2_lt (Zpos p') ltac:(lia)) as Hm'.
    assert (2 ^ Zdigits2 (Zpos p') <= 2 ^ 53) by (apply Z.pow_le_mono_r; lia).
    assert (Hp : 2 ^ (e + 1074) = 2 ^ (e - e') * 2 ^ (e' + 1074)).
    { rewrite <- Z.pow_add_r by lia. f_equal. lia. }
    assert (2 ^ 1 <= 2 ^ (e - e')) by (apply Z.pow_le_mono_r; lia).
    assert (0 < 2 ^ (e' + 1074)) by (apply Z.pow_pos_nonneg; lia).
    rewrite Hp in Hle. change (2 ^ 1) with 2 in *.
    change (2 ^ (53 - 1)) with 4503599627370496 in *.
    change (2 ^ 53) with 9007199254740992 in *. nia.
Qed.

Lemma scaled_of_units m F e0 :
  e0 <= -1074 -> -1074 <= F -> m * 2 ^ (F - e0) = scaled m F * 2 ^ (-1074 - e0).
Proof.
  intros H0 HF. unfold scaled. rewrite <- Z.mul_assoc, <- Z.pow_add_r by lia.
  do 2 f_equal. lia.
Qed.

Lemma binary_round_aux_finish a b m e l :
  stands_for a b m l -> e <= target m e ->
  binary_round_aux prec emax false m e l = finish (rounded m e l) (target m e).
Proof.
  intros S Hf. destruct (first_shift _ _ _ _ _ S Hf) as (E & _ & _).
  unfold binary_round_aux, finish, rounded.
  destruct (shr_fexp prec emax m e l) as [mrs1 e1]. cbn [fst snd] in *. subst e1.
  now destruct (shr_fexp prec emax _ _ loc_Exact).
Qed.

Lemma finish_le m1 F m1' F' :
  0 <= m1 -> -1074 <= F -> F <= target m1 F ->
  0 <= m1' -> -1074 <= F' -> F' <= target m1' F' ->
  scaled m1 F <= scaled m1' F' ->
  SFleb (finish m1 F) (finish m1' F') = true.
Proof.
  intros H1 HF HT H1' HF' HT' Hle. unfold finish.
  destruct (second_shift m1 F H1 HF HT) as (P & E & V & C).
  destruct (second_shift m1' F' H1' HF' HT') as (P' & E' & V' & C').
  destruct (shr_fexp_spec m1' F' loc_Exact H1') as [X1 X2].
  set (r := shr_fexp prec emax m1 F loc_Exact) in *.
  set (r' := shr_fexp prec emax m1' F' loc_Exact) in *.
  destruct (shr_m (fst r)) as [|p|p] eqn:M; [| |lia].
  - destruct (shr_m (fst r')) as [|p'|p']; [reflexivity| |lia].
    now destruct (snd r' <=? emax - prec).
  - specialize (C ltac:(lia)).
    assert (B : scaled (Zpos p) (snd r) <= scaled (shr_m (fst r')) (snd r')).
    { assert (Q : 0 < m1').
      { apply (scaled_pos_inv m1' F'); trivial.
        pose proof (scaled_pos (Zpos p) (snd r) ltac:(lia) E). lia. }
      apply (shr_fexp_lower m1' F' loc_Exact (Zpos p) (snd r)); trivial; lia. }
    assert (Q' : 0 < shr_m (fst r')).
    { apply (scaled_pos_inv _ (snd r')); trivial.
      pose proof (scaled_pos (Zpos p) (snd r) ltac:(lia) E). lia. }
    specialize (C' Q').
    destruct (shr_m (fst r')) as [|p'|p']; [lia| |lia].
    destruct (canonical_order p (snd r) p' (snd r') C C' B) as [L|[L L']].
    + destruct (Z.leb_spec (snd r) (emax - prec)), (Z.leb_spec (snd r') (emax - prec));
        trivial; [|lia].
      unfold SFleb, SFcompare. apply Z.compare_lt_iff in L. now rewrite L.
    + rewrite L. destruct (Z.leb_spec (snd r') (emax - prec)); trivial.
      unfold SFleb, SFcompare. rewrite Z.compare_refl.
      change (Pos.compare_cont Eq p p') with (Pos.compare p p').
      destruct (Pos.compare_spec p p'); trivial. lia.
Qed.

(** Rounding is monotone. *)
Lemma round_aux_le a b m e l a' b' m' e' l' e0 :
  stands_for a b m l -> stands_for a' b' m' l' ->
  e <= target m e -> e' <= target m' e' ->
  value_le a b e a' b' e' e0 -> e0 <= -1074 ->
  SFleb (binary_round_aux prec emax false m e l)
        (binary_round_aux prec emax false m' e' l') = true.
Proof.
  intros S S' Hf Hf' V H0.
  rewrite (binary_round_aux_finish _ _ _ _ _ S Hf), (binary_round_aux_finish _ _ _ _ _ S' Hf').
  destruct (rounded_target _ _ _ _ _ S Hf) as [P T].
  destruct (rounded_target _ _ _ _ _ S' Hf') as [P' T'].
  pose proof (rounded_mono _ _ _ _ _ _ _ _ _ _ _ S S' Hf Hf' V) as R.
  pose proof (target_ge_emin m e) as G. pose proof (target_ge_emin m' e') as G'.
  apply finish_le; trivial.
  rewrite (scaled_of_units (rounded m e l) (target m e) e0),
    (scaled_of_units (rounded m' e' l') (target m' e') e0) in R by trivial.
  assert (0 < 2 ^ (-1074 - e0)) by (apply Z.pow_pos_nonneg; lia).
  apply Z.mul_le_mono_pos_r in R; trivial.
Qed.

End RoundingFacts.

Module MonotoneFacts.
Import JS.
Import Grid GridFacts Stage StageFacts RoundingFacts View FloatFacts SumFacts.
Local Open Scope Z_scope.

Lemma valid_digits s m e :
  valid_binary (S754_finite s m e) = true ->
  -1074 <= e <= 971 /\ 0 < Zdigits2 (Zpos m) <= 53 /\
  e = fexp prec emax (Zdigits2 (Zpos m) + e) /\
  (-1074 < e -> Zdigits2 (Zpos m) = 53).
Proof.
  intros V. pose proof (canonical_valid _ _ _ V) as C.
  destruct (valid_finite_bounds _ _ _ V) as [B D].
  destruct (digits_bounds (Zpos m) ltac:(lia)) as [_ P].
  repeat split; try lia; trivial.
  unfold fexp, SpecFloat.emin, prec, emax in C. lia.
Qed.

(** On valid numbers the order of the comparison is the order of the
    values. *)
Lemma SFleb_value m e m' e' :
  valid_binary (S754_finite false m e) = true ->
  valid_binary (S754_finite false m' e') = true ->
  SFleb (S754_finite false m e) (S754_finite false m' e') = true ->
  scaled (Zpos m) e <= scaled (Zpos m') e'.
Proof.
  intros V V' H.
  destruct (valid_digits _ _ _ V) as (B & D & C & N).
  destruct (valid_digits _ _ _ V') as (B' & D' & C' & N').
  unfold SFleb, SFcompare in H. unfold scaled.
  assert (0 < 2 ^ (e + 1074)) by (apply Z.pow_pos_nonneg; lia).
  destruct (Z.compare_spec e e') as [->|L|L]; [| |discriminate].
  - change (Pos.compare_cont Eq m m') with (Pos.compare m m') in H.
    destruct (Pos.compare_spec m m'); try discriminate; nia.
  - specialize (N' ltac:(lia)).
    pose proof (Zdigits2_ge (Zpos m') ltac:(lia)) as G. rewrite N' in G.
    pose proof (Zdigits2_lt (Zpos m) ltac:(lia)) as U.
    assert (2 ^ Zdigits2 (Zpos m) <= 2 ^ 53) by (apply Z.pow_le_mono_r; lia).
    assert (P : 2 ^ (e' + 1074) = 2 ^ (e' - e) * 2 ^ (e + 1074)).
    { rewrite <- Z.pow_add_r by lia. f_equal. lia. }
    assert (2 ^ 1 <= 2 ^ (e' - e)) by (apply Z.pow_le_mono_r; lia).
    rewrite P. change (2 ^ 1) with 2 in *. change (2 ^ (53 - 1)) with 4503599627370496 in *.
    change (2 ^ 53) with 9007199254740992 in *. nia.
Qed.

Lemma digits_mul m c :
  Zdigits2 (Zpos m) + Zdigits2 (Zpos c) - 1 <= Zdigits2 (Zpos (m * c)).
Proof.
  pose proof (Zdigits2_ge (Zpos m) ltac:(lia)) as A.
  pose proof (Zdigits2_ge (Zpos c) ltac:(lia)) as B.
  destruct (digits_bounds (Zpos m) ltac:(lia)) as [_ Pm].
  destruct (digits_bounds (Zpos c) ltac:(lia)) as [_ Pc].
  rewrite (Zdigits2_log2 (Zpos (m * c))) by lia.
  assert (Zdigits2 (Zpos m) - 1 + (Zdigits2 (Zpos c) - 1) <= Z.log2 (Zpos (m * c))); [|lia].
  apply Z.log2_le_pow2; [lia|]. rewrite Z.pow_add_r by lia.
  rewrite Pos2Z.inj_mul. nia.
Qed.

Lemma mul_fine s m e sc mc ec :
  valid_binary (S754_finite s m e) = true ->
  valid_binary (S754_finite sc mc ec) = true ->
  e + ec <= target (Zpos (m * mc)) (e + ec).
Proof.
  intros V Vc.
  destruct (valid_digits _ _ _ V) as (B & D & C & N).
  destruct (valid_digits _ _ _ Vc) as (Bc & Dc & Cc & Nc).
  pose proof (digits_mul m mc) as M.
  unfold target, fexp, SpecFloat.emin, prec, emax in *. lia.
Qed.

Lemma SFmul_le m e m' e' mc ec :
  valid_binary (S754_finite false m e) = true ->
  valid_binary (S754_finite false m' e') = true ->
  valid_binary (S754_finite false mc ec) = true ->
  SFleb (S754_finite false m e) (S754_finite false m' e') = true ->
  SFleb (SF64mul (S754_finite false m e) (S754_finite false mc ec))
        (SF64mul (S754_finite false m' e') (S754_finite false mc ec)) = true.
Proof.
  intros V V' Vc H. unfold SF64mul, SFmul. cbn [xorb].
  pose proof (SFleb_value _ _ _ _ V V' H) as L.
  destruct (valid_digits _ _ _ V) as (B & _). destruct (valid_digits _ _ _ V') as (B' & _).
  destruct (valid_digits _ _ _ Vc) as (Bc & _).
  apply (round_aux_le (Zpos (m * mc)) 1 _ _ _ (Zpos (m' * mc)) 1 _ _ _ (-2148)).
  - apply stands_for_exact. lia.
  - apply stands_for_exact. lia.
  - exact (mul_fine _ _ _ _ _ _ V Vc).
  - exact (mul_fine _ _ _ _ _ _ V' Vc).
  - repeat split; try lia. unfold scaled in L.
    rewrite !Z.mul_1_r, !Pos2Z.inj_mul.
    replace (e + ec - -2148) with (e + 1074 + (ec + 1074)) by lia.
    replace (e' + ec - -2148) with (e' + 1074 + (ec + 1074)) by lia.
    rewrite (Z.pow_add_r 2 (e + 1074) (ec + 1074)),
      (Z.pow_add_r 2 (e' + 1074) (ec + 1074)) by lia.
    assert (K : 0 < 2 ^ (ec + 1074)) by (apply Z.pow_pos_nonneg; lia).
    apply (Z.mul_le_mono_nonneg_r _ _ (Zpos mc * 2 ^ (ec + 1074))) in L; [|nia].
    etransitivity; [|etransitivity; [exact L|]]; apply Z.eq_le_incl; ring.
  - lia.
Qed.

Lemma quarters_of_remainder n q r :
  0 < n -> 0 <= r < n ->
  quotient_quarters (q * n + r) n
  = 4 * q + (if r =? 0 then 0 else
             match 2 * r ?= n with Lt => 1 | Eq => 2 | Gt => 3 end).
Proof.
  intros Hn Hr. unfold quotient_quarters.
  destruct (Z.eqb_spec r 0) as [->|R].
  - replace (2 * (q * n + 0)) with ((2 * q) * n) by ring.
    rewrite Z.div_mul, Z.mod_mul by lia. rewrite Z.eqb_refl. lia.
  - destruct (Z.compare_spec (2 * r) n) as [E|L|G].
    + replace (2 * (q * n + r)) with ((2 * q + 1) * n) by lia.
      rewrite Z.div_mul, Z.mod_mul by lia. rewrite Z.eqb_refl. lia.
    + replace (2 * (q * n + r)) with ((2 * q) * n + 2 * r) by ring.
      rewrite Z.div_add_l, (Z.add_comm (2 * q * n)), Z.mod_add by lia.
      rewrite (Z.div_small (2 * r)), (Z.mod_small (2 * r)) by lia.
      destruct (Z.eqb_spec (2 * r) 0); lia.
    + replace (2 * (q * n + r)) with ((2 * q + 1) * n + (2 * r - n)) by lia.
      rewrite Z.div_add_l, (Z.add_comm ((2 * q + 1) * n)), Z.mod_add by lia.
      rewrite (Z.div_small (2 * r - n)), (Z.mod_small (2 * r - n)) by lia.
      destruct (Z.eqb_spec (2 * r - n) 0); lia.
Qed.

Lemma new_location_quarters n q r :
  0 < n -> 0 <= r < n ->
  4 * q + loc_quarters (new_location n r) = quotient_quarters (q * n + r) n.
Proof.
  intros Hn Hr. rewrite quarters_of_remainder by trivial. f_equal.
  unfold new_location, new_location_even, new_location_odd.
  destruct (Z.even n) eqn:Ev; destruct (Z.eqb_spec r 0) as [->|R]; try reflexivity.
  assert (O : 2 * r <> n).
  { intros E. rewrite <- E, Z.even_mul in Ev. discriminate. }
  destruct (Z.compare_spec (2 * r + 1) n), (Z.compare_spec (2 * r) n);
    cbn [loc_quarters]; lia.
Qed.

(** What the division hands to the rounding. *)
Lemma SFdiv_core_spec m1 e1 m2 e2 :
  let d := Zdigits2 (Zpos m1) + e1 - (Zdigits2 (Zpos m2) + e2) in
  let e' := Z.min (fexp prec emax d) (e1 - e2) in
  let s := e1 - e2 - e' in
  exists q l,
    SFdiv_core_binary prec emax (Zpos m1) e1 (Zpos m2) e2 = (q, e', l) /\
    stands_for (Zpos m1 * 2 ^ s) (Zpos m2) q l /\
    e' <= target q e'.
Proof.
  intros d e' s. unfold SFdiv_core_binary. fold d. fold e'. fold s.
  assert (Hs : 0 <= s) by (unfold s, e'; lia).
  set (m' := match s with Z0 => Zpos m1 | Zpos _ => Z.shiftl (Zpos m1) s | Zneg _ => 0 end).
  assert (Em : m' = Zpos m1 * 2 ^ s).
  { unfold m'. destruct s as [|p|p] eqn:Es; [cbn; lia | | lia].
    now rewrite Z.shiftl_mul_pow2. }
  assert (P2 : 0 < 2 ^ s) by (apply Z.pow_pos_nonneg; lia).
  pose proof (Z_div_mod m' (Zpos m2) ltac:(lia)) as DM.
  destruct (Z.div_eucl m' (Zpos m2)) as [q r]. destruct DM as [DM R].
  assert (Q : 0 <= q) by nia.
  exists q, (new_location (Zpos m2) r). split; [reflexivity|].
  assert (S : stands_for (Zpos m1 * 2 ^ s) (Zpos m2) q (new_location (Zpos m2) r)).
  { repeat split; try lia. rewrite <- Em, DM, (Z.mul_comm (Zpos m2) q).
    apply new_location_quarters; lia. }
  split; [exact S|].
  (* the quotient has the digits the exponent was chosen for *)
  assert (T : d <= Zdigits2 q + e').
  { pose proof (Zdigits2_nonneg q) as Dq.
    destruct (digits_bounds (Zpos m1) ltac:(lia)) as [[L1 _] P1].
    destruct (digits_bounds (Zpos m2) ltac:(lia)) as [[_ U2] P2'].
    set (k := Zdigits2 (Zpos m1) - 1 + s - Zdigits2 (Zpos m2)).
    destruct (Z_lt_le_dec k 0) as [N|N]; [unfold d, s, k in *; lia|].
    assert (G : 2 ^ k <= q).
    { assert (X : 2 ^ k * Zpos m2 < Zpos m1 * 2 ^ s).
      { assert (Y : 2 ^ (Zdigits2 (Zpos m1) - 1) * 2 ^ s = 2 ^ k * 2 ^ Zdigits2 (Zpos m2)).
        { rewrite <- !Z.pow_add_r by lia. f_equal. unfold k. lia. }
        assert (0 < 2 ^ k) by (apply Z.pow_pos_nonneg; lia). nia. }
      rewrite <- Em, DM in X. nia. }
    assert (k + 1 <= Zdigits2 q); [|unfold d, s, k in *; lia].
    assert (0 < 2 ^ k) by (apply Z.pow_pos_nonneg; lia).
    rewrite Zdigits2_log2 by lia.
    assert (k <= Z.log2 q); [|lia]. apply Z.log2_le_pow2; lia. }
  unfold target. etransitivity; [|apply fexp_mono; exact T]. unfold e'. lia.
Qed.

Lemma SFdiv_le m e m' e' mc ec :
  valid_binary (S754_finite false m e) = true ->
  valid_binary (S754_finite false m' e') = true ->
  valid_binary (S754_finite false mc ec) = true ->
  SFleb (S754_finite false m e) (S754_finite false m' e') = true ->
  SFleb (SF64div (S754_finite false m e) (S754_finite false mc ec))
        (SF64div (S754_finite false m' e') (S754_finite false mc ec)) = true.
Proof.
  intros V V' Vc H. unfold SF64div, SFdiv. cbn [xorb].
  pose proof (SFleb_value _ _ _ _ V V' H) as L.
  destruct (valid_digits _ _ _ V) as (B & _). destruct (valid_digits _ _ _ V') as (B' & _).
  destruct (valid_digits _ _ _ Vc) as (Bc & _).
  destruct (SFdiv_core_spec m e mc ec) as (q & l & -> & S & F).
  destruct (SFdiv_core_spec m' e' mc ec) as (q' & l' & -> & S' & F').
  set (E := Z.min (fexp prec emax (Zdigits2 (Zpos m) + e - (Zdigits2 (Zpos mc) + ec))) (e - ec)) in *.
  set (E' := Z.min (fexp prec emax (Zdigits2 (Zpos m') + e' - (Zdigits2 (Zpos mc) + ec)))
                   (e' - ec)) in *.
  pose proof (fexp_ge_emin (Zdigits2 (Zpos m) + e - (Zdigits2 (Zpos mc) + ec))) as G.
  pose proof (fexp_ge_emin (Zdigits2 (Zpos m') + e' - (Zdigits2 (Zpos mc) + ec))) as G'.
  assert (HE : -2045 <= E <= e - ec) by (unfold E; lia).
  assert (HE' : -2045 <= E' <= e' - ec) by (unfold E'; lia).
  apply (round_aux_le _ _ _ _ _ _ _ _ _ _ (-2045) S S' F F'); [|lia].
  repeat split; try lia. unfold scaled in L.
  assert (X : 2 ^ (e - ec - E) * 2 ^ (E - -2045) = 2 ^ (e + 1074) * 2 ^ (971 - ec)).
  { rewrite <- !Z.pow_add_r by lia. f_equal. lia. }
  assert (X' : 2 ^ (e' - ec - E') * 2 ^ (E' - -2045) = 2 ^ (e' + 1074) * 2 ^ (971 - ec)).
  { rewrite <- !Z.pow_add_r by lia. f_equal. lia. }
  assert (K : 0 < 2 ^ (971 - ec)) by (apply Z.pow_pos_nonneg; lia).
  apply (Z.mul_le_mono_nonneg_r _ _ (Zpos mc * 2 ^ (971 - ec))) in L; [|nia].
  replace (Zpos m * 2 ^ (e - ec - E) * Zpos mc * 2 ^ (E - -2045))
    with (Zpos m * Zpos mc * (2 ^ (e - ec - E) * 2 ^ (E - -2045))) by ring.
  replace (Zpos m' * 2 ^ (e' - ec - E') * Zpos mc * 2 ^ (E' - -2045))
    with (Zpos m' * Zpos mc * (2 ^ (e' - ec - E') * 2 ^ (E' - -2045))) by ring.
  rewrite X, X'.
  etransitivity; [|etransitivity; [exact L|]]; apply Z.eq_le_incl; ring.
Qed.

(** A valid number is rounded to itself. *)
Lemma round_aux_valid m e :
  valid_binary (S754_finite false m e) = true ->
  binary_round_aux prec emax false (Zpos m) e loc_Exact = S754_finite false m e.
Proof.
  intros V. destruct (valid_digits _ _ _ V) as (B & D & C & _).
  assert (T : target (Zpos m) e = e) by (unfold target; lia).
  rewrite (binary_round_aux_finish (Zpos m) 1 (Zpos m) e loc_Exact)
    by (try apply stands_for_exact; lia).
  assert (R : rounded (Zpos m) e loc_Exact = Zpos m).
  { rewrite (rounded_spec (Zpos m) 1 (Zpos m) e loc_Exact) by (try apply stands_for_exact; lia).
    rewrite T, Z.sub_diag. change (2 ^ 0) with 1.
    rewrite Z.mul_1_r, quotient_quarters_exact. apply nearest_exact. }
  rewrite R, T. unfold finish.
  destruct (shr_fexp_spec (Zpos m) e loc_Exact ltac:(lia)) as [X1 X2].
  fold (target (Zpos m) e) in X1, X2. rewrite T, Z.sub_diag in X1, X2.
  cbn [Z.max] in X1, X2. rewrite Z.shiftr_0_r in X1. rewrite Z.add_0_r in X2.
  rewrite X1, X2.
  replace (e <=? emax - prec) with true; [reflexivity|].
  symmetry. apply Z.leb_le. unfold emax, prec. lia.
Qed.

(** The number of a positive integer, as [of_uint63] gives it. *)
Lemma normalize_spec k :
  0 < k ->
  exists m e,
    binary_normalize prec emax k 0 false = binary_round_aux prec emax false (Zpos m) e loc_Exact /\
    stands_for (Zpos m) 1 (Zpos m) loc_Exact /\ e <= target (Zpos m) e /\
    -1074 <= e <= 0 /\ scaled (Zpos m) e = scaled k 0.
Proof.
  intros Hk. destruct k as [|p|p]; try lia.
  cbn [binary_normalize]. unfold binary_round.
  pose proof (fexp_ge_emin (Zpos (digits2_pos p) + 0)) as G.
  destruct (shl_align_scaled p 0 (fexp prec emax (Zpos (digits2_pos p) + 0))
              ltac:(lia) G) as [Vs Es].
  assert (Ed : Zdigits2 (Zpos (fst (shl_align p 0 (fexp prec emax (Zpos (digits2_pos p) + 0)))))
               + snd (shl_align p 0 (fexp prec emax (Zpos (digits2_pos p) + 0)))
               = Zpos (digits2_pos p) + 0).
  { unfold shl_align. set (F := fexp prec emax (Zpos (digits2_pos p) + 0)).
    destruct (F - 0) as [|d|d] eqn:E; cbn [fst snd]; try reflexivity.
    change (Zpos (digits2_pos p)) with (Zdigits2 (Zpos p)).
    rewrite !Zdigits2_log2 by lia. rewrite iter_xO.
    rewrite Z.log2_mul_pow2 by lia. lia. }
  destruct (shl_align p 0 _) as [mz ez]. cbn [fst snd] in *.
  exists mz, ez. split; [reflexivity|]. split; [apply stands_for_exact; lia|].
  split; [|split; [lia | exact Vs]].
  unfold target. rewrite Ed. lia.
Qed.

Lemma normalize_le k k' :
  0 < k -> k <= k' ->
  SFleb (binary_normalize prec emax k 0 false) (binary_normalize prec emax k' 0 false) = true.
Proof.
  intros Hk Hle.
  destruct (normalize_spec k Hk) as (m & e & -> & S & F & B & V).
  destruct (normalize_spec k' ltac:(lia)) as (m' & e' & -> & S' & F' & B' & V').
  apply (round_aux_le _ _ _ _ _ _ _ _ _ _ (-1074) S S' F F'); [|lia].
  repeat split; try lia. unfold scaled in V, V'.
  replace (e - -1074) with (e + 1074) by lia. replace (e' - -1074) with (e' + 1074) by lia.
  rewrite !Z.mul_1_r, V, V'. apply Z.mul_le_mono_nonneg_r; [|lia].
  apply Z.pow_nonneg. lia.
Qed.

(** The number of a positive integer is at most a valid number that the
    integer does not exceed. *)
Lemma normalize_le_valid k m e :
  0 < k -> valid_binary (S754_finite false m e) = true ->
  scaled k 0 <= scaled (Zpos m) e ->
  SFleb (binary_normalize prec emax k 0 false) (S754_finite false m e) = true.
Proof.
  intros Hk V Hle. rewrite <- (round_aux_valid m e V).
  destruct (normalize_spec k Hk) as (mk & ek & -> & S & F & B & Vk).
  destruct (valid_digits _ _ _ V) as (Bv & D & C & _).
  apply (round_aux_le _ _ _ _ _ (Zpos m) 1 _ _ _ (-1074) S); trivial.
  - apply stands_for_exact. lia.
  - unfold target. lia.
  - repeat split; try lia. unfold scaled in *.
    replace (ek - -1074) with (ek + 1074) by lia. replace (e - -1074) with (e + 1074) by lia.
    rewrite !Z.mul_1_r, Vk. exact Hle.
  - lia.
Qed.

Lemma shl_align_digits p e e' :
  Zdigits2 (Zpos (fst (shl_align p e e'))) + snd (shl_align p e e') = Zdigits2 (Zpos p) + e /\
  snd (shl_align p e e') = Z.min e e'.
Proof.
  unfold shl_align. destruct (e' - e) as [|d|d] eqn:E; cbn [fst snd]; try (split; [reflexivity|lia]).
  split; [|lia]. rewrite !Zdigits2_log2 by lia. rewrite iter_xO.
  rewrite Z.log2_mul_pow2 by lia. lia.
Qed.

(** What is rounded to is a number. *)
Lemma finish_valid m1 F :
  0 <= m1 -> -1074 <= F -> F <= target m1 F -> valid_binary (finish m1 F) = true.
Proof.
  intros H1 HF HT. unfold finish.
  destruct (second_shift m1 F H1 HF HT) as (P & E & _ & C).
  destruct (shr_m (fst (shr_fexp prec emax m1 F loc_Exact))) as [|p|p]; trivial.
  destruct (Z.leb_spec (snd (shr_fexp prec emax m1 F loc_Exact)) (emax - prec)); trivial.
  cbn [valid_binary]. unfold bounded, canonical_mantissa.
  apply andb_true_iff. split; [|now apply Z.leb_le].
  apply Z.eqb_eq. symmetry. apply C. lia.
Qed.

Lemma binary_normalize_valid k e :
  0 <= k -> valid_binary (binary_normalize prec emax k e false) = true.
Proof.
  intros Hk. destruct k as [|p|p]; try lia; trivial.
  cbn [binary_normalize]. unfold binary_round.
  destruct (shl_align_digits p e (fexp prec emax (Zpos (digits2_pos p) + e))) as [D E].
  destruct (shl_align p e _) as [mz ez]. cbn [fst snd] in *.
  assert (S : stands_for (Zpos mz) 1 (Zpos mz) loc_Exact) by (apply stands_for_exact; lia).
  assert (F : ez <= target (Zpos mz) ez).
  { unfold target. rewrite D. change (Zdigits2 (Zpos p)) with (Zpos (digits2_pos p)). lia. }
  rewrite (binary_round_aux_finish _ _ _ _ _ S F).
  destruct (rounded_target _ _ _ _ _ S F) as [P T].
  apply finish_valid; trivial. apply target_ge_emin.
Qed.

End MonotoneFacts.

Module OrderedFacts.
Import JS.
Import Grid GridFacts Stage StageFacts RoundingFacts MonotoneFacts.
Import View Order FloatFacts SumFacts SignFacts OrderFacts BoundFacts Calculator EngineFacts.
Import CatalogFacts.

Lemma SFleb_zero_l s r : sf_sign r = Some false -> SFleb (S754_zero s) r = true.
Proof. destruct r as [?|[]| |[] ? ?]; try discriminate; reflexivity. Qed.

Lemma SFleb_inf_r r : sf_sign r = Some false -> SFleb r (S754_infinity false) = true.
Proof. destruct r as [?|[]| |[] ? ?]; try discriminate; reflexivity. Qed.

(** Multiplying by a positive finite number keeps the order of numbers that
    are not negative. *)
Lemma mul_le_mono x y c :
  (0 <=? x) = true -> (x <=? y) = true -> (0 <? c) = true -> is_finite c = true ->
  (x * c <=? y * c) = true.
Proof.
  rewrite leb_0_l, ltb_0_l, is_finite_SF, !FloatAxioms.leb_spec, !mul_spec.
  pose proof (Prim2SF_valid x) as Vx. pose proof (Prim2SF_valid y) as Vy.
  pose proof (Prim2SF_valid c) as Vc.
  destruct (Prim2SF c) as [?|?| |[] mc ec]; try discriminate.
  destruct (Prim2SF x) as [sx|[]| |[] mx ex]; try discriminate;
    destruct (Prim2SF y) as [sy|[]| |[] my ey]; try discriminate; intros _ H _ _;
    try reflexivity; try discriminate H.
  - apply SFleb_zero_l. apply (SFmul_finite_sign false my ey false mc ec).
  - apply SFleb_inf_r. apply (SFmul_finite_sign false mx ex false mc ec).
  - now apply SFmul_le.
Qed.

Lemma div_le_mono x y c :
  (0 <=? x) = true -> (x <=? y) = true -> (0 <? c) = true -> is_finite c = true ->
  (x / c <=? y / c) = true.
Proof.
  rewrite leb_0_l, ltb_0_l, is_finite_SF, !FloatAxioms.leb_spec, !div_spec.
  pose proof (Prim2SF_valid x) as Vx. pose proof (Prim2SF_valid y) as Vy.
  pose proof (Prim2SF_valid c) as Vc.
  destruct (Prim2SF c) as [?|?| |[] mc ec]; try discriminate.
  destruct (Prim2SF x) as [sx|[]| |[] mx ex]; try discriminate;
    destruct (Prim2SF y) as [sy|[]| |[] my ey]; try discriminate; intros _ H _ _;
    try reflexivity; try discriminate H.
  - apply SFleb_zero_l. apply (SFdiv_finite_sign false my ey false mc ec).
  - apply SFleb_inf_r. apply (SFdiv_finite_sign false mx ex false mc ec).
  - now apply SFdiv_le.
Qed.

Lemma SFleb_zero_nonneg s r : sf_nonneg r = true -> SFleb (S754_zero s) r = true.
Proof. destruct r as [?|[]| |[] ? ?]; try discriminate; reflexivity. Qed.

Lemma SFleb_nonneg_inf r : sf_nonneg r = true -> SFleb r (S754_infinity false) = true.
Proof. destruct r as [?|[]| |[] ? ?]; try discriminate; reflexivity. Qed.

Local Open Scope Z_scope.

Lemma nearest_integer_bounds m e :
  valid_binary (S754_finite false m e) = true -> e < 0 ->
  0 <= nearest_integer m e < 2 ^ 63 /\
  nearest_integer m e * 2 ^ (- e) <= Zpos m + 2 ^ (- e - 1)
    < (nearest_integer m e + 1) * 2 ^ (- e).
Proof.
  intros V He. destruct (valid_digits _ _ _ V) as (B & D & _).
  unfold nearest_integer.
  assert (P : 0 < 2 ^ (- e)) by (apply Z.pow_pos_nonneg; lia).
  assert (Q : 0 < 2 ^ (- e - 1)) by (apply Z.pow_pos_nonneg; lia).
  assert (E : 2 ^ (- e) = 2 * 2 ^ (- e - 1)).
  { rewrite <- Z.pow_succ_r by lia. f_equal. lia. }
  pose proof (Zdigits2_lt (Zpos m) ltac:(lia)) as U.
  assert (2 ^ Zdigits2 (Zpos m) <= 2 ^ 53) by (apply Z.pow_le_mono_r; lia).
  pose proof (Z.div_mod (Zpos m + 2 ^ (- e - 1)) (2 ^ (- e)) ltac:(lia)) as DM.
  pose proof (Z.mod_pos_bound (Zpos m + 2 ^ (- e - 1)) (2 ^ (- e)) P) as MB.
  set (n := (Zpos m + 2 ^ (- e - 1)) / 2 ^ (- e)) in *.
  change (2 ^ 53) with 9007199254740992 in *. change (2 ^ 63) with 9223372036854775808.
  repeat split; try nia.
Qed.

Lemma nearest_integer_le m e m' e' :
  valid_binary (S754_finite false m e) = true ->
  valid_binary (S754_finite false m' e') = true ->
  e < 0 -> e' < 0 ->
  scaled (Zpos m) e <= scaled (Zpos m') e' ->
  nearest_integer m e <= nearest_integer m' e'.
Proof.
  intros V V' He He' L.
  destruct (valid_digits _ _ _ V) as (B & _). destruct (valid_digits _ _ _ V') as (B' & _).
  destruct (nearest_integer_bounds m e V He) as (_ & A & _).
  destruct (nearest_integer_bounds m' e' V' He') as (_ & _ & A').
  set (n := nearest_integer m e) in *. set (n' := nearest_integer m' e') in *.
  unfold scaled in L.
  assert (X : 2 ^ 1074 = 2 ^ (- e) * 2 ^ (e + 1074))
    by (rewrite <- Z.pow_add_r by lia; f_equal; lia).
  assert (X' : 2 ^ 1074 = 2 ^ (- e') * 2 ^ (e' + 1074))
    by (rewrite <- Z.pow_add_r by lia; f_equal; lia).
  assert (Y : 2 ^ 1073 = 2 ^ (- e - 1) * 2 ^ (e + 1074))
    by (rewrite <- Z.pow_add_r by lia; f_equal; lia).
  assert (Y' : 2 ^ 1073 = 2 ^ (- e' - 1) * 2 ^ (e' + 1074))
    by (rewrite <- Z.pow_add_r by lia; f_equal; lia).
  assert (P : 0 < 2 ^ (e + 1074)) by (apply Z.pow_pos_nonneg; lia).
  assert (P' : 0 < 2 ^ (e' + 1074)) by (apply Z.pow_pos_nonneg; lia).
  assert (K : 0 < 2 ^ 1074) by (apply Z.pow_pos_nonneg; lia).
  assert (G : n * 2 ^ 1074 < (n' + 1) * 2 ^ 1074).
  { apply Z.le_lt_trans with (Zpos m * 2 ^ (e + 1074) + 2 ^ 1073).
    - rewrite X at 1. rewrite Y. nia.
    - apply Z.le_lt_trans with (Zpos m' * 2 ^ (e' + 1074) + 2 ^ 1073); [lia|].
      rewrite X'. rewrite Y' at 1. nia. }
  apply Z.mul_lt_mono_pos_r in G; lia.
Qed.

Lemma nearest_integer_below m e m' e' :
  valid_binary (S754_finite false m e) = true ->
  valid_binary (S754_finite false m' e') = true ->
  e < 0 -> 0 <= e' ->
  scaled (Zpos m) e <= scaled (Zpos m') e' ->
  scaled (nearest_integer m e) 0 <= scaled (Zpos m') e'.
Proof.
  intros V V' He He' L.
  destruct (valid_digits _ _ _ V) as (B & _). destruct (valid_digits _ _ _ V') as (B' & _).
  destruct (nearest_integer_bounds m e V He) as (_ & A & _).
  set (n := nearest_integer m e) in *. unfold scaled in *. rewrite Z.add_0_l.
  assert (X : 2 ^ 1074 = 2 ^ (- e) * 2 ^ (e + 1074))
    by (rewrite <- Z.pow_add_r by lia; f_equal; lia).
  assert (Y : 2 ^ 1073 = 2 ^ (- e - 1) * 2 ^ (e + 1074))
    by (rewrite <- Z.pow_add_r by lia; f_equal; lia).
  assert (Z' : 2 ^ (e' + 1074) = 2 ^ e' * 2 ^ 1074) by (rewrite <- Z.pow_add_r by lia; trivial).
  assert (P : 0 < 2 ^ (e + 1074)) by (apply Z.pow_pos_nonneg; lia).
  assert (K : 0 < 2 ^ 1074) by (apply Z.pow_pos_nonneg; lia).
  assert (H2 : 2 ^ 1074 = 2 * 2 ^ 1073) by (rewrite <- Z.pow_succ_r by lia; trivial).
  assert (G : n * 2 ^ 1074 < (Zpos m' * 2 ^ e' + 1) * 2 ^ 1074).
  { apply Z.le_lt_trans with (Zpos m * 2 ^ (e + 1074) + 2 ^ 1073).
    - rewrite X at 1. rewrite Y. nia.
    - rewrite Z' in L. nia. }
  apply Z.mul_lt_mono_pos_r in G; trivial. rewrite Z'. nia.
Qed.

Local Close Scope Z_scope.

Lemma of_integer_SF n :
  (0 < n < 2 ^ 63)%Z ->
  Prim2SF (of_integer false n) = binary_normalize prec emax n 0 false.
Proof.
  intros H. destruct n as [|p|p]; try lia. cbn [of_integer].
  rewrite of_uint63_spec. f_equal. rewrite Uint63.of_Z_spec.
  apply Z.mod_small. change Uint63.wB with (2 ^ 63)%Z. lia.
Qed.

Lemma Math_round_SF x s m e :
  Prim2SF x = S754_finite s m e ->
  Math_round x = if (0 <=? e)%Z then x
                 else of_integer s ((cond_Zopp s (Zpos m) + 2 ^ (- e - 1)) / 2 ^ (- e))%Z.
Proof. intros E. unfold Math_round. now rewrite E. Qed.

Lemma Math_round_same x :
  sf_finite (Prim2SF x) && negb (sf_zero (Prim2SF x)) = false -> Math_round x = x.
Proof. unfold Math_round. now destruct (Prim2SF x). Qed.

(** [Math.round] keeps the order of numbers that are not negative. *)
Lemma Math_round_le x y :
  (0 <=? x) = true -> (x <=? y) = true -> (Math_round x <=? Math_round y) = true.
Proof.
  intros Hx H.
  assert (Hy : (0 <=? y) = true) by (eapply leb_trans; eassumption).
  pose proof (Math_round_nonneg x Hx) as Rx. pose proof (Math_round_nonneg y Hy) as Ry.
  rewrite leb_0_l in Hx, Hy, Rx, Ry. rewrite FloatAxioms.leb_spec in H |- *.
  pose proof (Prim2SF_valid x) as Vx. pose proof (Prim2SF_valid y) as Vy.
  destruct (Prim2SF x) as [sx|[]| |[] mx ex] eqn:Ex; try discriminate;
    destruct (Prim2SF y) as [sy|[]| |[] my ey] eqn:Ey; try discriminate;
    try discriminate H.
  1-3: rewrite (Math_round_same x) in * by (now rewrite Ex); rewrite Ex;
    now apply SFleb_zero_nonneg.
  1-2: rewrite (Math_round_same y) in * by (now rewrite Ey); rewrite Ey;
    now apply SFleb_nonneg_inf.
  pose proof (SFleb_value _ _ _ _ Vx Vy H) as L.
  rewrite (Math_round_SF x _ _ _ Ex), (Math_round_SF y _ _ _ Ey) in *.
  cbn [cond_Zopp] in *.
  destruct (Z.leb_spec 0%Z ex) as [Px|Nx], (Z.leb_spec 0%Z ey) as [Py|Ny].
  + now rewrite Ex, Ey.
  + exfalso. unfold SFleb, SFcompare in H.
    destruct (Z.compare_spec ex ey); try discriminate; lia.
  + fold (nearest_integer mx ex) in *.
    destruct (nearest_integer_bounds mx ex Vx Nx) as (Bn & _).
    pose proof (nearest_integer_below _ _ _ _ Vx Vy Nx Py L) as Lb.
    rewrite Ey. destruct (Z.eq_dec (nearest_integer mx ex) 0%Z) as [Z0|N0].
    * rewrite Z0. reflexivity.
    * rewrite of_integer_SF by lia. apply normalize_le_valid; trivial. lia.
  + fold (nearest_integer mx ex) in *. fold (nearest_integer my ey) in *.
    destruct (nearest_integer_bounds mx ex Vx Nx) as (Bn & _).
    destruct (nearest_integer_bounds my ey Vy Ny) as (Bn' & _).
    pose proof (nearest_integer_le _ _ _ _ Vx Vy Nx Ny L) as Ln.
    destruct (Z.eq_dec (nearest_integer mx ex) 0%Z) as [Z0|N0].
    * rewrite Z0. cbn [of_integer]. rewrite SF_zero. now apply SFleb_zero_nonneg.
    * rewrite !of_integer_SF by lia. apply normalize_le; lia.
Qed.

(** Rounding to 2 decimals keeps the order of numbers that are not
    negative. *)
Lemma round_2_le x y :
  (0 <=? x) = true -> (x <=? y) = true -> (round x 2 <=? round y 2) = true.
Proof.
  intros Hx H. rewrite !round_2.
  assert (P : (0 <? 100) = true) by reflexivity.
  assert (F : is_finite 100 = true) by reflexivity.
  apply div_le_mono; trivial.
  - apply Math_round_nonneg. now apply mul_pos_nonneg.
  - apply Math_round_le; [now apply mul_pos_nonneg | now apply mul_le_mono].
Qed.

Lemma SFmul_comm x y : SF64mul x y = SF64mul y x.
Proof.
  unfold SF64mul, SFmul.
  destruct x as [sx|sx| |sx mx ex], y as [sy|sy| |sy my ey]; trivial;
    rewrite ?(xorb_comm sx sy); trivial.
  now rewrite Pos.mul_comm, Z.add_comm.
Qed.

Lemma mul_comm x y : x * y = y * x.
Proof. apply Prim2SF_inj. rewrite !mul_spec. apply SFmul_comm. Qed.

(** A difference of numbers that are not negative, taken from the larger
    one, is not negative. *)
Lemma sub_nonneg h q :
  is_finite h = true -> (0 <=? q) = true -> (q <=? h) = true -> (0 <=? h - q) = true.
Proof.
  rewrite is_finite_SF, !leb_0_l, FloatAxioms.leb_spec, sub_spec.
  pose proof (Prim2SF_valid h) as Vh. pose proof (Prim2SF_valid q) as Vq.
  destruct (Prim2SF h) as [sh|?| |[] mh eh]; try discriminate;
    destruct (Prim2SF q) as [sq|[]| |[] mq eq]; try discriminate; intros _ _ H;
    try discriminate H; try reflexivity.
  - now destruct sh, sq.
  - pose proof (SFleb_value _ _ _ _ Vq Vh H) as L.
    destruct (valid_digits _ _ _ Vh) as (Bh & _). destruct (valid_digits _ _ _ Vq) as (Bq & _).
    unfold SF64sub, SFsub. cbn [cond_Zopp].
    set (ez := Z.min eh eq).
    destruct (shl_align_scaled mh eh ez ltac:(lia) ltac:(lia)) as [Sh Eh].
    destruct (shl_align_scaled mq eq ez ltac:(lia) ltac:(lia)) as [Sq Eq'].
    replace (snd (shl_align mh eh ez)) with ez in Sh by (rewrite Eh; unfold ez; lia).
    replace (snd (shl_align mq eq ez)) with ez in Sq by (rewrite Eq'; unfold ez; lia).
    apply sign_false_nonneg, binary_normalize_sign.
    rewrite <- Sh, <- Sq in L. unfold scaled in L.
    assert (0 < 2 ^ (ez + 1074))%Z by (apply Z.pow_pos_nonneg; unfold ez; lia).
    apply Z.mul_le_mono_pos_r in L; trivial. lia.
Qed.

(** The correctly rounded power of a number that is not negative is not
    negative. *)
Lemma Math_pow_not_negative b n : (b <? 0) = false -> (Math_pow b n <? 0) = false.
Proof.
  rewrite !ltb_0_r. unfold Math_pow. destruct n as [|n]; [reflexivity|].
  destruct (Prim2SF b) as [[]|[]| |[] m e] eqn:E; try discriminate; intros _;
    try reflexivity.
  - now destruct (Nat.odd (S n)).
  - cbn [cond_Zopp].
    assert (P : (0 <= Zpos m ^ Z.of_nat (S n))%Z) by (apply Z.pow_nonneg; lia).
    pose proof (binary_normalize_sign _ (e * Z.of_nat (S n)) P) as Sg.
    rewrite Prim2SF_SF2Prim.
    + destruct (binary_normalize _ _ _ _ _) as [?|?| |? ? ?]; try discriminate;
        injection Sg as ->; reflexivity.
    + now apply binary_normalize_valid.
Qed.

End OrderedFacts.

(* ===================================================================== *)
(** * Facts about the projection, on any engine *)
(* ===================================================================== *)

Module ProjectionFacts.
Import JS View Order FloatFacts SumFacts SignFacts OrderFacts BoundFacts.
Import Calculator Documented Figures ResolverFacts EngineFacts FigureFacts.
Import CatalogFacts AppFacts OrderedFacts.

(** The engine of the model is one engine. *)
Lemma projection_step_instance base ti sc :
  AnyEngine.projection_step Math_pow base ti sc = projection_step base ti sc.
Proof. reflexivity. Qed.

Lemma calculateProjection_instance base ti sc :
  AnyEngine.calculateProjection Math_pow base ti sc = calculateProjection base ti sc.
Proof.
  unfold AnyEngine.calculateProjection, calculateProjection,
    AnyEngine.projection_loop, projection_loop.
  now rewrite projection_step_instance.
Qed.

(** On an engine whose [Math.pow(10, 2)] is 100, rounding to 2 decimals is
    the rounding of the model. *)
Lemma engine_round_2 pow v :
  pow 10 2%nat = 100 -> AnyEngine.round pow v 2 = round v 2.
Proof. intros H. unfold AnyEngine.round, round. now rewrite H. Qed.

Lemma nan_mul_r x : x * nan = nan.
Proof.
  apply Prim2SF_inj. rewrite mul_spec.
  change (Prim2SF nan) with S754_nan. now destruct (Prim2SF x).
Qed.

Lemma nan_add_l y : nan + y = nan.
Proof. apply Prim2SF_inj. now rewrite add_spec. Qed.

Lemma nan_add_r x : x + nan = nan.
Proof.
  apply Prim2SF_inj. rewrite add_spec.
  change (Prim2SF nan) with S754_nan. now destruct (Prim2SF x).
Qed.

Lemma nan_sub_r x : x - nan = nan.
Proof.
  apply Prim2SF_inj. rewrite sub_spec.
  change (Prim2SF nan) with S754_nan. now destruct (Prim2SF x).
Qed.

Lemma round_2_nan : round nan 2 = nan.
Proof. reflexivity. Qed.

(** A clamped number is [NaN] or within the bounds. *)
Lemma clamp_between v lo hi :
  (lo <=? hi) = true ->
  is_nan (clamp v lo hi) = true \/
  (lo <=? clamp v lo hi) = true /\ (clamp v lo hi <=? hi) = true.
Proof.
  intros H. destruct (leb_not_nan _ _ H) as [Hlo Hhi].
  destruct (is_nan v) eqn:Hv.
  - left. now rewrite (is_nan_eq _ Hv), clamp_nan.
  - right. destruct (clamp_rank v lo hi Hv Hlo Hhi) as [Hn E].
    rewrite leb_rank in H by trivial. apply Z.leb_le in H.
    split; apply rank_le_leb; trivial; rewrite E; lia.
Qed.

(** A number between finite bounds is finite. *)
Lemma between_finite lo x hi :
  (lo <=? x) = true -> (x <=? hi) = true ->
  is_finite lo = true -> is_finite hi = true -> is_finite x = true.
Proof.
  rewrite !is_finite_SF, !FloatAxioms.leb_spec. unfold SFleb.
  destruct (Prim2SF lo) as [[]|[]| |[] ? ?], (Prim2SF x) as [[]|[]| |[] ? ?],
    (Prim2SF hi) as [[]|[]| |[] ? ?]; simpl; intros; try discriminate; trivial.
Qed.

(** A number at least a positive one is positive. *)
Lemma above_positive c x : (0 <? c) = true -> (c <=? x) = true -> (0 <? x) = true.
Proof.
  intros Hc H. destruct (leb_not_nan _ _ H) as [Hn Hx].
  rewrite ltb_rank in * by trivial. rewrite leb_rank in H by trivial.
  apply Z.ltb_lt in Hc. apply Z.leb_le in H. apply Z.ltb_lt. lia.
Qed.

(** A percentage as a share: [x / 100] for [x] between 0 and 100 is between
    0 and 1. *)
Lemma share_between x lo hi :
  (0 <=? lo) = true -> (hi <=? 100) = true ->
  is_nan x = true \/ (lo <=? x) = true /\ (x <=? hi) = true ->
  is_nan (x / 100) = true \/
  (lo / 100 <=? x / 100) = true /\ (x / 100 <=? 1) = true.
Proof.
  intros H0 H1 [H|[Hl Hh]].
  - left. now rewrite (is_nan_eq _ H), nan_div_l.
  - right. split.
    + apply div_le_mono; trivial; reflexivity.
    + apply (leb_trans _ (100 / 100)); [|reflexivity].
      apply div_le_mono; try reflexivity.
      * now apply (leb_trans _ lo).
      * now apply (leb_trans _ hi).
Qed.

(** The product of two shares, the second one positive, is a share. *)
Lemma share_product a l :
  is_nan a = true \/ (0 <=? a) = true /\ (a <=? 1) = true ->
  is_nan l = true \/ (0 <? l) = true /\ (l <=? 1) = true ->
  is_nan (a * l) = true \/ (0 <=? a * l) = true /\ (a * l <=? 1) = true.
Proof.
  intros [Ha|[Ha0 Ha1]] [Hl|[Hl0 Hl1]].
  - left. now rewrite (is_nan_eq _ Ha), nan_mul_l.
  - left. now rewrite (is_nan_eq _ Ha), nan_mul_l.
  - left. now rewrite (is_nan_eq _ Hl), nan_mul_r.
  - right.
    assert (Fl : is_finite l = true).
    { apply (between_finite 0 l 1); trivial. now apply pos_nonneg. }
    assert (H : (a * l <=? 1) = true).
    { apply (leb_trans _ (1 * l)).
      - now apply mul_le_mono.
      - rewrite (mul_comm 1 l). apply (leb_trans _ (1 * 1)); [|reflexivity].
        apply mul_le_mono; trivial; try reflexivity. now apply pos_nonneg. }
    split; trivial.
    apply leb_not_nan in H as Hn. destruct Hn as [Hn _].
    assert (N : (a * l <? 0) = false).
    { apply mul_not_negative; apply nonneg_not_negative; trivial. now apply pos_nonneg. }
    apply not_negative_cases in N as [N|N]; trivial. congruence.
Qed.

(** What is left of the whole after a share is not negative. *)
Lemma rest_not_negative q :
  is_nan q = true \/ (0 <=? q) = true /\ (q <=? 1) = true ->
  (1 - q <? 0) = false.
Proof.
  intros [H|[H0 H1]].
  - now rewrite (is_nan_eq _ H), nan_sub_r.
  - apply nonneg_not_negative, sub_nonneg; trivial.
Qed.

(** The two shares of the resolved inputs. *)
Lemma automation_share raw :
  let a := automationLevel (resolveInputs raw) / 100 in
  is_nan a = true \/ (0 <=? a) = true /\ (a <=? 1) = true.
Proof.
  cbv zeta. cbn [resolveInputs automationLevel].
  destruct (share_between _ 25 100 eq_refl eq_refl
              (clamp_between (ToNumber (defined_or (get raw "automationLevel") (Num 50)))
                             25 100 eq_refl)) as [H|[H1 H2]]; [now left|right].
  split; trivial. now apply (leb_trans _ (25 / 100)).
Qed.

Lemma reduction_share raw :
  let l := laborReduction (resolveInputs raw) / 100 in
  is_nan l = true \/ (0 <? l) = true /\ (l <=? 1) = true.
Proof.
  cbv zeta. cbn [resolveInputs laborReduction].
  destruct (share_between _ 50 95 eq_refl eq_refl
              (clamp_between (ToNumber (defined_or (get raw "laborReduction") (Num 85)))
                             50 95 eq_refl)) as [H|[H1 H2]]; [now left|right].
  split; trivial. now apply (above_positive (50 / 100)).
Qed.

(** No amount the projection starts from is negative. *)
Lemma internal_not_negative (raw : option (gmap string value)) :
  let c := _internal (calculateROI raw) in
  (laborCost c <? 0) = false /\ (fuelCost c <? 0) = false /\
  (equipmentAnnualCost c <? 0) = false /\ (totalNewCosts c <? 0) = false.
Proof.
  cbv zeta. unfold calculateROI.
  cbn [_internal laborCost fuelCost equipmentAnnualCost totalNewCosts].
  destruct (outsourced _); cbn [fst snd];
    [|destruct (isLeased _)]; repeat split; not_negative.
Qed.

Lemma inputs_calculateROI (raw : option (gmap string value)) :
  inputs (calculateROI raw) = resolveInputs (default ∅ raw).
Proof. reflexivity. Qed.

Section SoundEngine.

Variable pow : float -> nat -> float.
Hypothesis pow_hundred : pow 10 2%nat = 100.
Hypothesis pow_sign : forall b n, (b <? 0) = false -> (pow b n <? 0) = false.

(** No yearly automated cost is negative. *)
Lemma automatedCost_not_negative raw sc year :
  (sc <? 0) = false ->
  (AnyEngine.automatedCost_of pow (calculateROI raw) sc year <? 0) = false.
Proof.
  intros Hs. unfold AnyEngine.automatedCost_of.
  rewrite engine_round_2 by trivial.
  destruct (internal_not_negative raw) as (H1 & H2 & H3 & H4).
  rewrite inputs_calculateROI.
  pose proof (automation_share (default ∅ raw)) as Ha. cbv zeta in Ha.
  pose proof (reduction_share (default ∅ raw)) as Hl. cbv zeta in Hl.
  apply round_2_not_negative.
  repeat apply add_not_negative; trivial; repeat apply mul_not_negative; trivial.
  - apply rest_not_negative. now apply share_product.
  - apply pow_sign. apply add_not_negative; [reflexivity|].
    apply div_not_negative; [|reflexivity].
    exact (resolved_not_negative _ f_annualLaborIncrease).
  - now apply rest_not_negative.
  - apply pow_sign. apply add_not_negative; [reflexivity|].
    apply div_not_negative; [|reflexivity].
    exact (resolved_not_negative _ f_annualFuelIncrease).
  - apply rest_not_negative. apply share_product; trivial.
    right. split; reflexivity.
Qed.

(** No automated cost of the projection is negative. *)
Lemma projection_costs_not_negative raw ti sc :
  Forall (fun e => (automatedCost e <? 0) = false)
         (AnyEngine.calculateProjection pow (calculateROI raw) ti sc).
Proof.
  unfold AnyEngine.calculateProjection, AnyEngine.projection_loop, years.
  cbn [seq fold_left AnyEngine.projection_step projection app
       cumTraditional cumAutomated].
  repeat match goal with |- Forall _ _ => once constructor end;
    cbn [automatedCost]; apply automatedCost_not_negative;
    apply nonneg_not_negative, guard_nonneg.
Qed.

End SoundEngine.

(** A running total of amounts that are not negative is [NaN] or at least
    what it started from. *)
Lemma sum_not_negative (l : list float) a :
  Forall (fun c => (c <? 0) = false) l -> (a <? 0) = false ->
  (fold_left PrimFloat.add l a <? 0) = false.
Proof.
  revert a. induction l as [|c l IH]; simpl; intros a Hl Ha; trivial.
  inversion Hl; subst. apply IH; trivial. now apply add_not_negative.
Qed.

(** Adding an investment to a total that is not negative and rounding the
    sum gives [NaN] or at least the rounded investment. *)
Lemma round_total A t :
  (A <? 0) = false -> (0 <=? t) = true ->
  is_nan (round (A + t) 2) = true \/ (round t 2 <=? round (A + t) 2) = true.
Proof.
  intros HA Ht. apply not_negative_cases in HA as [HA|HA].
  - left. now rewrite (is_nan_eq _ HA), nan_add_l.
  - right. apply round_2_le; trivial. now apply add_ge_r.
Qed.

End ProjectionFacts.


(* ===================================================================== *)
(** * The properties *)
(* ===================================================================== *)

Import FloatFacts SumFacts Calculator Equipment Documented Sizing Scenarios.
Import ResolverFacts EngineFacts EquipmentFacts ProjectionFacts.

(** ** Input resolver *)




(** C3, as the resolver has it.  The resolved property type is 'commercial'
    when the raw one is absent or falsy, and the raw value itself otherwise,
    recognized or not; a value that names no row of the table (and no
    inherited property) takes the commercial row.  The maintenance type is
    'outsourced' exactly when the raw value is that string, and 'inhouse' in
    every other case. *)
Theorem resolveInputs_categories (raw : gmap string value) :
  (ToBoolean (get raw "propertyType") = false ->
     propertyType (resolveInputs raw) = Str "commercial") /\
  (ToBoolean (get raw "propertyType") = true ->
     propertyType (resolveInputs raw) = get raw "propertyType") /\
  (PROPERTY_DEFAULTS (propertyType (resolveInputs raw)) = Missing ->
     mowsPerWeek (resolveInputs raw) = Num (pd_mowsPerWeek commercial)) /\
  (maintenanceType (resolveInputs raw) = "outsourced"%string <->
     get raw "maintenanceType" = Str "outsourced") /\
  (maintenanceType (resolveInputs raw) <> "outsourced"%string ->
     maintenanceType (resolveInputs raw) = "inhouse"%string).
Proof.
  cbn [resolveInputs propertyType mowsPerWeek maintenanceType]. unfold or_else.
  repeat split.
  - now intros ->.
  - now intros ->.
  - unfold propDefaults_of. now intros ->.
  - destruct (get raw "maintenanceType") as [| |b|x|s]; try discriminate.
    destruct (String.eqb_spec s "outsourced") as [->|]; [trivial | discriminate].
  - intros ->. reflexivity.
  - destruct (get raw "maintenanceType") as [| |b|x|s]; trivial.
    now destruct (String.eqb s "outsourced").
Qed.

(** C3 at work: with no property type at all the result is 'commercial'. *)
Lemma resolveInputs_categories_witness :
  ToBoolean (get (∅ : gmap string value) "propertyType") = false /\
  propertyType (resolveInputs ∅) = Str "commercial".
Proof.
  assert (H : ToBoolean (get (∅ : gmap string value) "propertyType") = false)
    by reflexivity.
  split; [exact H|].
  exact (proj1 (resolveInputs_categories ∅) H).
Defined.

(** C3 as worded fails: 'residential' is no recognized property type, yet it
    is what the resolver returns. *)
Lemma resolveInputs_keeps_unrecognized_type :
  PROPERTY_DEFAULTS (Str "residential") = Missing /\
  propertyType (resolveInputs residential) = Str "residential" /\
  propertyType (resolveInputs residential) <> Str "commercial".
Proof. repeat split. vm_compute. discriminate. Qed.

(** C10, as the resolver has it.  With [n] the number the raw season length
    coerces to: when [n] is [0], [-0] or [NaN] the season is 30 weeks; when
    [n] is any other number below 1, negative ones included, it is 1; and
    when [n] is at least 1 it is [n]. *)
Theorem resolveInputs_seasonWeeks (raw : gmap string value) :
  (falsy_number (ToNumber (get raw "seasonWeeks")) = true ->
     seasonWeeks (resolveInputs raw) = 30) /\
  (falsy_number (ToNumber (get raw "seasonWeeks")) = false ->
     (ToNumber (get raw "seasonWeeks") <? 1) = true ->
     seasonWeeks (resolveInputs raw) = 1) /\
  (falsy_number (ToNumber (get raw "seasonWeeks")) = false ->
     (1 <=? ToNumber (get raw "seasonWeeks")) = true ->
     seasonWeeks (resolveInputs raw) = ToNumber (get raw "seasonWeeks")).
Proof.
  cbn [resolveInputs seasonWeeks]. unfold number_or.
  set (n := ToNumber (get raw "seasonWeeks")).
  repeat split; intros ->; trivial.
  - unfold Math_max. intros H. destruct (ltb_not_nan _ _ H) as [-> _].
    now rewrite H.
  - unfold Math_max. intros H. destruct (leb_not_nan _ _ H) as [_ ->].
    rewrite (leb_not_ltb _ _ H). cbn [orb].
    change (is_nan 1) with false. cbn [orb].
    destruct (1 <? n); trivial.
    destruct (PrimFloat.Leibniz.eqb n _) eqn:E; trivial.
    apply FloatAxioms.Leibniz.eqb_spec in E. rewrite E in H. discriminate H.
Qed.

(** C10 at work: the text "abc" is no number, and the season is 30 weeks. *)
Lemma resolveInputs_seasonWeeks_witness :
  falsy_number (ToNumber (get unnamed_season "seasonWeeks")) = true /\
  seasonWeeks (resolveInputs unnamed_season) = 30.
Proof.
  assert (H : falsy_number (ToNumber (get unnamed_season "seasonWeeks")) = true)
    by (vm_compute; reflexivity).
  split; [exact H|].
  exact (proj1 (resolveInputs_seasonWeeks unnamed_season) H).
Defined.

(** C10 as worded fails: a season of -5 weeks is clamped to 1, and -5 does
    not lie strictly between 0 and 1. *)
Lemma resolveInputs_seasonWeeks_negative :
  ToNumber (get negative_season "seasonWeeks") = -5 /\
  seasonWeeks (resolveInputs negative_season) = 1 /\
  (0 <? -5) = false.
Proof. repeat split. Qed.

(** ** Cost and savings engine *)

(** C6, as the engine has it.  For resolved inputs with maintenance type
    'outsourced', current fuel and equipment costs and fuel and equipment
    savings are 0, the current labor cost is the monthly contract times 12
    rounded to 2 decimals, and the labor savings are that labor cost times
    the automation share times 0.85, rounded to 2 decimals. *)
Theorem calculateROI_outsourced (raw : option (gmap string value)) :
  maintenanceType (inputs (calculateROI raw)) = "outsourced"%string ->
  cc_fuel (currentCosts (calculateROI raw)) = 0 /\
  cc_equipment (currentCosts (calculateROI raw)) = 0 /\
  sv_fuel (savings (calculateROI raw)) = 0 /\
  sv_equipment (savings (calculateROI raw)) = 0 /\
  cc_labor (currentCosts (calculateROI raw)) =
    round (monthlyContract (inputs (calculateROI raw)) * 12) 2 /\
  sv_labor (savings (calculateROI raw)) =
    round (cc_labor (currentCosts (calculateROI raw))
           * (automationLevel (inputs (calculateROI raw)) / 100) * 0.85) 2.
Proof.
  unfold calculateROI.
  cbn [inputs currentCosts savings cc_fuel cc_equipment cc_labor
       sv_fuel sv_equipment sv_labor].
  unfold outsourced. intros ->. repeat split.
Qed.

(** C6 at work: a contract of 1234.56 a month. *)
Lemma calculateROI_outsourced_witness :
  maintenanceType (inputs (calculateROI (Some (contract 1234.56)))) = "outsourced"%string /\
  cc_fuel (currentCosts (calculateROI (Some (contract 1234.56)))) = 0.
Proof.
  assert (H : maintenanceType (inputs (calculateROI (Some (contract 1234.56))))
              = "outsourced"%string) by (vm_compute; reflexivity).
  split; [exact H|].
  exact (proj1 (calculateROI_outsourced (Some (contract 1234.56)) H)).
Defined.

(** C6 as worded fails: with a contract of 100.001 a month the labor cost is
    1200.01, the rounding of 100.001 times 12, and not that product. *)
Lemma calculateROI_outsourced_labor_rounded :
  cc_labor (currentCosts (calculateROI (Some (contract 100.001)))) = 1200.01 /\
  (cc_labor (currentCosts (calculateROI (Some (contract 100.001))))
   <? monthlyContract (inputs (calculateROI (Some (contract 100.001)))) * 12) = true /\
  cc_labor (currentCosts (calculateROI (Some (contract 100.001))))
  <> monthlyContract (inputs (calculateROI (Some (contract 100.001)))) * 12.
Proof.
  repeat split; try (vm_compute; reflexivity).
  apply neq_by_bits. vm_compute. reflexivity.
Qed.

(** ** Investment evaluator *)

(** C2, as the evaluator has it.  Both investment figures are clamped to at
    least 0, and with [effectiveSavings = netAnnualSavings - annualServiceCost]:
    when the investment is 0, roi is [+Infinity] if the effective savings are
    positive and 0 otherwise, and both paybacks are 0; when the investment is
    positive and the effective savings are at most 0, both paybacks are
    [+Infinity] and roi is the 2-decimal rounding of savings over investment
    times 100, which is at most 0 unless both are infinite; when both are
    positive, roi, payback years and payback months are the three rounded
    quotients, none of them negative or [NaN] unless both are infinite; and
    when the investment is positive and the effective savings are [NaN], all
    three are [NaN], which finite net savings never lead to. *)
Theorem withInvestment_cases (netAnnualSavings : float) (ti sc : value) :
  let r := withInvestment netAnnualSavings ti sc in
  let T := Calculator.totalInvestment r in
  let S := annualServiceCost r in
  let effectiveSavings := netAnnualSavings - S in
  (T = Math_max (number_or (ToNumber ti) 0) 0 /\ (0 <=? T) = true) /\
  (S = Math_max (number_or (ToNumber sc) 0) 0 /\ (0 <=? S) = true) /\
  (is_finite netAnnualSavings = true -> is_nan effectiveSavings = false) /\
  ((T =? 0) = true ->
     roi r = (if 0 <? effectiveSavings then infinity else 0) /\
     paybackYears r = 0 /\ paybackMonths r = 0) /\
  ((0 <? T) = true -> (effectiveSavings <=? 0) = true ->
     roi r = round (effectiveSavings / T * 100) 2 /\
     paybackYears r = infinity /\ paybackMonths r = infinity /\
     (is_finite effectiveSavings || is_finite T = true -> (roi r <=? 0) = true)) /\
  ((0 <? T) = true -> (0 <? effectiveSavings) = true ->
     roi r = round (effectiveSavings / T * 100) 2 /\
     paybackYears r = round (T / effectiveSavings) 2 /\
     paybackMonths r = round (paybackYears r * 12) 1 /\
     (is_finite effectiveSavings || is_finite T = true ->
        (0 <=? roi r) = true /\ (0 <=? paybackYears r) = true /\
        (0 <=? paybackMonths r) = true)) /\
  ((0 <? T) = true -> is_nan effectiveSavings = true ->
     is_nan (roi r) = true /\ is_nan (paybackYears r) = true /\
     is_nan (paybackMonths r) = true).
Proof.
  intros r T S eff. subst eff S T r.
  unfold withInvestment.
  cbn [roi paybackYears paybackMonths Calculator.totalInvestment annualServiceCost].
  set (T := Math_max (number_or (ToNumber ti) 0) 0).
  set (S := Math_max (number_or (ToNumber sc) 0) 0).
  set (eff := netAnnualSavings - S).
  assert (HT : (0 <=? T) = true) by apply guard_nonneg.
  assert (HS : (0 <=? S) = true) by apply guard_nonneg.
  assert (Hsub : is_finite netAnnualSavings = true -> is_nan eff = false).
  { intros Hf. apply sub_not_nan; trivial. now apply nonneg_not_nan. }
  split; [now split|]. split; [now split|]. split; [exact Hsub|]. clear Hsub.
  destruct (nonneg_cases T HT) as [[E0 EP]|[E0 EP]]; rewrite E0, EP.
  { cbn [fst snd]. repeat split; trivial; discriminate. }
  destruct (sign_cases eff) as [(E1 & E2 & E3)|[(E1 & E2 & E3)|(E1 & E2 & E3)]];
    rewrite E1, ?E2, ?E3; cbn [fst snd];
    (split; [discriminate|]); repeat split; trivial; try discriminate.
  - intros Hf. apply round_2_nonpos, mul_pos_nonpos; try reflexivity.
    now apply div_nonpos.
  - apply round_2_nonneg, mul_pos_nonneg; try reflexivity.
    apply div_nonneg; trivial. now apply pos_nonneg.
  - apply round_2_nonneg, div_nonneg; trivial.
    now rewrite orb_comm.
  - apply round_1_nonneg, mul_pos_nonneg; try reflexivity.
    apply round_2_nonneg, div_nonneg; trivial. now rewrite orb_comm.
  - rewrite (is_nan_eq _ E3), nan_div_l. reflexivity.
  - rewrite (is_nan_eq _ E3), nan_div_r. reflexivity.
  - rewrite (is_nan_eq _ E3), nan_div_r. reflexivity.
Qed.

(** C2 at work: savings of 500 against a service cost of 600 and an
    investment of 10000 never pay back, and roi is -1. *)
Lemma withInvestment_cases_witness :
  paybackYears (withInvestment 500 (Num 10000) (Num 600)) = infinity /\
  (roi (withInvestment 500 (Num 10000) (Num 600)) <=? 0) = true /\
  roi (withInvestment 500 (Num 10000) (Num 600)) = -1.
Proof.
  destruct (withInvestment_cases 500 (Num 10000) (Num 600))
    as (_ & _ & _ & _ & H & _).
  destruct (H eq_refl eq_refl) as (_ & H1 & _ & H2).
  split; [exact H1|]. split; [exact (H2 eq_refl)|]. reflexivity.
Defined.

(** C2 as worded fails: the blank form above has [NaN] net savings, and with
    a positive investment the "otherwise" case returns [NaN] three times, not
    a finite roi; finite savings over a tiny investment overflow to an
    infinite roi; and infinitely negative savings over an infinite
    investment give a roi of [NaN], which is not at most 0. *)
Lemma withInvestment_not_always_finite :
  (0 <? Calculator.totalInvestment blank_metrics) = true /\
  (netAnnualSavings (calculateROI (Some blank_benefits))
   - annualServiceCost blank_metrics <=? 0) = false /\
  is_finite (roi blank_metrics) = false /\
  is_nan (roi blank_metrics) = true /\
  is_nan (paybackYears blank_metrics) = true /\
  is_nan (paybackMonths blank_metrics) = true /\
  roi (withInvestment 1e300 (Num 1e-300) (Num 0)) = infinity /\
  is_nan (roi (withInvestment neg_infinity (Num infinity) (Num 0))) = true.
Proof. repeat split; vm_compute; reflexivity. Qed.

(** ** Projection engine *)

(** C4, as the engine has it.  Whatever the engine's [Math.pow] returns:
    the projection has exactly 5 entries, for the years 1 to 5 in order, and
    in the entry of each year, with [L] and [F] what [Math.pow] returns for
    [(1 + increase/100, year)], the two multipliers are [L] and [F] rounded
    to 4 decimals, while the traditional and the automated cost are the
    2-decimal roundings of the two sums, taken with the unrounded [L] and
    [F]; the equipment cost does not compound. *)
Theorem calculateProjection_entries (pow : float -> nat -> float)
    (base : ROIResult) (ti sc : value) :
  let p := AnyEngine.calculateProjection pow base ti sc in
  let i := inputs base in
  let c := _internal base in
  let annualServiceCost := Math_max (number_or (ToNumber sc) 0) 0 in
  length p = 5%nat /\
  map year p = [1; 2; 3; 4; 5]%nat /\
  Forall (fun e =>
    let L := pow (1 + annualLaborIncrease i / 100) (year e) in
    let F := pow (1 + annualFuelIncrease i / 100) (year e) in
    laborMultiplier e = AnyEngine.round pow L 4 /\
    fuelMultiplier e = AnyEngine.round pow F 4 /\
    traditionalCost e =
      AnyEngine.round pow
        (laborCost c * L + fuelCost c * F + equipmentAnnualCost c) 2 /\
    automatedCost e =
      AnyEngine.round pow
        (laborCost c * (1 - automationLevel i / 100 * (laborReduction i / 100)) * L
         + fuelCost c * (1 - automationLevel i / 100) * F
         + equipmentAnnualCost c * (1 - automationLevel i / 100 * 0.5)
         + totalNewCosts c
         + annualServiceCost) 2)
    p.
Proof.
  intros p i c s. split; [reflexivity|]. split; [reflexivity|].
  subst p. unfold AnyEngine.calculateProjection, AnyEngine.projection_loop, years.
  cbn [seq fold_left AnyEngine.projection_step projection app cumTraditional cumAutomated].
  repeat constructor.
Qed.

(** C4 as worded fails: for the default inputs the labor multiplier reported
    for year 2 is 1.0506, the power 1.025^2 = 1.050625 rounded to 4
    decimals. *)
Lemma calculateProjection_multiplier_rounded :
  map laborMultiplier default_projection = [1.025; 1.0506; 1.0769; 1.1038; 1.1314] /\
  Math_pow (1 + annualLaborIncrease (inputs (calculateROI None)) / 100) 2
    = 1.050625 /\
  Exists (fun e =>
            laborMultiplier e
            <> Math_pow (1 + annualLaborIncrease (inputs (calculateROI None)) / 100)
                        (year e))
         default_projection.
Proof.
  split; [vm_compute; reflexivity|]. split; [vm_compute; reflexivity|].
  unfold default_projection, calculateProjection, projection_loop, years.
  cbn [seq fold_left projection_step projection app cumTraditional cumAutomated].
  apply Exists_cons_tl, Exists_cons_hd. cbn [laborMultiplier year].
  apply neq_by_bits. vm_compute. reflexivity.
Qed.

(** C5, as the engine has it.  Whatever the engine's [Math.pow] returns: in
    the entry of year [k+1], with [T] and [A] the running totals of the
    traditional and the automated costs of the years so far, the cumulative
    traditional cost is [T] rounded to 2 decimals, the cumulative automated
    cost is [A] plus the investment, added once, rounded to 2 decimals, and
    the cumulative savings are [T - (A + investment)] rounded to 2 decimals.
    For a result of [calculateROI], on an engine whose [Math.pow(10, 2)] is
    100 and whose [Math.pow] returns no negative number for a base that is
    not negative: no automated cost of the years so far is negative (each is
    [NaN] or at least 0), and the cumulative automated cost is [NaN] or at
    least the investment rounded to 2 decimals. *)
Theorem calculateProjection_cumulative (pow : float -> nat -> float)
    (base : ROIResult) (ti sc : value) (k : nat) :
  (k < 5)%nat ->
  let p := AnyEngine.calculateProjection pow base ti sc in
  let totalInvestment := Math_max (number_or (ToNumber ti) 0) 0 in
  let costs := map automatedCost (take (S k) p) in
  let T := fold_left PrimFloat.add (map traditionalCost (take (S k) p)) 0 in
  let A := fold_left PrimFloat.add costs 0 in
  exists e,
    p !! k = Some e /\ year e = S k /\
    cumulativeTraditional e = AnyEngine.round pow T 2 /\
    cumulativeAutomated e = AnyEngine.round pow (A + totalInvestment) 2 /\
    cumulativeSavings e = AnyEngine.round pow (T - (A + totalInvestment)) 2 /\
    (pow 10 2%nat = 100 ->
     (forall b n, (b <? 0) = false -> (pow b n <? 0) = false) ->
     (exists raw, base = calculateROI raw) ->
     Forall (fun c => (c <? 0) = false) costs /\
     (is_nan (cumulativeAutomated e) = true \/
      (AnyEngine.round pow totalInvestment 2 <=? cumulativeAutomated e) = true)).
Proof.
  intros Hk p totalInvestment costs T A.
  assert (H1 : exists e,
             p !! k = Some e /\ year e = S k /\
             cumulativeTraditional e = AnyEngine.round pow T 2 /\
             cumulativeAutomated e = AnyEngine.round pow (A + totalInvestment) 2 /\
             cumulativeSavings e = AnyEngine.round pow (T - (A + totalInvestment)) 2).
  { subst p T A costs totalInvestment.
    unfold AnyEngine.calculateProjection, AnyEngine.projection_loop, years.
    cbn [seq fold_left AnyEngine.projection_step projection app
         cumTraditional cumAutomated].
    do 5 (destruct k as [|k]; [eexists; repeat split|]).
    lia. }
  destruct H1 as (e & E1 & E2 & E3 & E4 & E5). exists e.
  repeat (split; [assumption|]).
  intros P100 Psign [raw ->].
  assert (Hc : Forall (fun c => (c <? 0) = false) costs).
  { apply Forall_map, Forall_take.
    now apply projection_costs_not_negative. }
  split; trivial.
  rewrite E4, !engine_round_2 by trivial.
  apply round_total; [|apply guard_nonneg].
  now apply sum_not_negative.
Qed.

(** C5 at work: the entry of year 5 of the worked example, on the engine of
    the model. *)
Lemma calculateProjection_cumulative_witness :
  (4 < 5)%nat /\
  Math_pow 10 2 = 100 /\
  (forall b n, (b <? 0) = false -> (Math_pow b n <? 0) = false) /\
  (exists raw, calculateROI (Some example_inputs) = calculateROI raw) /\
  exists e,
    equipped_projection !! 4%nat = Some e /\ year e = 5%nat /\
    (is_nan (cumulativeAutomated e) = true \/
     (16403.95 <=? cumulativeAutomated e) = true).
Proof.
  assert (H : (4 < 5)%nat) by lia.
  assert (P : Math_pow 10 2 = 100) by (vm_compute; reflexivity).
  assert (R : exists raw, calculateROI (Some example_inputs) = calculateROI raw)
    by (exists (Some example_inputs); reflexivity).
  assert (E : AnyEngine.round Math_pow
                (Math_max (number_or (ToNumber (Num 16403.95)) 0) 0) 2 = 16403.95)
    by (vm_compute; reflexivity).
  split; [exact H|]. split; [exact P|].
  split; [exact OrderedFacts.Math_pow_not_negative|]. split; [exact R|].
  pose proof (calculateProjection_cumulative Math_pow
                (calculateROI (Some example_inputs)) (Num 16403.95) (Num 892.97) 4 H)
    as Hw.
  cbv zeta in Hw. rewrite calculateProjection_instance, E in Hw.
  fold equipped_projection in Hw.
  destruct Hw as (e & H1 & H2 & _ & _ & _ & Hge).
  exists e. split; [exact H1|]. split; [exact H2|].
  exact (proj2 (Hge P OrderedFacts.Math_pow_not_negative R)).
Defined.

(** C5 as worded fails.  In the worked example, with the equipment
    recommended for it, the cumulative savings of year 1 are 375.36 while
    the difference of the two reported cumulative costs is
    375.36000000000058; with nothing to pay but an investment of half a cent
    the reported savings are -0 while the difference is -0.01; with an
    investment of 0.004 the cumulative automated cost of year 5 is 0, below
    the investment; and after a benefits field left blank the cumulative
    automated cost of year 5 is [NaN], which is not at least the
    investment. *)
Lemma calculateProjection_cumulative_rounding :
  Exists (fun e => cumulativeSavings e
                   <> cumulativeTraditional e - cumulativeAutomated e)
         example_projection /\
  map (fun e => (cumulativeSavings e, cumulativeTraditional e - cumulativeAutomated e))
      (idle_projection 0.005)
    = [(-0, -0.01); (-0, -0.01); (-0, -0.01); (-0, -0.01); (-0, -0.01)] /\
  Exists (fun e => year e = 5%nat /\ (cumulativeAutomated e <? 0.004) = true)
         (idle_projection 0.004) /\
  Exists (fun e => year e = 5%nat /\ is_nan (cumulativeAutomated e) = true /\
                   (16403.95 <=? cumulativeAutomated e) = false)
         blank_projection.
Proof.
  split; [|split; [|split]].
  - unfold example_projection, calculateProjection, projection_loop, years.
    cbn [seq fold_left projection_step projection app cumTraditional cumAutomated].
    apply Exists_cons_hd.
    cbn [cumulativeSavings cumulativeTraditional cumulativeAutomated].
    apply neq_by_bits. vm_compute. reflexivity.
  - vm_compute. reflexivity.
  - unfold idle_projection, calculateProjection, projection_loop, years.
    cbn [seq fold_left projection_step projection app cumTraditional cumAutomated].
    do 4 apply Exists_cons_tl. apply Exists_cons_hd.
    split; [reflexivity|]. vm_compute. reflexivity.
  - unfold blank_projection, calculateProjection, projection_loop, years.
    cbn [seq fold_left projection_step projection app cumTraditional cumAutomated].
    do 4 apply Exists_cons_tl. apply Exists_cons_hd.
    split; [reflexivity|]. split; vm_compute; reflexivity.
Qed.

(** ** Equipment recommender *)

(** C7, as the recommender has it.  For every catalog that lists a model and
    gives every model a positive finite coverage (the built-in one when
    nothing is loaded), every property type that is a string or absent,
    every acreage other than [+Infinity], every automation level and every
    hilly flag, a recommendation is returned whose target acreage is the
    sanitized acreage times the sanitized level over 100, and whose number
    of units is [max(1, ceil(targetAcreage / model.coverage))], at least 1. *)
Theorem recommendEquipment_units (d : option Catalog) (pt a l h : value) :
  catalog_ok (default FALLBACK_DATA d) -> type_ok pt -> ToNumber a <> infinity ->
  exists r,
    snd (recommendEquipment d pt a l h) = Normal r /\
    targetAcreage r =
      Math_max 0 (number_or (ToNumber a) 0)
      * (Math_min 100 (Math_max 0 (number_or (ToNumber l) 0)) / 100) /\
    unitsNeeded r = Math_max 1 (Math_ceil (targetAcreage r / mi_coverage (model r))) /\
    (1 <=? unitsNeeded r) = true.
Proof.
  intros [Hne Hcov] Hpt Ha. unfold recommendEquipment. cbn [snd].
  destruct (lowered_type_ok pt Hpt) as [s ->]. cbv beta iota zeta.
  set (A := Math_max 0 (number_or (ToNumber a) 0)).
  set (L := Math_min 100 (Math_max 0 (number_or (ToNumber l) 0))).
  set (short := if (String.eqb s "golf" || ToBoolean h)%bool then _ else _).
  destruct (chosen_model (default FALLBACK_DATA d) short Hne) as (m & -> & Hin).
  eexists. split; [reflexivity|]. cbn [targetAcreage unitsNeeded model mi_coverage].
  repeat split.
  destruct (proj1 (List.Forall_forall _ _) Hcov m Hin) as [Hc Hf].
  destruct (sanitized_acreage (ToNumber a) Ha) as [HA HAf]. fold A in HA, HAf.
  destruct (sanitized_level (ToNumber l)) as (HL & _ & HLf). fold L in HL, HLf.
  apply units_at_least_one; trivial.
  apply mul_nonneg; trivial.
  - apply div_nonneg; trivial. now rewrite HLf.
  - now apply div_100_finite.
Qed.

(** C7 at work: a golf course of no acreage at all still gets one unit. *)
Lemma recommendEquipment_units_witness :
  catalog_ok FALLBACK_DATA /\ type_ok (Str "golf") /\ ToNumber (Num 0) <> infinity /\
  exists r,
    snd (recommendEquipment None (Str "golf") (Num 0) (Num 80) Undefined) = Normal r /\
    (1 <=? unitsNeeded r) = true.
Proof.
  assert (H1 : catalog_ok FALLBACK_DATA) by exact fallback_ok.
  assert (H2 : type_ok (Str "golf")) by (right; eexists; reflexivity).
  assert (H3 : ToNumber (Num 0) <> infinity) by (apply neq_by_bits; reflexivity).
  repeat split; trivial; try apply H1.
  destruct (recommendEquipment_units None (Str "golf") (Num 0) (Num 80) Undefined H1 H2 H3)
    as (r & Hr & _ & _ & Hu).
  exists r. split; [exact Hr | exact Hu].
Defined.

(** C7 as worded fails: an infinite acreage at automation level 0 has a
    target acreage of [NaN], and the number of units is [NaN], not at
    least 1.  So is the number of units for no acreage with a loaded
    catalog whose model covers nothing; and a property type that is a
    number makes the call throw. *)
Lemma recommendEquipment_units_nan :
  (exists r,
     snd (recommendEquipment None (Str "commercial") (Num infinity) (Num 0) (Bool false))
       = Normal r /\
     is_nan (targetAcreage r) = true /\
     is_nan (unitsNeeded r) = true /\
     (1 <=? unitsNeeded r) = false) /\
  (exists r,
     snd (recommendEquipment (Some uncovered_catalog) (Str "commercial")
            (Num 0) (Num 50) (Bool false))
       = Normal r /\
     is_nan (unitsNeeded r) = true) /\
  snd (recommendEquipment None (Num 42) (Num 10) (Num 50) (Bool false))
    = Throw_TypeError.
Proof.
  split; [|split].
  - eexists. split; [vm_compute; reflexivity|]. repeat split.
  - eexists. split; [vm_compute; reflexivity|]. reflexivity.
  - vm_compute. reflexivity.
Qed.

(** C8.  For a commercial property of 10 acres at automation level 50, not
    hilly, with the built-in catalog, the target acreage is 5, the model is
    the '550 EPOS' with coverage 2.5, and the number of units is
    [ceil(5 / 2.5) = 2]. *)
Theorem recommendEquipment_example :
  exists r,
    recommendEquipment None (Str "commercial") (Num 10) (Num 50) (Bool false)
      = (Some FALLBACK_DATA, Normal r) /\
    targetAcreage r = 5 /\
    mi_shortName (model r) = "550 EPOS"%string /\
    mi_coverage (model r) = 2.5 /\
    unitsNeeded r = Math_ceil (5 / 2.5) /\
    unitsNeeded r = 2.
Proof. eexists. split; [vm_compute; reflexivity|]. repeat split. Qed.

(** C9.  Every recommendation that is returned is consistent: the total
    investment is the sum of the five breakdown amounts (mowers, reference
    station, housing, installation, setup), the annual service cost is the
    sum of the three annual breakdown amounts, and the total equipment cost
    is mowers plus reference station plus housing.  No recommendation is
    returned only when the property type is a truthy value that is not a
    string, or the catalog lists no model. *)
Theorem recommendEquipment_consistent (d : option Catalog) (pt a l h : value) :
  match snd (recommendEquipment d pt a l h) with
  | Normal r => consistent r
  | Throw_TypeError =>
      lowered_type pt = Throw_TypeError \/ models (default FALLBACK_DATA d) = []
  end.
Proof.
  unfold recommendEquipment. cbn [snd].
  destruct (lowered_type pt) as [s|]; [|now left].
  destruct (getModelByShortName _ _) as [m|] eqn:E.
  - repeat split.
  - destruct (models (default FALLBACK_DATA d)) as [|m t] eqn:Em; cbn [head].
    + now right.
    + repeat split.
Qed.

(* ===================================================================== *)
(** * Further properties of the engine *)
(* ===================================================================== *)

Import Order Figures Cases.
Import SignFacts OrderFacts BoundFacts RoundFacts FigureFacts.

(** X1.  [clamp], for bounds in order: [NaN] stays [NaN]; any other number
    ends up between the bounds; a number between the bounds is returned as
    it is, a number below the lower bound gives the lower bound and a number
    above the upper bound gives the upper bound. *)
Theorem clamp_laws (v lo hi : float) :
  (lo <=? hi) = true ->
  (is_nan v = true -> is_nan (clamp v lo hi) = true) /\
  (is_nan v = false ->
     (lo <=? clamp v lo hi) = true /\ (clamp v lo hi <=? hi) = true) /\
  ((lo <=? v) = true -> (v <=? hi) = true -> (clamp v lo hi =? v) = true) /\
  ((v <? lo) = true -> (clamp v lo hi =? lo) = true) /\
  ((hi <? v) = true -> (clamp v lo hi =? hi) = true).
Proof.
  intros Hle. destruct (leb_not_nan _ _ Hle) as [Hnl Hnh].
  rewrite leb_rank in Hle by trivial. apply Z.leb_le in Hle.
  split; [|split; [|split; [|split]]].
  - intros Hv. now rewrite (is_nan_eq _ Hv), clamp_nan.
  - intros Hv. destruct (clamp_rank v lo hi Hv Hnl Hnh) as [Hn E].
    rewrite !leb_rank by trivial. split; apply Z.leb_le; lia.
  - intros H1 H2. destruct (leb_not_nan _ _ H1) as [_ Hv].
    destruct (clamp_rank v lo hi Hv Hnl Hnh) as [Hn E].
    rewrite leb_rank in H1, H2 by trivial. apply Z.leb_le in H1, H2.
    rewrite eqb_rank by trivial. apply Z.eqb_eq. lia.
  - intros H. destruct (ltb_not_nan _ _ H) as [Hv _].
    destruct (clamp_rank v lo hi Hv Hnl Hnh) as [Hn E].
    rewrite ltb_rank in H by trivial. apply Z.ltb_lt in H.
    rewrite eqb_rank by trivial. apply Z.eqb_eq. lia.
  - intros H. destruct (ltb_not_nan _ _ H) as [_ Hv].
    destruct (clamp_rank v lo hi Hv Hnl Hnh) as [Hn E].
    rewrite ltb_rank in H by trivial. apply Z.ltb_lt in H.
    rewrite eqb_rank by trivial. apply Z.eqb_eq. lia.
Qed.

(** X1 at work: a buffer time of 55.5 between the bounds 5 and 40. *)
Lemma clamp_laws_witness :
  (5 <=? 40) = true /\ (clamp 55.5 5 40 =? 40) = true.
Proof.
  assert (H : (5 <=? 40) = true) by reflexivity.
  split; [exact H|].
  exact (proj2 (proj2 (proj2 (proj2 (clamp_laws 55.5 5 40 H)))) eq_refl).
Defined.

(** X2.  [round], for up to 22 decimals: [NaN] stays [NaN], each infinity
    stays itself, a number that is not negative is not rounded to a negative
    one and a number that is not positive is not rounded to a positive
    one. *)
Theorem round_keeps_sign (v : float) (decimals : nat) :
  (decimals <= 22)%nat ->
  (is_nan v = true -> is_nan (round v decimals) = true) /\
  (v = infinity -> round v decimals = infinity) /\
  (v = neg_infinity -> round v decimals = neg_infinity) /\
  ((0 <=? v) = true -> (0 <=? round v decimals) = true) /\
  ((v <=? 0) = true -> (round v decimals <=? 0) = true).
Proof.
  intros H. destruct (factor_ok decimals H) as [Hc Hf]. unfold round.
  now apply scaled_round.
Qed.

(** X2 at work: a loss of 1234.567 rounded to 2 decimals is no gain. *)
Lemma round_keeps_sign_witness :
  (2 <= 22)%nat /\ (round (-1234.567) 2 <=? 0) = true.
Proof.
  assert (H : (2 <= 22)%nat) by lia.
  split; [exact H|].
  exact (proj2 (proj2 (proj2 (proj2 (round_keeps_sign (-1234.567) 2 H)))) eq_refl).
Defined.

(** X3.  Resolving inputs that are resolved already changes nothing: the
    resolved-input object, handed to the resolver as a raw input, comes back
    field for field. *)
Theorem resolveInputs_idempotent (raw : gmap string value) :
  resolveInputs (as_raw (resolveInputs raw)) = resolveInputs raw.
Proof.
  set (i := resolveInputs raw).
  destruct (get_as_raw i) as (E1 & E2 & E3 & E).
  unfold resolveInputs at 1. rewrite E1, E2, E3.
  repeat match goal with
         | |- context [get (as_raw i) ?k] =>
             let f := field_of_key k in
             let Ef := fresh "Ef" in
             pose proof (E f) as Ef; cbn [key value_of] in Ef; rewrite Ef; clear Ef
         end.
  cbn [defined_or ToNumber ToBoolean].
  assert (Ept : or_else (propertyType i) (Str "commercial") = propertyType i).
  { unfold i. cbn [resolveInputs propertyType]. now apply or_else_idem. }
  rewrite Ept.
  unfold i, resolveInputs.
  cbn [propertyType acreage seasonWeeks mowsPerWeek maintenanceType employees
       hourlyRate mowingTimePercent isLeased monthlyContract benefitsRate
       fuelCostPerGallon laborReduction bufferTime annualLaborIncrease fuelPerAcre
       annualFuelIncrease baseEquipmentCost equipmentCostPerAcre maintenanceRate
       insuranceRate leasingPremium roboticMaintenance electricityPerAcre
       co2PerGallon mowingTimePerAcre automationLevel desiredMowingTime].
  f_equal;
    try reflexivity;
    try (apply guard_idem; first [reflexivity | discriminate]);
    try (apply clamp_guard_idem; reflexivity);
    try (apply clamp_idem; reflexivity);
    try (apply Math_max_idem; reflexivity).
  destruct (get raw "maintenanceType") as [| | | |s]; try reflexivity.
  now destruct (String.eqb s "outsourced").
Qed.

(** X4.  Whatever the raw input, no cost, saving, new cost, number of hours,
    staff figure or environmental figure of the result is negative (the net
    annual savings are the only amount that can be). *)
Theorem calculateROI_never_negative (raw : option (gmap string value)) :
  Forall (fun x => (x <? 0) = false) (amounts (calculateROI raw)).
Proof.
  unfold amounts, calculateROI.
  cbn [currentCosts savings newCosts labor environmental
       cc_labor cc_fuel cc_equipment cc_total sv_labor sv_fuel sv_equipment sv_gross
       nc_maintenance nc_electricity nc_total currentHours hoursSaved currentFTE
       reducedFTE co2Reduced fuelGallonsSaved treeEquivalents noiseReduction].
  destruct (outsourced _); cbn [fst snd];
    [|destruct (isLeased _)]; repeat constructor; not_negative.
Qed.

(** X5.  Only the entries of the selected maintenance mode count.  Under an
    outsourced contract the entries that describe an in-house crew and its
    equipment, and in-house the monthly contract, can be changed at will:
    costs, savings, new costs, net annual savings, labor analysis and
    environmental figures stay the same. *)
Theorem calculateROI_ignores_other_mode (raw raw' : gmap string value) :
  agree_outside (other_mode_keys (resolveInputs raw)) raw raw' ->
  same_figures (calculateROI (Some raw')) (calculateROI (Some raw)).
Proof.
  unfold other_mode_keys. destruct (outsourced (resolveInputs raw)) eqn:Ho; intros H.
  - now apply figures_outsourced.
  - now apply figures_inhouse.
Qed.

(** X5 at work: a contract of 1234.56 a month, with and without a crew of
    7. *)
Lemma calculateROI_ignores_other_mode_witness :
  agree_outside (other_mode_keys (resolveInputs (contract 1234.56)))
    (contract 1234.56) (<["employees" := Num 7]> (contract 1234.56)) /\
  netAnnualSavings (calculateROI (Some (<["employees" := Num 7]> (contract 1234.56))))
  = netAnnualSavings (calculateROI (Some (contract 1234.56))).
Proof.
  assert (H : agree_outside (other_mode_keys (resolveInputs (contract 1234.56)))
                (contract 1234.56) (<["employees" := Num 7]> (contract 1234.56))).
  { intros k Hk. rewrite lookup_insert_ne; trivial.
    intros <-. discriminate Hk. }
  split; [exact H|].
  exact (proj1 (proj2 (proj2 (proj2 (calculateROI_ignores_other_mode _ _ H))))).
Defined.

(** X6.  With no yearly increase of the labor and fuel prices, both
    multipliers of every year are 1 and every year of the projection has the
    traditional and the automated cost of year 1. *)
Theorem calculateProjection_flat (base : ROIResult) (ti sc : value) :
  annualLaborIncrease (inputs base) = 0 -> annualFuelIncrease (inputs base) = 0 ->
  Forall (fun e =>
            laborMultiplier e = 1 /\ fuelMultiplier e = 1 /\
            traditionalCost e = traditionalCost_of base 1 /\
            automatedCost e =
              automatedCost_of base (Math_max (number_or (ToNumber sc) 0) 0) 1)
         (calculateProjection base ti sc).
Proof.
  intros Hl Hf.
  unfold calculateProjection, projection_loop, years.
  cbn [seq fold_left projection_step projection app cumTraditional cumAutomated].
  unfold traditionalCost_of, automatedCost_of, laborMultiplier_of, fuelMultiplier_of.
  rewrite Hl, Hf.
  change (Math_pow (1 + 0 / 100) 1) with 1.
  change (Math_pow (1 + 0 / 100) 2) with 1.
  change (Math_pow (1 + 0 / 100) 3) with 1.
  change (Math_pow (1 + 0 / 100) 4) with 1.
  change (Math_pow (1 + 0 / 100) 5) with 1.
  change (round 1 4) with 1.
  repeat constructor.
Qed.

(** X6 at work: the defaults with both increases set to 0. *)
Lemma calculateProjection_flat_witness :
  annualLaborIncrease (inputs (calculateROI (Some flat_prices))) = 0 /\
  annualFuelIncrease (inputs (calculateROI (Some flat_prices))) = 0 /\
  Forall (fun e => laborMultiplier e = 1)
         (calculateProjection (calculateROI (Some flat_prices)) (Num 0) (Num 0)).
Proof.
  assert (H1 : annualLaborIncrease (inputs (calculateROI (Some flat_prices))) = 0)
    by (vm_compute; reflexivity).
  assert (H2 : annualFuelIncrease (inputs (calculateROI (Some flat_prices))) = 0)
    by (vm_compute; reflexivity).
  split; [exact H1|]. split; [exact H2|].
  eapply List.Forall_impl;
    [|exact (calculateProjection_flat (calculateROI (Some flat_prices))
               (Num 0) (Num 0) H1 H2)].
  intros e He. exact (proj1 He).
Defined.

(* ===================================================================== *)
(** * Further properties of the recommender *)
(* ===================================================================== *)

Import Api Pricing CatalogFacts RecommenderFacts.

(** X7.  A lookup by short name returns the first model of the catalog with
    that short name, and nothing exactly when no model has it. *)
Theorem getModelByShortName_first (_data : Catalog) (short : string) :
  match getModelByShortName _data short with
  | Some m =>
      exists before after,
        models _data = before ++ m :: after /\ shortName m = short /\
        Forall (fun x => shortName x <> short) before
  | None => Forall (fun x => shortName x <> short) (models _data)
  end.
Proof.
  unfold getModelByShortName.
  pose proof (find_first (fun m => String.eqb (shortName m) short) (models _data)) as H.
  destruct (find _ _) as [m|].
  - destruct H as (b & c & E & Hm & Hb). exists b, c. repeat split; trivial.
    + now apply String.eqb_eq.
    + eapply List.Forall_impl; [|exact Hb]. intros x Hx. now apply String.eqb_neq.
  - eapply List.Forall_impl; [|exact H]. intros x Hx. now apply String.eqb_neq.
Qed.

(** X8.  While no data is loaded [getModel] finds nothing, not even the
    models [getModels] lists; one call of [recommend], whatever its
    arguments and even if it throws, loads the built-in data, and from then
    on each of these models is found by its short name.  Data that is loaded
    is left as it is. *)
Theorem getModel_needs_data (pt a l h : value) :
  (forall short, getModel None short = None) /\
  getModels None = models FALLBACK_DATA /\
  fst (recommend None pt a l h) = Some FALLBACK_DATA /\
  (forall m, In m (getModels None) ->
     getModel (fst (recommend None pt a l h)) (shortName m) = Some m) /\
  (forall d, fst (recommend (Some d) pt a l h) = Some d).
Proof.
  repeat split.
  intros m Hin. cbn [recommend recommendEquipment fst default getModel].
  apply (find_unique shortName); trivial.
  cbn. repeat constructor; cbn; intuition discriminate.
Qed.

(** X9.  The property type counts only through being 'golf' or not, upper
    and lower case alike: two property types that are strings, or absent,
    and are both 'golf' or both not 'golf' once in lower case, give the same
    recommendation; and 'golf' without the hilly flag gives what any other
    type gives with it. *)
Theorem recommendEquipment_type_only_golf (d : option Catalog)
    (pt pt' a l h : value) (s s' : string) :
  lowered_type pt = Normal s -> lowered_type pt' = Normal s' ->
  (String.eqb s "golf" = String.eqb s' "golf" ->
     recommendEquipment d pt a l h = recommendEquipment d pt' a l h) /\
  (String.eqb s "golf" = true ->
     recommendEquipment d pt a l h = recommendEquipment d pt' a l (Bool true)).
Proof.
  intros E E'. unfold recommendEquipment. rewrite E, E'. split.
  - now intros ->.
  - intros ->. cbn [ToBoolean orb]. now rewrite orb_true_r.
Qed.

(** X9 at work: athletic fields get what a property of no stated type
    gets. *)
Lemma recommendEquipment_type_only_golf_witness :
  lowered_type (Str "Athletic") = Normal "athletic"%string /\
  lowered_type Undefined = Normal "commercial"%string /\
  recommendEquipment None (Str "Athletic") (Num 10) (Num 50) (Bool false)
  = recommendEquipment None Undefined (Num 10) (Num 50) (Bool false).
Proof.
  assert (H1 : lowered_type (Str "Athletic") = Normal "athletic"%string) by reflexivity.
  assert (H2 : lowered_type Undefined = Normal "commercial"%string) by reflexivity.
  split; [exact H1|]. split; [exact H2|].
  exact (proj1 (recommendEquipment_type_only_golf None (Str "Athletic") Undefined
                  (Num 10) (Num 50) (Bool false) _ _ H1 H2) eq_refl).
Defined.

(** X10.  With the built-in catalog the model is the one selected by name,
    never the fall-back to the first model: an H-series model, for hilly
    terrain, exactly for golf courses and with the hilly flag, the 520 model
    of the series (1.25 acres) when the target acreage is at most 2, and the
    550 model (2.5 acres) otherwise, also when the target acreage is
    [NaN]. *)
Theorem recommendEquipment_builtin_model (pt a l h : value) (s : string) :
  lowered_type pt = Normal s ->
  exists r,
    snd (recommendEquipment None pt a l h) = Normal r /\
    let hilly := (String.eqb s "golf" || ToBoolean h)%bool in
    let small := targetAcreage r <=? 2 in
    mi_shortName (model r) =
      match hilly, small with
      | true, true => "520H EPOS"
      | true, false => "550H EPOS"
      | false, true => "520 EPOS"
      | false, false => "550 EPOS"
      end%string /\
    mi_coverage (model r) = (if small then 1.25 else 2.5) /\
    exists m,
      getModelByShortName FALLBACK_DATA (mi_shortName (model r)) = Some m /\
      mi_name (model r) = name m /\ mi_price (model r) = price m /\
      terrain m = (if hilly then "hilly" else "flat")%string.
Proof.
  intros E. unfold recommendEquipment. cbn [snd default]. rewrite E.
  cbv beta iota zeta.
  destruct (String.eqb s "golf" || ToBoolean h)%bool;
    destruct (_ <=? 2) eqn:Et;
    (eexists; split; [reflexivity|]);
    cbn [model mi_shortName mi_coverage mi_name mi_price mi_description targetAcreage];
    rewrite ?Et; repeat split; eexists; repeat split.
Qed.

(** X10 at work: one acre of 'GOLF'. *)
Lemma recommendEquipment_builtin_model_witness :
  lowered_type (Str "GOLF") = Normal "golf"%string /\
  exists r,
    snd (recommendEquipment None (Str "GOLF") (Num 1) (Num 100) (Bool false)) = Normal r /\
    mi_coverage (model r) = (if targetAcreage r <=? 2 then 1.25 else 2.5).
Proof.
  assert (H : lowered_type (Str "GOLF") = Normal "golf"%string) by reflexivity.
  split; [exact H|].
  destruct (recommendEquipment_builtin_model (Str "GOLF") (Num 1) (Num 100) (Bool false)
              _ H) as (r & Hr & _ & Hc & _).
  exists r. split; [exact Hr | exact Hc].
Defined.

(** X11.  For every catalog that lists a model, gives every model a
    positive finite coverage and prices every model and item above zero,
    every property type that is a string or absent and every acreage other
    than [+Infinity], the recommendation has eight cost figures none of
    which is negative or [NaN]; the total investment is at least the flat
    setup price and the annual service cost at least the price of remote
    support, so both are above zero. *)
Theorem recommendEquipment_costs (d : option Catalog) (pt a l h : value) :
  catalog_ok (default FALLBACK_DATA d) -> priced (default FALLBACK_DATA d) ->
  type_ok pt -> ToNumber a <> infinity ->
  exists r,
    snd (recommendEquipment d pt a l h) = Normal r /\
    Forall (fun x => (0 <=? x) = true) (cost_figures (costs r)) /\
    (setup (costs r) <=? Equipment.totalInvestment (costs r)) = true /\
    (0 <? Equipment.totalInvestment (costs r)) = true /\
    (item_price (remoteSupport (default FALLBACK_DATA d)) <=? annualService (costs r))
      = true /\
    (0 <? annualService (costs r)) = true.
Proof.
  intros Hc Hp Ht Ha.
  destruct (priced_recommendation d pt a l h Hc Hp Ht Ha)
    as (r & Hr & F & S1 & P1 & S2 & P2).
  exists r. repeat split; assumption.
Qed.

(** X11 at work: the worked example with the built-in catalog. *)
Lemma recommendEquipment_costs_witness :
  catalog_ok (default FALLBACK_DATA None) /\ priced (default FALLBACK_DATA None) /\
  type_ok (Str "commercial") /\ ToNumber (Num 10) <> infinity /\
  exists r,
    snd (recommendEquipment None (Str "commercial") (Num 10) (Num 50) (Bool false))
      = Normal r /\
    (0 <? Equipment.totalInvestment (costs r)) = true.
Proof.
  assert (H1 : catalog_ok (default FALLBACK_DATA None)) by exact fallback_ok.
  assert (H2 : priced (default FALLBACK_DATA None)) by exact builtin_priced.
  assert (H3 : type_ok (Str "commercial")) by (right; eexists; reflexivity).
  assert (H4 : ToNumber (Num 10) <> infinity) by (apply neq_by_bits; reflexivity).
  repeat split; trivial; try apply H1; try apply H2.
  destruct (recommendEquipment_costs None (Str "commercial") (Num 10) (Num 50)
              (Bool false) H1 H2 H3 H4) as (r & Hr & _ & _ & Hp & _).
  exists r. split; [exact Hr | exact Hp].
Defined.

(* ===================================================================== *)
(** * Properties of the page controller *)
(* ===================================================================== *)

Import Parse App FormFields WizardDefs Forms AppFacts.

(** X12.  A calculation with a catalog as in X11 and an acreage field that
    does not read [Infinity] never throws; the investment and the yearly
    service cost that the metrics and the projection work with are the
    recommender's totals unchanged, and the investment is above zero, so
    the metrics never take the way out for an investment of zero.  Started
    on step 3, the wizard ends on step 4 with step 3 completed. *)
Theorem runCalculation_investment (form : Form) (d : option Catalog) (w : Wizard) :
  catalog_ok (default FALLBACK_DATA d) -> priced (default FALLBACK_DATA d) ->
  parseFloat (total_acreage form) <> infinity ->
  exists c w',
    snd (runCalculation form d w) = Normal (c, w') /\
    calculationResults c = calculateROI (Some (gatherInputs form)) /\
    Calculator.totalInvestment (investmentMetrics c)
      = Equipment.totalInvestment (costs (equipmentRecommendation c)) /\
    Calculator.annualServiceCost (investmentMetrics c)
      = annualService (costs (equipmentRecommendation c)) /\
    (Calculator.totalInvestment (investmentMetrics c) =? 0) = false /\
    projectionData c
      = calculateProjection (calculationResults c)
          (Num (Calculator.totalInvestment (investmentMetrics c)))
          (Num (Calculator.annualServiceCost (investmentMetrics c))) /\
    (currentStep w = 3 -> w' = {| currentStep := 4; maxCompletedStep := 3 |}).
Proof.
  intros Hc Hp Ha. unfold runCalculation, recommend. cbn [snd fst].
  destruct (get_gatherInputs form) as (E1 & E2 & E3). rewrite E1, E2, E3.
  assert (Ht : type_ok (Str (property_type form))) by (right; eexists; reflexivity).
  assert (Hi : ToNumber (Num (number_or (parseFloat (total_acreage form)) 0)) <> infinity).
  { cbn [ToNumber]. apply number_or_not_infinity; [discriminate | exact Ha]. }
  destruct (priced_recommendation d (Str (property_type form)) _
              (Num (parseInt (automation_level form)))
              (Bool (String.eqb (property_type form) "golf")) Hc Hp Ht Hi)
    as (r & -> & _ & _ & H1 & _ & H2).
  eexists _, _. split; [reflexivity|].
  cbn [calculationResults investmentMetrics equipmentRecommendation projectionData].
  unfold withInvestment.
  cbn [Calculator.totalInvestment Calculator.annualServiceCost].
  rewrite !(guard_keeps _ H1), !(guard_keeps _ H2).
  repeat split; [now apply pos_not_zero|].
  intros ->. reflexivity.
Qed.

(** X12 at work: the filled form with the built-in catalog. *)
Lemma runCalculation_investment_witness :
  catalog_ok (default FALLBACK_DATA None) /\ priced (default FALLBACK_DATA None) /\
  parseFloat (total_acreage filled_form) <> infinity /\
  exists c w',
    snd (runCalculation filled_form None {| currentStep := 3; maxCompletedStep := 2 |})
      = Normal (c, w') /\
    (Calculator.totalInvestment (investmentMetrics c) =? 0) = false.
Proof.
  assert (H1 : catalog_ok (default FALLBACK_DATA None)) by exact fallback_ok.
  assert (H2 : priced (default FALLBACK_DATA None)) by exact builtin_priced.
  assert (H3 : parseFloat (total_acreage filled_form) <> infinity)
    by (apply neq_by_bits; vm_compute; reflexivity).
  repeat split; trivial; try apply H1; try apply H2.
  destruct (runCalculation_investment filled_form None
              {| currentStep := 3; maxCompletedStep := 2 |} H1 H2 H3)
    as (c & w' & Hr & _ & _ & _ & Hz & _).
  exists c, w'. split; [exact Hr | exact Hz].
Defined.

(** X13.  The form gives every numeric entry of the raw input as a number,
    so the engine never applies one of its own defaults for an absent
    entry; it falls back on a value of its own exactly for the six fields
    for which the engine falls back on falsy numbers.  A field left blank
    resolves to that value (0 for acreage, employees, hourly rate and
    monthly contract, 30 for the season weeks, 60 for the mowing time
    percent) and, for each of the other 18 fields, to [NaN]. *)
Theorem gatherInputs_blank (form : Form) (f : numeric_field) :
  (exists x, get (gatherInputs form) (key f) = Num x) /\
  (form_default f <> None <-> falls_back_on_falsy f = true) /\
  (text_of form f = ""%string ->
   match form_default f with
   | Some d => value_of (resolveInputs (gatherInputs form)) f = d
   | None => is_nan (value_of (resolveInputs (gatherInputs form)) f) = true
   end).
Proof.
  pose proof (get_gathered form f) as G. split; [eauto|]. split.
  - destruct f; cbn; split; intros; congruence.
  - intros Hb. unfold gathered, parsed in G. rewrite Hb in G.
    destruct f; cbn [form_default whole] in G |- *; field_projections;
      cbn [key] in G; rewrite G; reflexivity.
Qed.

(** X13 at work: the benefits rate of the blank form. *)
Lemma gatherInputs_blank_witness :
  text_of blank_form f_benefitsRate = ""%string /\
  is_nan (benefitsRate (resolveInputs (gatherInputs blank_form))) = true.
Proof.
  assert (H : text_of blank_form f_benefitsRate = ""%string) by reflexivity.
  split; [exact H|].
  exact (proj2 (proj2 (gatherInputs_blank blank_form f_benefitsRate)) H).
Defined.

(** X14.  Only steps 1 and 2 are validated.  Step 1 is valid exactly when a
    property type is selected and the acreage text is not empty and does
    not read as a number that is at most 0: a text that reads as a number
    above 0 passes, and so does a text that reads as no number at all. *)
Theorem validateStep_cases (form : Form) (step : float) :
  ((step =? 1) = false -> (step =? 2) = false -> validateStep form step = true) /\
  (validateStep form 1 = true <->
     property_type form <> ""%string /\ total_acreage form <> ""%string /\
     (is_nan (StringToNumber (total_acreage form)) = true \/
      (0 <? StringToNumber (total_acreage form)) = true)).
Proof.
  split.
  - intros E1 E2. unfold validateStep, step_errors. now rewrite E1, E2.
  - unfold validateStep, step_errors, missing_or_at_most.
    change (1 =? 1) with true. change (1 =? 2) with false. cbv iota.
    rewrite app_nil_r.
    destruct (String.eqb_spec (property_type form) "") as [->|Hp].
    { cbn. split; [discriminate | now intros [[] _]]. }
    destruct (String.eqb_spec (total_acreage form) "") as [->|Ha].
    { cbn. split; [discriminate | now intros (_ & [] & _)]. }
    cbn [orb app].
    destruct (sign_cases (StringToNumber (total_acreage form)))
      as [(-> & E & N) | [(-> & -> & N) | (-> & E & ->)]].
    + split; [discriminate|]. intros (_ & _ & [H|H]); congruence.
    + split; auto.
    + split; auto.
Qed.

(** X14 at work: the goals of step 3 are never checked, even on a blank
    form. *)
Lemma validateStep_cases_witness :
  (3 =? 1) = false /\ (3 =? 2) = false /\ validateStep blank_form 3 = true.
Proof.
  assert (H1 : (3 =? 1) = false) by reflexivity.
  assert (H2 : (3 =? 2) = false) by reflexivity.
  split; [exact H1|]. split; [exact H2|].
  exact (proj1 (validateStep_cases blank_form 3) H1 H2).
Defined.

(** X15.  Whatever is asked of the wizard, as long as no request is for a
    step that is [NaN], it stays on one of its four steps: from the first
    step on, after any sequence of requests, the current step is between 1
    and 4 and the furthest completed step is at least 0 and below 4. *)
Theorem navigate_stays_on_a_step (requests : list (Form * float)) :
  Forall (fun r => is_nan (snd r) = false) requests ->
  on_a_step (navigate first_step requests).
Proof.
  unfold navigate.
  assert (H : on_a_step first_step) by (repeat split).
  revert H. generalize first_step.
  induction requests as [|r l IH]; intros w Hw Hr; cbn [fold_left]; trivial.
  apply Forall_cons in Hr as [Hr Hl].
  apply IH; trivial. now apply goToStep_keeps.
Qed.

(** X15 at work: asked for step 7 and then for step 2 with a blank form,
    the wizard is still on a step. *)
Lemma navigate_stays_on_a_step_witness :
  Forall (fun r => is_nan (snd r) = false) [(blank_form, 7); (blank_form, 2)] /\
  on_a_step (navigate first_step [(blank_form, 7); (blank_form, 2)]).
Proof.
  assert (H : Forall (fun r : Form * float => is_nan (snd r) = false)
                [(blank_form, 7); (blank_form, 2)]) by (repeat constructor).
  split; [exact H|].
  exact (navigate_stays_on_a_step _ H).
Defined.

(** X16.  One request to the wizard.  The wizard moves forward only when
    the step it is on is valid, and then to the step asked for, which is at
    most one step beyond the current one or beyond the furthest completed
    one; on a step, it always moves back to an earlier step from 1 on, and
    that leaves the furthest completed step as it is; and the furthest
    completed step never decreases. *)
Theorem goToStep_moves (form : Form) (w : Wizard) (step : float) :
  let w' := goToStep form w step in
  ((currentStep w <? currentStep w') = true ->
     currentStep w' = step /\ validateStep form (currentStep w) = true /\
     (is_nan (maxCompletedStep w) = false ->
        (step <=? maxCompletedStep w + 1) = true \/
        (step <=? currentStep w + 1) = true)) /\
  (on_a_step w -> (1 <=? step) = true -> (step <=? currentStep w) = true ->
     w' = {| currentStep := step; maxCompletedStep := maxCompletedStep w |}) /\
  (on_a_step w -> (maxCompletedStep w <=? maxCompletedStep w') = true).
Proof.
  cbv zeta. split; [|split].
  - intros Hlt.
    destruct (goToStep_cases form w step) as [E | (E & E1 & E2 & E3 & E4)];
      rewrite E in Hlt.
    { apply ltb_rank_lt in Hlt. lia. }
    rewrite E. cbn [currentStep] in *. split; trivial. split; [auto|].
    intros Nm. destruct (ltb_not_nan _ _ Hlt) as [Nc Ns].
    destruct E3 as [E3|E3]; [left|right].
    + apply not_ltb_leb; trivial. now apply add_finite_not_nan.
    + apply not_ltb_leb; trivial. now apply add_finite_not_nan.
  - intros (H1 & H2 & H3 & H4) Hs Hc.
    assert (H0 : (0 <=? currentStep w) = true).
    { apply (leb_trans 0 1); trivial. }
    pose proof (next_step _ H0) as Hn.
    unfold goToStep.
    assert (E1 : (step <? 1) = false) by now apply leb_not_ltb.
    assert (E2 : (4 <? step) = false).
    { apply leb_not_ltb. now apply (leb_trans _ (currentStep w)). }
    assert (E4 : (currentStep w + 1 <? step) = false).
    { apply leb_not_ltb. now apply (leb_trans _ (currentStep w)). }
    assert (E5 : (currentStep w <? step) = false) by now apply leb_not_ltb.
    rewrite E1, E2, E4, E5. cbn [orb andb]. rewrite andb_false_r. reflexivity.
  - intros (H1 & H2 & H3 & H4).
    assert (N1 : is_nan (currentStep w) = false) by now apply leb_not_nan in H1.
    assert (N2 : is_nan (maxCompletedStep w) = false) by now apply leb_not_nan in H3.
    destruct (goToStep_cases form w step) as [-> | (-> & _)];
      [now apply leb_refl|].
    cbn [maxCompletedStep].
    destruct (currentStep w <? step); [|now apply leb_refl].
    now apply Math_max_spec.
Qed.

(** X16 at work: from step 1 with the filled form the wizard moves on to
    step 2. *)
Lemma goToStep_moves_witness :
  (currentStep first_step <? currentStep (goToStep filled_form first_step 2)) = true /\
  currentStep (goToStep filled_form first_step 2) = 2 /\
  validateStep filled_form (currentStep first_step) = true.
Proof.
  assert (H : (currentStep first_step
               <? currentStep (goToStep filled_form first_step 2)) = true)
    by (vm_compute; reflexivity).
  split; [exact H|].
  destruct (proj1 (goToStep_moves filled_form first_step 2) H) as (H1 & H2 & _).
  split; [exact H1 | exact H2].
Defined.

(* ===================================================================== *)
(** * The lead form and the lead function *)
(* ===================================================================== *)

Import Text Regex Server LeadCapture Languages Markup.
Import RegexFacts LeadFacts MarkupFacts EscapeFacts.

(** X17. The pattern both the lead form and the lead function test an
    e-mail address with, [/^[^\s@]+@[^\s@]+\.[^\s@]+$/], accepts exactly
    the strings made of a part, an at sign, a part, a full stop and a part,
    where a part is one or more code units that are neither white space nor
    an at sign (so full stops are allowed inside a part, and neither more
    at signs nor white space anywhere). *)
Theorem EMAIL_REGEX_matches (s : string) :
  test EMAIL_REGEX s = true <->
  exists a b c, s = (a ++ "@" ++ b ++ "." ++ c)%string /\ plain a /\ plain b /\ plain c.
Proof.
  unfold test. rewrite matches_spec. unfold EMAIL_REGEX. split.
  - intros H.
    apply lang_Cat_iff in H as (a & r1 & E1 & Ha & H).
    apply lang_Cat_iff in H as (at_ & r2 & E2 & Hat & H).
    apply lang_Cat_iff in H as (b & r3 & E3 & Hb & H).
    apply lang_Cat_iff in H as (dot & c & E4 & Hdot & Hc).
    apply lang_Chr in Hat, Hdot. subst at_ dot r3 r2 r1.
    apply lang_Plus_Class in Ha, Hb, Hc.
    exists (string_of_list_ascii a), (string_of_list_ascii b), (string_of_list_ascii c).
    split; [|rewrite !plain_list, !list_ascii_of_string_of_list_ascii; auto].
    rewrite <- (string_of_list_ascii_of_string s), E1.
    rewrite <- (string_of_list_ascii_of_string (_ ++ _ ++ _)%string).
    f_equal. rewrite !list_ascii_app, !list_ascii_of_string_of_list_ascii. reflexivity.
  - intros (a & b & c & -> & Ha & Hb & Hc).
    rewrite !list_ascii_app. apply plain_list in Ha, Hb, Hc.
    repeat (constructor; try (now apply lang_Plus_Class); try (now apply lang_Chr)).
Qed.

(** X18. The lead form and the lead function agree on what [submit] sends:
    the function answers the body [submit] builds from the contact fields
    with a status other than 400 exactly when [validate] accepts these
    fields, whatever the message, the calculator results and the outcome of
    the mail service are. *)
Theorem submit_passes_server_checks
  (name email phone message : string) (calcData : option json) (mail : option bool) :
  validate name email phone = None <->
  status (onRequestPost (Some (submit name email phone message calcData)) mail) <> 400%Z.
Proof.
  unfold validate, onRequestPost, submit.
  rewrite property_name, property_email, !blank_or_trimmed.
  cbn [truthy ToString fails throws]. rewrite !negb_involutive.
  destruct (String.eqb (trimmed name) ""); cbn [orb status]; [split; [discriminate | congruence]|].
  destruct (String.eqb (trimmed email) ""); cbn [orb status]; [split; [discriminate | congruence]|].
  destruct (test EMAIL_REGEX (trimmed email)); cbn [negb status];
    [|split; [discriminate | congruence]].
  split; [intros _ | reflexivity].
  destruct (existsb fails _); [cbn; discriminate|].
  destruct mail as [[]|]; cbn; discriminate.
Qed.

(** X19. Whatever [escapeHtml] is given, its result has no [<], no [>], no
    double quote and no apostrophe, and every ampersand in it starts one of
    the five references [&amp;], [&lt;], [&gt;], [&quot;] and [&#039;]. *)
Theorem escapeHtml_inert (str : option json) :
  (forall c, In c [ "<"; ">"; quote; "'" ]%char ->
             ~ In c (list_ascii_of_string (escapeHtml str))) /\
  (forall before after,
     escapeHtml str = (before ++ String "&" after)%string ->
     exists r rest,
       In r [ "amp;"; "lt;"; "gt;"; "quot;"; "#039;" ]%string /\
       after = (r ++ rest)%string).
Proof.
  assert (H : inert (escapeHtml str) = true).
  { unfold escapeHtml. destruct str as [v|]; [|reflexivity].
    destruct (truthy (Some v)); [|reflexivity].
    fold (replaced (ToString v)). rewrite replaced_escaped. apply inert_escaped. }
  split.
  - now apply inert_no_unsafe.
  - intros before after E. exact (inert_references before _ after H E).
Qed.

(** X20. [escapeHtml] loses nothing: two strings with the same escaped
    text are the same string. *)
Theorem escapeHtml_keeps_apart (s t : string) :
  escapeHtml (Some (JString s)) = escapeHtml (Some (JString t)) -> s = t.
Proof.
  unfold escapeHtml. cbn [truthy ToString].
  fold (replaced s) (replaced t). rewrite !replaced_escaped.
  destruct s as [|c s], t as [|d t]; cbn [String.eqb negb]; trivial.
  - intros E. apply (escaped_inj "" (String d t)). exact E.
  - intros E. apply (escaped_inj (String c s) ""). exact E.
  - apply escaped_inj.
Qed.

Lemma escapeHtml_keeps_apart_witness :
  escapeHtml (Some (JString "a<b")) = escapeHtml (Some (JString "a<b")) /\
  ("a<b" : string) = "a<b"%string.
Proof.
  split; [reflexivity|].
  apply (escapeHtml_keeps_apart "a<b" "a<b"). reflexivity.
Defined.

(* ===================================================================== *)
(** * Amounts as text *)
(* ===================================================================== *)

Import Text Regex Fixed Grouping FixedFacts.
Import View Order FloatFacts SignFacts.

(** X21. For a number of magnitude below [10^21], [Equipment.formatCurrency]
    writes a dollar sign, a minus sign if the number is below zero, the
    whole dollars of its magnitude in groups of three digits from the right
    with commas between the groups, a point and two digits of cents, where
    the cents are hundred times the magnitude to the nearest integer (the
    upper one of two); [fmtCents] of the report writes the same. *)
Theorem formatCurrency_grouped (x : float) :
  (abs x <? 1e21) = true ->
  formatCurrency (Num x)
  = string_of_list_ascii
      ("$"%char :: (if x <? 0 then ["-"%char] else [])
       ++ thousands (cents x / 100) ++ "."%char :: two (cents x mod 100)) /\
  fmtCents (Num x) = formatCurrency (Num x).
Proof.
  intros H. destruct (small_cases x H) as (N & L & C).
  unfold formatCurrency, fmtCents. cbn [ToNumber]. rewrite N. split; [|reflexivity].
  rewrite ltb_0_r. unfold with_commas, toFixed, cents.
  destruct C as [[s E] | (s & m & e & E)]; rewrite E.
  - reflexivity.
  - cbv zeta. rewrite L.
    assert (S := with_commas_fixed _ (nearest_scaled_nonneg m e 2)).
    destruct s; cbn [list_ascii_of_string sf_not_negative negb];
      rewrite list_ascii_of_string_of_list_ascii; cbn [separate is_digit andb app];
      rewrite S; reflexivity.
Qed.

Lemma formatCurrency_grouped_witness :
  (abs 1234567.891 <? 1e21) = true /\
  formatCurrency (Num 1234567.891) = "$1,234,567.89"%string.
Proof.
  split; [reflexivity|].
  destruct (formatCurrency_grouped 1234567.891 eq_refl) as [E _].
  rewrite E. reflexivity.
Defined.
